(** * socialrss: the feed aggregator of index.js

    A shallow embedding of the normalization pipeline of [index.js]
    (source adapter, media extractor, normalizer, merge engine, feed
    renderer) and the properties of it that the specification states.

    The program is JavaScript: its data are dynamically typed, so a raw
    feed item is a bag of host values and an ill-typed field makes a
    method call raise [TypeError].  The embedding keeps that: host values
    are the inductive [value], and code that can raise runs in the
    [result] monad. *)

From Stdlib Require Import ZArith List String Ascii Bool Lia DecimalString.
From stdpp Require Import base option gmap strings list sorting.

Local Open Scope string_scope.
Set Warnings "-register-all".

(** ** Host values *)

(** The values a parsed feed can hold.  A string is a sequence of code
    units below 256; a number is an integral double (written in decimal
    by [ToString], which holds below 10^21); an object lists its
    properties in creation order, the first binding of a key being the
    live one. *)
Inductive value : Type :=
| VUndef
| VNull
| VBool (b : bool)
| VNum (n : Z)
| VStr (s : string)
| VArr (elems : list value)
| VObj (props : list (string * value)).

Definition obj : Type := list (string * value).

Inductive exn : Type :=
| TypeError (msg : string)
| SyntaxError (msg : string).

Inductive result (A : Type) : Type :=
| Ok (a : A)
| Throw (e : exn).
Arguments Ok {A} a.
Arguments Throw {A} e.

#[global] Instance result_ret : MRet result := fun A a => Ok a.
#[global] Instance result_bind : MBind result := fun A B k m =>
  match m with
  | Ok a => k a
  | Throw e => Throw e
  end.

(** [try { m } catch { h }] *)
Definition try_catch {A} (m : result A) (h : exn → result A) : result A :=
  match m with
  | Ok a => Ok a
  | Throw e => h e
  end.

Module Js.

(** *** Truthiness and property access *)

Definition truthy (v : value) : bool :=
  match v with
  | VUndef | VNull => false
  | VBool b => b
  | VNum n => negb (n =? 0)%Z
  | VStr s => negb (s =? "")
  | VArr _ | VObj _ => true
  end.

(** [a || b] where evaluating [b] has no effect *)
Definition or (a b : value) : value := if truthy a then a else b.

Fixpoint lookup_prop (k : string) (o : obj) : value :=
  match o with
  | [] => VUndef
  | (k', v) :: r => if k =? k' then v else lookup_prop k r
  end.

(** [o[k] = v]: an existing property keeps its place, a new one goes
    last. *)
Fixpoint set_prop (k : string) (v : value) (o : obj) : obj :=
  match o with
  | [] => [(k, v)]
  | (k', v') :: r => if k =? k' then (k, v) :: r else (k', v') :: set_prop k v r
  end.

(** [v.k] for a property name that no built-in prototype defines (all
    the names index.js reads from feed data are such): [undefined] and
    [null] have no properties, an object answers from its own, any
    other value answers [undefined]. *)
Definition prop (v : value) (k : string) : result value :=
  match v with
  | VUndef | VNull => Throw (TypeError "cannot read properties of undefined or null")
  | VObj o => Ok (lookup_prop k o)
  | _ => Ok VUndef
  end.

(** [v[0]] *)
Definition first (v : value) : result value :=
  match v with
  | VUndef | VNull => Throw (TypeError "cannot read properties of undefined or null")
  | VArr l => Ok (hd VUndef l)
  | VStr (String c _) => Ok (VStr (String c ""))
  | VObj o => Ok (lookup_prop "0" o)
  | _ => Ok VUndef
  end.

(** *** Strings *)

(** White space and line terminators among the code units below 256. *)
Definition is_space (c : ascii) : bool :=
  let n := nat_of_ascii c in
  (((9 <=? n) && (n <=? 13)) || (n =? 32) || (n =? 160))%nat.

Fixpoint trimStart (s : string) : string :=
  match s with
  | String c r => if is_space c then trimStart r else s
  | "" => ""
  end.

Fixpoint trimEnd (s : string) : string :=
  match s with
  | String c r =>
      match trimEnd r with
      | "" => if is_space c then "" else String c ""
      | r' => String c r'
      end
  | "" => ""
  end.

Definition str_trim (s : string) : string := trimEnd (trimStart s).

Fixpoint str_includes (sub s : string) : bool :=
  String.prefix sub s ||
  match s with
  | String _ r => str_includes sub r
  | "" => false
  end.

Fixpoint str_take (n : nat) (s : string) : string :=
  match n, s with
  | S n', String c r => String c (str_take n' r)
  | _, _ => ""
  end.

Definition not_a_function (name : string) : exn :=
  TypeError (name ++ " is not a function").

(** [recv.startsWith(p)]; only strings have the method. *)
Definition startsWith (recv : value) (p : string) : result bool :=
  match recv with
  | VStr s => Ok (String.prefix p s)
  | VUndef | VNull => Throw (TypeError "cannot read properties of undefined or null")
  | _ => Throw (not_a_function "startsWith")
  end.

(** [recv.includes(x)] for a string [x]: substring test on a string,
    membership test on an array. *)
Definition includes (recv : value) (x : string) : result bool :=
  match recv with
  | VStr s => Ok (str_includes x s)
  | VArr l => Ok (existsb (fun e => match e with VStr s => s =? x | _ => false end) l)
  | VUndef | VNull => Throw (TypeError "cannot read properties of undefined or null")
  | _ => Throw (not_a_function "includes")
  end.

(** [recv.trim()] *)
Definition trim (recv : value) : result string :=
  match recv with
  | VStr s => Ok (str_trim s)
  | VUndef | VNull => Throw (TypeError "cannot read properties of undefined or null")
  | _ => Throw (not_a_function "trim")
  end.

(** *** Conversion to string *)

Definition num_to_string (n : Z) : string := NilZero.string_of_int (Z.to_int n).

Definition join (sep : string) (l : list string) : string :=
  match l with
  | [] => ""
  | x :: r => fold_left (fun acc y => acc ++ sep ++ y) r x
  end.

(** Whether [o] has a property [k] of its own, whatever its value. *)
Definition has_prop (k : string) (o : obj) : bool :=
  existsb (fun kv => fst kv =? k) o.

(** [String(v)], as a template literal and [join] apply it.  A
    primitive has its string.  An array answers through its join, by
    commas, of the strings of its elements, [undefined] and [null]
    counting as empty.  An object goes through its toString, then its
    valueOf: feed data holds no function, so an object that has a
    toString property of its own has none it can call, valueOf
    answers with the object itself, and the conversion raises
    TypeError; any other object answers with the toString of
    Object.prototype. *)
Fixpoint ToString (v : value) : result string :=
  match v with
  | VUndef => Ok "undefined"
  | VNull => Ok "null"
  | VBool b => Ok (if b then "true" else "false")
  | VNum n => Ok (num_to_string n)
  | VStr s => Ok s
  | VArr l =>
      parts ← mapM (fun e => match e with
                             | VUndef | VNull => Ok ""
                             | _ => ToString e
                             end) l;
      Ok (join "," parts)
  | VObj o =>
      if has_prop "toString" o
      then Throw (TypeError "cannot convert object to primitive value")
      else Ok "[object Object]"
  end.

(** [l.join(sep)] on an array of any values *)
Definition join_values (sep : string) (l : list value) : result string :=
  parts ← mapM (fun e => match e with
                         | VUndef | VNull => Ok ""
                         | _ => ToString e
                         end) l;
  Ok (join sep parts).

(** The string of a value that has one; empty where the conversion
    raises. *)
Definition text (v : value) : string :=
  match ToString v with
  | Ok s => s
  | Throw _ => ""
  end.

(** *** JSON.stringify *)

Definition dquote : ascii := ascii_of_nat 34.
Definition backslash : ascii := ascii_of_nat 92.

Definition hex_digit (n : nat) : ascii :=
  nth n (list_ascii_of_string "0123456789abcdef") "0"%char.

Definition json_escape (c : ascii) : string :=
  let n := nat_of_ascii c in
  if (n =? 34)%nat then String backslash (String dquote "")
  else if (n =? 92)%nat then String backslash (String backslash "")
  else if (n =? 8)%nat then String backslash "b"
  else if (n =? 9)%nat then String backslash "t"
  else if (n =? 10)%nat then String backslash "n"
  else if (n =? 12)%nat then String backslash "f"
  else if (n =? 13)%nat then String backslash "r"
  else if (n <? 32)%nat then
    String backslash ("u00" ++ String (hex_digit (n / 16)) (String (hex_digit (n mod 16)) ""))
  else String c "".

Fixpoint json_escape_all (s : string) : string :=
  match s with
  | String c r => json_escape c ++ json_escape_all r
  | "" => ""
  end.

Definition json_quote (s : string) : string :=
  String dquote (json_escape_all s ++ String dquote "").

(** [JSON.stringify(v)]; [None] is the [undefined] it answers for
    [undefined]. *)
Fixpoint stringify (v : value) : option string :=
  match v with
  | VUndef => None
  | VNull => Some "null"
  | VBool b => Some (if b then "true" else "false")
  | VNum n => Some (num_to_string n)
  | VStr s => Some (json_quote s)
  | VArr l =>
      Some ("[" ++ join "," (map (fun e => default "null" (stringify e)) l) ++ "]")
  | VObj o =>
      Some ("{" ++ join "," (omap (fun kv => match stringify (snd kv) with
                                            | Some t => Some (json_quote (fst kv) ++ ":" ++ t)
                                            | None => None
                                            end) o) ++ "}")
  end.

(** *** Regular expressions

    The three patterns of index.js, each as the backtracking matcher
    the pattern denotes: leftmost start, greedy quantifiers, the [i]
    flag as equality of letters up to ASCII case. *)

Definition lower (c : ascii) : ascii :=
  let n := nat_of_ascii c in
  if ((65 <=? n) && (n <=? 90))%nat then ascii_of_nat (n + 32) else c.

(** A literal given in lower case, matched under the [i] flag; the
    rest of the input after it. *)
Fixpoint skip_ci (lit s : string) : option string :=
  match lit, s with
  | "", _ => Some s
  | String a lit', String b s' => if Ascii.eqb a (lower b) then skip_ci lit' s' else None
  | String _ _, "" => None
  end.

(** [[ok]*] followed by [k]: the longest run first, then shorter ones. *)
Fixpoint star {A} (ok : ascii → bool) (k : string → option A) (s : string) : option A :=
  match s with
  | String c r =>
      if ok c then
        match star ok k r with
        | Some x => Some x
        | None => k s
        end
      else k s
  | "" => k s
  end.

(** [[ok]+] followed by [k] *)
Definition plus {A} (ok : ascii → bool) (k : string → option A) (s : string) : option A :=
  match s with
  | String c r => if ok c then star ok k r else None
  | "" => None
  end.

(** The first start position, from the left, at which [m] matches. *)
Fixpoint search {A} (m : string → option A) (s : string) : option A :=
  match m s with
  | Some x => Some x
  | None =>
      match s with
      | String _ r => search m r
      | "" => None
      end
  end.

Definition is_quote (c : ascii) : bool :=
  Ascii.eqb c dquote || Ascii.eqb c "'"%char.

Definition is_gt (c : ascii) : bool := Ascii.eqb c ">"%char.

(** [src=[\x22']([^\x22']+)[\x22']] (the code unit 0x22 is the double
    quote), answering group 1 *)
Definition img_src (s : string) : option string :=
  match skip_ci "src=" s with
  | Some (String q r1) =>
      if is_quote q then
        plus (fun c => negb (is_quote c))
             (fun r2 => match r2 with
                        | String q2 _ =>
                            if is_quote q2
                            then Some (str_take (String.length r1 - String.length r2) r1)
                            else None
                        | "" => None
                        end) r1
      else None
  | _ => None
  end.

Definition img_at (s : string) : option string :=
  match skip_ci "<img" s with
  | Some r => plus (fun c => negb (is_gt c)) img_src r
  | None => None
  end.

(** [html.match(/<img[^>]+src=[\x22']([^\x22']+)[\x22']/i)]: group 1 of
    the match, if there is one. *)
Definition match_img (html : string) : option string := search img_at html.

Definition url_char (c : ascii) : bool := negb (is_space c || is_quote c).

(** [\.(mp4|webm)]: group 2 as the input spells it, and the rest *)
Definition video_ext (s : string) : option (string * string) :=
  match s with
  | String "."%char r =>
      match skip_ci "mp4" r with
      | Some rest => Some (str_take 3 r, rest)
      | None =>
          match skip_ci "webm" r with
          | Some rest => Some (str_take 4 r, rest)
          | None => None
          end
      end
  | _ => None
  end.

Definition video_at (s : string) : option (string * string) :=
  let body (r0 : string) : option (string * string) :=
    match skip_ci "://" r0 with
    | Some r1 =>
        plus url_char
             (fun r2 => match video_ext r2 with
                        | Some (ext, rest) =>
                            Some (str_take (String.length s - String.length rest) s, ext)
                        | None => None
                        end) r1
    | None => None
    end in
  match skip_ci "http" s with
  | Some (String c r' as r) =>
      if Ascii.eqb (lower c) "s"%char then
        match body r' with
        | Some x => Some x
        | None => body r
        end
      else body r
  | _ => None
  end.

(** [text.match(/(https?:\/\/[^\s\x22']+\.(mp4|webm))/i)]: groups 1
    and 2 of the match, if there is one. *)
Definition match_video (text : string) : option (string * string) := search video_at text.

(** [<[^>]+>] at the head of [s]: the rest after the tag *)
Definition tag_at (s : string) : option string :=
  match s with
  | String "<"%char r =>
      plus (fun c => negb (is_gt c))
           (fun r2 => match r2 with
                      | String ">"%char r3 => Some r3
                      | _ => None
                      end) r
  | _ => None
  end.

Fixpoint strip_tags_from (skip : nat) (s : string) : string :=
  match s with
  | String c r =>
      match skip with
      | S k => strip_tags_from k r
      | O =>
          match tag_at s with
          | Some rest => strip_tags_from (String.length r - String.length rest) r
          | None => String c (strip_tags_from 0 r)
          end
      end
  | "" => ""
  end.

(** [s.replace(/<[^>]+>/g, empty)] *)
Definition strip_tags (s : string) : string := strip_tags_from 0 s.

End Js.

(** ** Dates

    A Date object is its time value: [Some t], milliseconds since the
    epoch, or [None], the NaN of an invalid Date. *)
Module JsDate.

Local Open Scope Z_scope.

Definition msPerDay : Z := 86400000.
Definition maxTime : Z := 8640000000000000.

Definition TimeClip (t : Z) : option Z :=
  if Z.abs t <=? maxTime then Some t else None.

(** Days since the epoch of a civil date (proleptic Gregorian). *)
Definition days_from_civil (y m d : Z) : Z :=
  let y' := if m <=? 2 then y - 1 else y in
  let era := y' / 400 in
  let yoe := y' - era * 400 in
  let mp := (m + 9) mod 12 in
  let doy := (153 * mp + 2) / 5 + d - 1 in
  let doe := yoe * 365 + yoe / 4 - yoe / 100 + doy in
  era * 146097 + doe - 719468.

Definition civil_from_days (z : Z) : Z * Z * Z :=
  let z' := z + 719468 in
  let era := z' / 146097 in
  let doe := z' - era * 146097 in
  let yoe := (doe - doe / 1460 + doe / 36524 - doe / 146096) / 365 in
  let doy := doe - (365 * yoe + yoe / 4 - yoe / 100) in
  let mp := (5 * doy + 2) / 153 in
  let d := doy - (153 * mp + 2) / 5 + 1 in
  let m := if mp <? 10 then mp + 3 else mp - 9 in
  let y := yoe + era * 400 in
  (if m <=? 2 then y + 1 else y, m, d).

Definition digit (c : ascii) : option Z :=
  let n := nat_of_ascii c in
  if ((48 <=? n) && (n <=? 57))%nat then Some (Z.of_nat (n - 48)) else None.

(** Exactly [n] decimal digits at the head of [s]. *)
Fixpoint digits_from (n : nat) (acc : Z) (s : string) : option (Z * string) :=
  match n with
  | O => Some (acc, s)
  | S n' =>
      match s with
      | String c r =>
          match digit c with
          | Some d => digits_from n' (10 * acc + d) r
          | None => None
          end
      | EmptyString => None
      end
  end.

Definition digits (n : nat) (s : string) : option (Z * string) := digits_from n 0 s.

(** [YYYY], [YYYY-MM] or [YYYY-MM-DD] *)
Definition parse_date (s : string) : option (Z * Z * Z * string) :=
  match digits 4 s with
  | Some (y, String "-"%char r1) =>
      match digits 2 r1 with
      | Some (mo, String "-"%char r2) =>
          match digits 2 r2 with
          | Some (d, r3) => Some (y, mo, d, r3)
          | None => None
          end
      | Some (mo, r2) => Some (y, mo, 1, r2)
      | None => None
      end
  | Some (y, r) => Some (y, 1, 1, r)
  | None => None
  end.

(** [HH:mm], [HH:mm:ss] or [HH:mm:ss.sss]: the milliseconds of the
    day *)
Definition parse_time (s : string) : option (Z * string) :=
  match digits 2 s with
  | Some (h, String ":"%char r1) =>
      match digits 2 r1 with
      | Some (mi, r2) =>
          let done (sec ms : Z) (r : string) :=
            if (h <=? 24) && (mi <=? 59) && (sec <=? 59)
               && ((h <? 24) || ((mi =? 0) && (sec =? 0) && (ms =? 0)))
            then Some (((h * 60 + mi) * 60 + sec) * 1000 + ms, r)
            else None in
          match r2 with
          | String ":"%char r3 =>
              match digits 2 r3 with
              | Some (sec, String "."%char r4) =>
                  match digits 3 r4 with
                  | Some (ms, r5) => done sec ms r5
                  | None => None
                  end
              | Some (sec, r4) => done sec 0 r4
              | None => None
              end
          | _ => done 0 0 r2
          end
      | None => None
      end
  | _ => None
  end.

(** The host runs in UTC: a date-time without an offset is local
    time, taken at offset zero. *)
Definition LocalTZA : Z := 0.

(** [Z], [+HH:mm], [-HH:mm] or nothing, to the end of the input: the
    offset in milliseconds *)
Definition parse_offset (s : string) : option Z :=
  let hhmm (r : string) : option Z :=
    match digits 2 r with
    | Some (h, String ":"%char r1) =>
        match digits 2 r1 with
        | Some (mi, EmptyString) =>
            if (h <=? 23) && (mi <=? 59) then Some ((h * 60 + mi) * 60000) else None
        | _ => None
        end
    | _ => None
    end in
  match s with
  | EmptyString => Some LocalTZA
  | String "Z"%char EmptyString => Some 0
  | String "+"%char r => hhmm r
  | String "-"%char r => Z.opp <$> hhmm r
  | _ => None
  end.

(** [Date.parse(s)] on the date-time string format of the language
    standard, four-digit years, a fraction of exactly three digits
    when there is one.  What an engine makes of any other string is
    its own affair (most also read RFC 822 dates and fractions of
    other lengths); here such a string is unrecognizable and parses
    to NaN.  No property below depends on which strings parse. *)
Definition Date_parse (s : string) : option Z :=
  match parse_date s with
  | Some (y, mo, d, r) =>
      if (1 <=? mo) && (mo <=? 12) && (1 <=? d) && (d <=? 31) then
        let day := days_from_civil y mo 1 + (d - 1) in
        match r with
        | EmptyString => TimeClip (day * msPerDay)
        | String "T"%char r1 =>
            match parse_time r1 with
            | Some (ms, r2) =>
                match parse_offset r2 with
                | Some off => TimeClip (day * msPerDay + ms - off)
                | None => None
                end
            | None => None
            end
        | _ => None
        end
      else None
  | None => None
  end.

(** [n] in [w] decimal digits *)
Fixpoint pad (w : nat) (n : Z) : string :=
  match w with
  | O => EmptyString
  | S w' => (pad w' (n / 10) ++ String (ascii_of_nat (48 + Z.to_nat (n mod 10))) EmptyString)%string
  end.

(** [new Date(t).toISOString()] for a valid time value *)
Definition toISOString (t : Z) : string :=
  let '(y, m, d) := civil_from_days (t / msPerDay) in
  let ms := t mod msPerDay in
  let year := if (0 <=? y) && (y <=? 9999) then pad 4 y
              else ((if (y <? 0)%Z then "-" else "+") ++ pad 6 (Z.abs y))%string in
  (year ++ "-" ++ pad 2 m ++ "-" ++ pad 2 d ++ "T"
     ++ pad 2 (ms / 3600000)%Z ++ ":" ++ pad 2 (ms / 60000 mod 60)%Z ++ ":"
     ++ pad 2 (ms / 1000 mod 60)%Z ++ "." ++ pad 3 (ms mod 1000)%Z ++ "Z")%string.

(** [new Date(v)]: a string is parsed, another primitive is converted
    to a number.  An array or an object is first made a primitive,
    through its valueOf, then its toString: of feed data that is its
    string, which is parsed, and the conversion raises TypeError
    where [Js.ToString] does. *)
Definition construct (v : value) : result (option Z) :=
  match v with
  | VStr s => Ok (Date_parse s)
  | VNum n => Ok (TimeClip n)
  | VBool b => Ok (Some (if b then 1 else 0))
  | VNull => Ok (Some 0)
  | VUndef => Ok None
  | VArr _ | VObj _ => s ← Js.ToString v; Ok (Date_parse s)
  end.

(** [a >= b] on Date objects *)
Definition ge (a b : option Z) : bool :=
  match a, b with
  | Some x, Some y => y <=? x
  | _, _ => false
  end.

End JsDate.

(** ** The outside world

    What one refresh cycle sees of a source: the outcome of
    [fetch(url)], read by [tryParseJSONFeed], and the outcome of
    [parser.parseURL(url)], a request of its own.  The clock is read
    once per cycle: [now] is what [Date.now()] and [new Date()]
    answer, a valid time value. *)

Record response : Type := {
  content_type : option string;   (* res.headers.get("content-type") *)
  res_json : option value         (* res.json(); None: the body is no JSON *)
}.

Inductive fetched : Type :=
| FetchRejects
| Fetched (res : response).

(** [feed.items] of rss-parser is an array of objects. *)
Inductive parsed : Type :=
| ParseRejects
| Parsed (items : list obj).

Record feed_source : Type := {
  url : string;
  json_fetch : fetched;
  xml_parse : parsed
}.

(** ** Source adapter: tryParseJSONFeed *)

Definition get (it : obj) (k : string) : value := Js.lookup_prop k it.

(** [a || b] and [a && b] with an operand that can raise *)
Definition orM (a : value) (b : result value) : result value :=
  if Js.truthy a then Ok a else b.
Definition andM (a : value) (b : result value) : result value :=
  if Js.truthy a then b else Ok a.

Record jsonfeed : Type := {
  jf_title : value;
  jf_items : list obj
}.

(** [it.attachments && it.attachments[0]
      ? { url: it.attachments[0].url, type: it.attachments[0].mime_type || empty }
      : undefined] *)
Definition json_enclosure (it : value) : result value :=
  att ← Js.prop it "attachments";
  a0 ← andM att (Js.first att);
  if Js.truthy a0 then
    u ← (a ← Js.first att; Js.prop a "url");
    t ← (a ← Js.first att; Js.prop a "mime_type");
    Ok (VObj [("url", u); ("type", Js.or t (VStr ""))])
  else Ok VUndef.

(** [it.author && (it.author.name || it.author.url)
      ? [{ name: it.author.name, link: it.author.url }] : []] *)
Definition json_author (it : value) : result value :=
  au ← Js.prop it "author";
  c ← andM au (n ← Js.prop au "name"; orM n (Js.prop au "url"));
  if Js.truthy c then
    n ← Js.prop au "name";
    l ← Js.prop au "url";
    Ok (VArr [VObj [("name", n); ("link", l)]])
  else Ok (VArr []).

(** The callback of [data.items.map]. *)
Definition json_item (now : Z) (url : string) (it : value) : result obj :=
  title ← Js.prop it "title";
  link ← (u ← Js.prop it "url"; orM u (Js.prop it "external_url"));
  isoDate ← (p ← Js.prop it "date_published";
             m ← orM p (Js.prop it "date_modified");
             Ok (Js.or m (VStr (JsDate.toISOString now))));
  content ← (h ← Js.prop it "content_html"; orM h (Js.prop it "content_text"));
  summary ← Js.prop it "summary";
  enclosure ← json_enclosure it;
  image ← (i ← Js.prop it "image"; orM i (Js.prop it "banner_image"));
  author ← json_author it;
  Ok [("title", Js.or title (VStr "(untitled)"));
      ("link", Js.or link (VStr ""));
      ("isoDate", isoDate);
      ("content", Js.or content (VStr ""));
      ("contentSnippet", Js.or summary (VStr ""));
      ("enclosure", enclosure);
      ("image", Js.or image VNull);
      ("author", author);
      ("_source", VStr url)].

(** [ct.includes("application/json") || ct.includes("text/json")] *)
Definition indicates_json (ct : string) : bool :=
  Js.str_includes "application/json" ct || Js.str_includes "text/json" ct.

(** The body of the [try] block. *)
Definition tryParseJSONFeed_try (now : Z) (url : string) (f : fetched)
  : result (option jsonfeed) :=
  res ← match f with
        | Fetched res => Ok res
        | FetchRejects => Throw (TypeError "fetch failed")
        end;
  let ct := default "" (content_type res) in
  if negb (indicates_json ct) then Ok None else
  data ← match res_json res with
         | Some data => Ok data
         | None => Throw (SyntaxError "unexpected token")
         end;
  if negb (Js.truthy data) then Ok None else
  items ← Js.prop data "items";
  match items with
  | VArr l =>
      items' ← mapM (json_item now url) l;
      title ← Js.prop data "title";
      Ok (Some {| jf_title := Js.or title (VStr url); jf_items := items' |})
  | _ => Ok None
  end.

Definition tryParseJSONFeed (now : Z) (url : string) (f : fetched) : option jsonfeed :=
  match try_catch (tryParseJSONFeed_try now url f) (fun _ => Ok None) with
  | Ok r => r
  | Throw _ => None
  end.

(** ** Media extractor *)

(** [item.enclosure && item.enclosure.url &&
    (item.enclosure.type || empty).startsWith(prefix)] *)
Definition enclosure_is (prefix : string) (item : obj) : result bool :=
  let enclosure := get item "enclosure" in
  if Js.truthy enclosure then
    u ← Js.prop enclosure "url";
    if Js.truthy u then
      t ← Js.prop enclosure "type";
      Js.startsWith (Js.or t (VStr "")) prefix
    else Ok false
  else Ok false.

(** [m && m[0] && m[0]["$"] && m[0]["$"].url] *)
Definition media_url (m : value) : result value :=
  andM m (m0 ← Js.first m;
          andM m0 (a ← Js.prop m0 "$";
                   andM a (Js.prop a "url"))).

(** [html.match(re)] on a value that ought to be a string *)
Definition match_on {A} (re : string → option A) (html : value) : result (option A) :=
  match html with
  | VStr s => Ok (re s)
  | VUndef | VNull => Throw (TypeError "cannot read properties of undefined or null")
  | _ => Throw (Js.not_a_function "match")
  end.

Definition pickImage (item : obj) : result value :=
  (* 1) enclosure as image *)
  b ← enclosure_is "image/" item;
  if b : bool then Js.prop (get item "enclosure") "url" else
  (* 2) media:* tags *)
  firstMedia ← (c ← media_url (get item "mediaContent");
                orM c (media_url (get item "mediaThumbnail")));
  if Js.truthy firstMedia then Ok firstMedia else
  (* 3) content:encoded or content HTML <img> *)
  let html := Js.or (get item "contentEncoded")
                (Js.or (get item "content:encoded")
                   (Js.or (get item "content") (VStr ""))) in
  m ← match_on Js.match_img html;
  match m with
  | Some src => Ok (VStr src)
  | None =>
      (* 4) json feed fields mapped above *)
      if Js.truthy (get item "image") then Ok (get item "image") else Ok VNull
  end.

Record media : Type := {
  m_url : value;
  m_type : value
}.

Definition pickVideo (item : obj) : result (option media) :=
  (* Prioritize RSS enclosure with video mime types *)
  b ← enclosure_is "video/" item;
  if b : bool then
    u ← Js.prop (get item "enclosure") "url";
    t ← Js.prop (get item "enclosure") "type";
    Ok (Some {| m_url := u; m_type := t |})
  else
  (* media:group may hide video content *)
  let scan :=
    match get item "mediaGroup" with
    | VArr _ as g => Js.match_video (default "" (Js.stringify g))
    | _ => None
    end in
  match scan with
  | Some (u, ext) => Ok (Some {| m_url := VStr u; m_type := VStr ("video/" ++ ext) |})
  | None =>
      (* YouTube feed items: give link *)
      let link := get item "link" in
      y ← (if Js.truthy link then Js.includes link "youtube.com/watch" else Ok false);
      if y : bool then Ok (Some {| m_url := link; m_type := VStr "text/html" |}) else
      (* Content HTML with direct video links *)
      let html := Js.or (get item "contentEncoded") (Js.or (get item "content") (VStr "")) in
      mv ← match_on Js.match_video html;
      match mv with
      | Some (u, ext) => Ok (Some {| m_url := VStr u; m_type := VStr ("video/" ++ ext) |})
      | None => Ok None
      end
  end.

(** ** Normalizer and merge engine: refresh *)

Record Item : Type := {
  title : value;
  link : value;
  date : option Z;
  description : value;
  authorName : value;
  imageUrl : value;
  video : option media;
  enclosure : value;
  source : value
}.

Record Cache : Type := {
  items : list Item;
  lastBuild : Z
}.

(** [it._source = src] *)
Definition tag (src : string) (it : obj) : obj := Js.set_prop "_source" (VStr src) it.

(** One turn of the loop over SOURCES: what the source adds to
    [collected]. *)
Definition collect_source (now : Z) (s : feed_source) : list obj :=
  match tryParseJSONFeed now (url s) (json_fetch s) with
  | Some jf => map (tag (url s)) (jf_items jf)
  | None =>
      match xml_parse s with
      | Parsed its => map (tag (url s)) its
      | ParseRejects => []
      end
  end.

Definition collect (now : Z) (SOURCES : list feed_source) : list obj :=
  fold_left (fun collected s => (collected ++ collect_source now s)%list) SOURCES [].

(** [it.creator || (it.author && it.author[0] && it.author[0].name)] *)
Definition creator_or_author (it : obj) : result value :=
  orM (get it "creator")
    (andM (get it "author")
       (a0 ← Js.first (get it "author"); andM a0 (Js.prop a0 "name"))).

(** The callback of [collected.map]. *)
Definition normalize (now : Z) (it : obj) : result Item :=
  date ← JsDate.construct
           (Js.or (get it "isoDate") (Js.or (get it "pubDate") (VNum now)));
  let link := Js.or (get it "link") (Js.or (get it "guid") (VStr "")) in
  author ← creator_or_author it;
  imageUrl ← pickImage it;
  video ← pickVideo it;
  u ← andM (get it "enclosure") (Js.prop (get it "enclosure") "url");
  Ok {| title := Js.or (get it "title") (VStr "(untitled)");
        link := link;
        date := date;
        description := Js.or (get it "contentEncoded")
                         (Js.or (get it "content")
                            (Js.or (get it "contentSnippet") (VStr "")));
        authorName := Js.or author (VStr "");
        imageUrl := imageUrl;
        video := video;
        enclosure := if Js.truthy u then get it "enclosure" else VNull;
        source := get it "_source" |}.

(** The loop that fills [deduped], from the state it has reached. *)
Fixpoint dedupe_loop (seen : gset string) (deduped normalized : list Item)
  : result (list Item) :=
  match normalized with
  | [] => Ok deduped
  | it :: rest =>
      key ← Js.trim (link it);
      if (key =? "") || bool_decide (key ∈ seen)
      then dedupe_loop seen deduped rest
      else dedupe_loop ({[key]} ∪ seen) (deduped ++ [it])%list rest
  end.

Definition dedupe (normalized : list Item) : result (list Item) :=
  dedupe_loop ∅ [] normalized.

(** [(a, b) => b.date - a.date]; [None] is NaN. *)
Definition by_date (a b : Item) : option Z :=
  match date b, date a with
  | Some tb, Some ta => Some (tb - ta)%Z
  | _, _ => None
  end.

(** [Array.prototype.sort]: the stable sort by a comparator whose NaN
    counts as zero.  With a consistent comparator the language standard
    fixes the result, and this insertion sort computes it; otherwise
    the standard leaves the order to the engine and fixes only that the
    result is a permutation. *)
Definition goes_before (cmp : Item → Item → option Z) (x y : Item) : bool :=
  match cmp x y with
  | Some v => (v <=? 0)%Z
  | None => true
  end.

Fixpoint insert (cmp : Item → Item → option Z) (x : Item) (l : list Item) : list Item :=
  match l with
  | [] => [x]
  | y :: r => if goes_before cmp x y then x :: l else y :: insert cmp x r
  end.

Definition sort (cmp : Item → Item → option Z) (l : list Item) : list Item :=
  fold_right (insert cmp) [] l.

(** The body of [refresh] up to the assignment to CACHE. *)
Definition rebuild (now : Z) (SOURCES : list feed_source) : result (list Item) :=
  let collected := collect now SOURCES in
  mapped ← mapM (normalize now) collected;
  let normalized := List.filter (fun it => Js.truthy (link it)) mapped in
  deduped ← dedupe normalized;
  Ok (sort by_date deduped).

(** [refresh()] as a step on the global CACHE: a raise leaves it as it
    was. *)
Definition refresh (now : Z) (SOURCES : list feed_source) (CACHE : Cache)
  : result unit * Cache :=
  match rebuild now SOURCES with
  | Ok deduped => (Ok (), {| items := deduped; lastBuild := now |})
  | Throw e => (Throw e, CACHE)
  end.

(** The caches the process can hold: the one it boots with, and the one
    each refresh leaves. *)
Inductive reachable : Cache → Prop :=
| reach_boot (boot : Z) : reachable {| items := []; lastBuild := boot |}
| reach_refresh (now : Z) (SOURCES : list feed_source) (CACHE : Cache) :
    reachable CACHE → reachable (snd (refresh now SOURCES CACHE)).

(** ** Feed renderer: buildFeeds *)

(** What [feed.addItem] receives. *)
Record entry : Type := {
  e_id : value;
  e_title : value;
  e_link : value;
  e_date : option Z;
  e_description : value;
  e_content : string;
  e_author : option value;        (* the name of the one author, or undefined *)
  e_enclosure : option media
}.

Record Feed : Type := {
  f_id : string;
  f_title : string;
  f_link : string;
  f_updated : Z;
  f_entries : list entry
}.

(** The feed package is not part of the repository.  Its constructor
    and addItem store what they are given: that is the [Feed].  Its
    three serializers are taken as they come, each a function of the
    Feed that returns the text of a document or raises. *)
Record feed_package : Type := {
  rss2 : Feed → result string;
  atom1 : Feed → result string;
  json1 : Feed → result string
}.

Inductive format : Type := RSS2 | Atom1 | JSON1.

(** A document: the text a serializer returned, with the format and
    the Feed it is the serialization of. *)
Record document : Type := {
  doc_format : format;
  doc_feed : Feed;
  doc_text : string
}.

Definition serialize (pkg : feed_package) (fmt : format) (fd : Feed) : result document :=
  text ← match fmt with
         | RSS2 => rss2 pkg fd
         | Atom1 => atom1 pkg fd
         | JSON1 => json1 pkg fd
         end;
  Ok {| doc_format := fmt; doc_feed := fd; doc_text := text |}.

Record feeds : Type := {
  rss : document;
  atom : document;
  json : document
}.

Definition siteUrl : string := "https://example.com".
Definition dq : string := String Js.dquote "".
Definition nl : string := String (ascii_of_nat 10) "".

(** The content blocks of one item, in the order they are pushed.
    Each template literal converts what it interpolates to a string,
    which can raise; the description is pushed as it is. *)
Definition contentBlocks (item : Item) : result (list value) :=
  image ← (if Js.truthy (imageUrl item)
           then src ← Js.ToString (imageUrl item);
                Ok [VStr ("<p><img src=" ++ dq ++ src ++ dq
                            ++ " alt=" ++ dq ++ dq ++ " /></p>")]
           else Ok []);
  video ← match video item with
          | Some v =>
              direct ← Js.startsWith (m_type v) "video/";
              src ← Js.ToString (m_url v);
              Ok [VStr (if direct : bool
                        then "<p><video controls src=" ++ dq ++ src ++ dq
                               ++ " style=" ++ dq ++ "max-width:100%" ++ dq ++ "></video></p>"
                        else "<p><a href=" ++ dq ++ src ++ dq ++ ">Watch video</a></p>")]
          | None => Ok []
          end;
  let original := if Js.truthy (description item) then [description item] else [] in
  src ← Js.ToString (source item);
  let attribution := VStr ("<p><small>Source: " ++ src ++ "</small></p>") in
  Ok (image ++ video ++ original ++ [attribution])%list.

(** [item.description?.replace(/<[^>]+>/g, empty).slice(0, 280)] *)
Definition summary (d : value) : result value :=
  match d with
  | VUndef | VNull => Ok VUndef
  | VStr s => Ok (VStr (Js.str_take 280 (Js.strip_tags s)))
  | _ => Throw (Js.not_a_function "replace")
  end.

(** Primary enclosure: prefer video, else original enclosure, else
    image. *)
Definition primary_enclosure (item : Item) : result (option media) :=
  match video item with
  | Some v => Ok (Some {| m_url := m_url v; m_type := m_type v |})
  | None =>
      if Js.truthy (enclosure item) then
        u ← Js.prop (enclosure item) "url";
        t ← Js.prop (enclosure item) "type";
        Ok (Some {| m_url := u; m_type := Js.or t (VStr "") |})
      else if Js.truthy (imageUrl item) then
        Ok (Some {| m_url := imageUrl item; m_type := VStr "image/jpeg" |})
      else Ok None
  end.

(** One turn of the loop over CACHE.items: the argument of
    [feed.addItem]. *)
Definition render_item (item : Item) : result entry :=
  blocks ← contentBlocks item;
  d ← summary (description item);
  content ← Js.join_values nl blocks;
  e ← primary_enclosure item;
  Ok {| e_id := link item;
        e_title := title item;
        e_link := link item;
        e_date := date item;
        e_description := d;
        e_content := content;
        e_author := if Js.truthy (authorName item) then Some (authorName item) else None;
        e_enclosure := e |}.

(** The [feed] of buildFeeds when its loop is over: the Feed made of
    CACHE.lastBuild, with an entry added for each item of CACHE.items. *)
Definition feed (CACHE : Cache) : result Feed :=
  entries ← mapM render_item (items CACHE);
  Ok {| f_id := siteUrl ++ "/";
        f_title := "Multi-Source Feed";
        f_link := siteUrl ++ "/";
        f_updated := lastBuild CACHE;
        f_entries := entries |}.

(** buildFeeds: the loop, then the three serializers in the order the
    returned object calls them; nothing they raise is caught. *)
Definition buildFeeds (pkg : feed_package) (CACHE : Cache) : result feeds :=
  fd ← feed CACHE;
  rss ← serialize pkg RSS2 fd;
  atom ← serialize pkg Atom1 fd;
  json ← serialize pkg JSON1 fd;
  Ok {| rss := rss; atom := atom; json := json |}.

(** ** The properties, as predicates *)

(** The canonical key of a cached item: its link, trimmed. *)
Definition link_key (it : Item) : string :=
  match link it with
  | VStr s => Js.str_trim s
  | _ => ""
  end.

Definition has_link (it : Item) : Prop :=
  ∃ s, link it = VStr s ∧ s ≠ "" ∧ Js.str_trim s ≠ "".

(** Every item has a non-empty link and no two share a trimmed link. *)
Definition links_unique (l : list Item) : Prop :=
  Forall has_link l ∧ NoDup (link_key <$> l).

(** Every adjacent pair [a, b] has [a.date >= b.date]. *)
Definition date_descending (l : list Item) : Prop :=
  ∀ i a b, l !! i = Some a → l !! S i = Some b → JsDate.ge (date a) (date b) = true.

Definition newer_first (a b : Item) : Prop := JsDate.ge (date a) (date b) = true.

Definition valid_date (it : Item) : Prop := is_Some (date it).

Definition string_link (it : Item) : Prop := ∃ s, link it = VStr s.

(** Strict first-seen, in the words of the specification: the item at
    position [i] is kept exactly when no item at an earlier position
    bears its key. *)
Definition unseen_before (l : list Item) (i : nat) (it : Item) : Prop :=
  link_key it ∉ link_key <$> take i l.

Definition first_seen_only (l : list Item) : list Item :=
  omap id (imap (fun i it => if bool_decide (unseen_before l i it) then Some it else None) l).

(** The same, for the items that bear a key at all: a link that is
    blank once trimmed is no key. *)
Definition keep (l : list Item) (i : nat) (it : Item) : option Item :=
  if bool_decide (link_key it ≠ "" ∧ unseen_before l i it) then Some it else None.

Definition first_keyed_only (l : list Item) : list Item := omap id (imap (keep l) l).

(** A source that fails at both stages. *)
Definition fails (now : Z) (s : feed_source) : Prop :=
  tryParseJSONFeed now (url s) (json_fetch s) = None ∧ xml_parse s = ParseRejects.

(** A field that holds text when it holds anything. *)
Definition textual (v : value) : Prop :=
  match v with
  | VStr _ | VUndef | VNull => True
  | _ => False
  end.

(** A raw item whose text fields hold text: its link and guid, its
    date fields, its content fields, and the media type of its
    enclosure. *)
Record well_typed (it : obj) : Prop := {
  wt_link : textual (get it "link");
  wt_guid : textual (get it "guid");
  wt_isoDate : textual (get it "isoDate");
  wt_pubDate : textual (get it "pubDate");
  wt_contentEncoded : textual (get it "contentEncoded");
  wt_content_encoded : textual (get it "content:encoded");
  wt_content : textual (get it "content");
  wt_enclosure :
    match get it "enclosure" with
    | VObj e => textual (Js.lookup_prop "type" e)
    | _ => True
    end
}.

(** The response declares a JSON media type and its body has a
    top-level items array. *)
Definition json_with_items (f : fetched) (l : list value) : Prop :=
  ∃ res data,
    f = Fetched res
    ∧ indicates_json (default "" (content_type res)) = true
    ∧ res_json res = Some data
    ∧ Js.prop data "items" = Ok (VArr l).

Definition is_object_like (v : value) : Prop := v ≠ VNull ∧ v ≠ VUndef.

(** The response declares the content type [ct] and its body has a
    top-level items array. *)
Definition declared_with_items (f : fetched) (ct : string) (l : list value) : Prop :=
  ∃ res data,
    f = Fetched res
    ∧ content_type res = Some ct
    ∧ res_json res = Some data
    ∧ Js.prop data "items" = Ok (VArr l).

(** The HTML that pickImage scans. *)
Definition html_of (item : obj) : value :=
  Js.or (get item "contentEncoded")
    (Js.or (get item "content:encoded") (Js.or (get item "content") (VStr ""))).

(** The raw item has an enclosure [e] whose media type begins with
    [prefix]. *)
Definition enclosure_typed (prefix : string) (item : obj) (e : obj) : Prop :=
  get item "enclosure" = VObj e
  ∧ ∃ t, Js.lookup_prop "type" e = VStr t ∧ String.prefix prefix t = true.

Definition has_img_tag (item : obj) : Prop :=
  ∃ src, match_on Js.match_img (html_of item) = Ok (Some src).

Definition watch_link (item : obj) : Prop :=
  ∃ l, get item "link" = VStr l ∧ Js.str_includes "youtube.com/watch" l = true.

(** A media type the renderer can dispatch on: a non-empty string
    that begins with video/ or is text/html, on which the test for
    the prefix video/ does not raise. *)
Definition renderable (m : media) : Prop :=
  ∃ t, m_type m = VStr t
       ∧ t ≠ ""
       ∧ (String.prefix "video/" t = true ∨ t = "text/html")
       ∧ ∃ direct, Js.startsWith (m_type m) "video/" = Ok direct.

(** An Item as the data model of the specification types it. *)
Definition is_string (v : value) : Prop := ∃ s, v = VStr s.
Definition string_or_null (v : value) : Prop := v = VNull ∨ is_string v.
Definition media_reference (m : media) : Prop := is_string (m_url m) ∧ is_string (m_type m).

Record well_formed (it : Item) : Prop := {
  wf_title : is_string (title it);
  wf_link : has_link it;
  wf_date : valid_date it;
  wf_description : is_string (description it);
  wf_authorName : is_string (authorName it);
  wf_imageUrl : string_or_null (imageUrl it);
  wf_video : from_option media_reference True (video it);
  wf_enclosure :
    enclosure it = VNull
    ∨ ∃ e, enclosure it = VObj e
           ∧ is_string (Js.lookup_prop "url" e) ∧ textual (Js.lookup_prop "type" e);
  wf_source : is_string (source it)
}.

(** The fields of a cached item that identify it in a document. *)
Definition entry_of (e : entry) : value * value * value * option Z :=
  (e_id e, e_title e, e_link e, e_date e).
Definition shown_as (it : Item) : value * value * value * option Z :=
  (link it, title it, link it, date it).

(** An Item with no media at all, and the content of its entry: the
    description, when it is not empty, and the attribution line. *)
Definition no_media (it : Item) : Prop :=
  imageUrl it = VNull ∧ video it = None ∧ enclosure it = VNull.

Definition plain_content (it : Item) : string :=
  match description it with
  | VStr "" => "<p><small>Source: " +:+ Js.text (source it) +:+ "</small></p>"
  | VStr d => d +:+ nl +:+ "<p><small>Source: " +:+ Js.text (source it) +:+ "</small></p>"
  | _ => "<p><small>Source: " +:+ Js.text (source it) +:+ "</small></p>"
  end.

(** The entry includes the item: it identifies it, it has no author
    when the item names none, and for an item without media it has
    no enclosure and no media block. *)
Definition includes_item (it : Item) (e : entry) : Prop :=
  entry_of e = shown_as it
  ∧ (authorName it = VStr "" → e_author e = None)
  ∧ (no_media it → e_enclosure e = None ∧ e_content e = plain_content it).

(** The three documents are the serializations, each in its format,
    of the one Feed [fd]. *)
Definition documents_of (pkg : feed_package) (fd : Feed) (f : feeds) : Prop :=
  (doc_format (rss f) = RSS2 ∧ doc_feed (rss f) = fd ∧ rss2 pkg fd = Ok (doc_text (rss f)))
  ∧ (doc_format (atom f) = Atom1 ∧ doc_feed (atom f) = fd
     ∧ atom1 pkg fd = Ok (doc_text (atom f)))
  ∧ (doc_format (json f) = JSON1 ∧ doc_feed (json f) = fd
     ∧ json1 pkg fd = Ok (doc_text (json f))).

(** The three serializers return on [fd]. *)
Definition serializable (pkg : feed_package) (fd : Feed) : Prop :=
  (∃ r, rss2 pkg fd = Ok r) ∧ (∃ a, atom1 pkg fd = Ok a) ∧ (∃ j, json1 pkg fd = Ok j).

(** ** Sample feeds *)

Module Sample.

Definition clock : Z := 1704153600000.

Definition rss_item : obj :=
  [("title", VStr "First"); ("link", VStr "a"); ("isoDate", VStr "2024-01-01");
   ("content", VStr "<p>hi <img src='http://i/x.png'></p>")].

(** The first source of the end-to-end scenario: an RSS feed. *)
Definition rss_source : feed_source :=
  {| url := "https://one.example/rss";
     json_fetch := Fetched {| content_type := Some "application/rss+xml"; res_json := None |};
     xml_parse := Parsed [rss_item] |}.

Definition json_entries : list value :=
  [VObj [("url", VStr "a"); ("date_published", VStr "2024-01-02")];
   VObj [("url", VStr "b"); ("date_published", VStr "2023-12-01")]].

(** Its second source: a JSON Feed. *)
Definition json_source : feed_source :=
  {| url := "https://two.example/feed.json";
     json_fetch :=
       Fetched {| content_type := Some "application/json; charset=utf-8";
                  res_json := Some (VObj [("title", VStr "Two");
                                      ("items", VArr json_entries)]) |};
     xml_parse := ParseRejects |}.

Definition dead_source : feed_source :=
  {| url := "https://gone.example/feed"; json_fetch := FetchRejects; xml_parse := ParseRejects |}.

Definition boot : Cache := {| items := []; lastBuild := 0 |}.

(** A JSON Feed whose item has a number where its url belongs. *)
Definition numeric_url_source : feed_source :=
  {| url := "https://odd.example/feed.json";
     json_fetch :=
       Fetched {| content_type := Some "application/json";
                  res_json := Some (VObj [("items", VArr [VObj [("url", VNum 5)]])]) |};
     xml_parse := ParseRejects |}.

(** A response that declares JSON and has an items array holding
    null, next to an XML parse that succeeds. *)
Definition null_item_response : fetched :=
  Fetched {| content_type := Some "application/json";
             res_json := Some (VObj [("items", VArr [VNull])]) |}.

Definition null_item_source : feed_source :=
  {| url := "https://null.example/feed";
     json_fetch := null_item_response;
     xml_parse := Parsed [rss_item] |}.

Definition undated : obj := [("title", VStr "No date"); ("link", VStr "n")].
Definition misdated : obj :=
  [("title", VStr "Bad date"); ("link", VStr "m"); ("isoDate", VStr "not a date")].

Definition misdated_source : feed_source :=
  {| url := "https://three.example/rss";
     json_fetch := FetchRejects;
     xml_parse := Parsed [misdated; rss_item] |}.

Definition plain (l : string) : Item :=
  {| title := VStr "t"; link := VStr l; date := Some 0%Z; description := VStr "";
     authorName := VStr ""; imageUrl := VNull; video := None; enclosure := VNull;
     source := VStr "s" |}.

(** A raw item with an image enclosure and an img tag in its
    content; the same with the URL of the enclosure left empty. *)
Definition pictured (enclosure_url : string) : obj :=
  [("link", VStr "p");
   ("enclosure", VObj [("url", VStr enclosure_url); ("type", VStr "image/png")]);
   ("content", VStr "<p><img src='http://i/scraped.png'></p>")].

(** A raw item with a video enclosure and a watch-page link. *)
Definition filmed (enclosure_url : string) : obj :=
  [("link", VStr "https://www.youtube.com/watch?v=1");
   ("enclosure", VObj [("url", VStr enclosure_url); ("type", VStr "video/mp4")])].

(** An Item with every optional field null. *)
Definition bare : Item := plain "a".

(** A response that declares the media type of JSON Feed, the one the
    feed route of index.js itself declares, next to an XML parse that
    succeeds. *)
Definition feed_json_response : fetched :=
  Fetched {| content_type := Some "application/feed+json";
             res_json := Some (VObj [("title", VStr "Two"); ("items", VArr json_entries)]) |}.

Definition feed_json_source : feed_source :=
  {| url := "https://four.example/feed.json";
     json_fetch := feed_json_response;
     xml_parse := Parsed [rss_item] |}.

(** A JSON Feed whose item has an object where its date belongs, one
    with a toString property that is no function. *)
Definition object_date_source : feed_source :=
  {| url := "https://five.example/feed.json";
     json_fetch :=
       Fetched {| content_type := Some "application/json";
                  res_json :=
                    Some (VObj [("items",
                                 VArr [VObj [("url", VStr "d");
                                             ("date_published",
                                              VObj [("toString", VNum 1)])]])]) |};
     xml_parse := ParseRejects |}.

(** One behaviour the serializers can have: each returns a text for
    every Feed. *)
Definition lenient_package : feed_package :=
  {| rss2 := fun _ => Ok "<rss/>";
     atom1 := fun _ => Ok "<feed/>";
     json1 := fun _ => Ok "{}" |}.

(** Another: the Atom serializer raises, the other two return. *)
Definition no_atom_package : feed_package :=
  {| rss2 := fun _ => Ok "<rss/>";
     atom1 := fun _ => Throw (TypeError "Invalid URL");
     json1 := fun _ => Ok "{}" |}.

(** Another: each reads the address of an enclosure as an absolute
    URL, and raises TypeError on an address that is relative. *)
Definition absolute (v : value) : bool :=
  match v with
  | VStr s => Js.str_includes "://" s
  | _ => false
  end.

Definition parses_enclosures (fd : Feed) (text : string) : result string :=
  if forallb (fun e => match e_enclosure e with
                       | Some m => absolute (m_url m)
                       | None => true
                       end) (f_entries fd)
  then Ok text
  else Throw (TypeError "Invalid URL").

Definition strict_package : feed_package :=
  {| rss2 := fun fd => parses_enclosures fd "<rss/>";
     atom1 := fun fd => parses_enclosures fd "<feed/>";
     json1 := fun fd => parses_enclosures fd "{}" |}.

(** A well-formed Item with every optional field null and absolute
    addresses. *)
Definition no_media_item : Item :=
  {| title := VStr "t"; link := VStr "https://one.example/a"; date := Some 0%Z;
     description := VStr ""; authorName := VStr ""; imageUrl := VNull;
     video := None; enclosure := VNull; source := VStr "https://one.example/rss" |}.

(** A well-formed Cache of one Item whose image has a relative
    address. *)
Definition relative_image : Item :=
  {| title := VStr "t"; link := VStr "https://one.example/a"; date := Some 0%Z;
     description := VStr ""; authorName := VStr ""; imageUrl := VStr "/img/x.png";
     video := None; enclosure := VNull; source := VStr "https://one.example/rss" |}.

Definition relative_cache : Cache := {| items := [relative_image]; lastBuild := clock |}.

End Sample.

(** ** HTTP routes *)

(** What a handler sends: the media type it passes to res.type and the
    body.  The body of a feed route is the document buildFeeds made. *)
Inductive payload : Type :=
| Text (s : string)
| Document (d : document).

Record reply : Type := {
  reply_type : string;
  reply_body : payload
}.

Definition count (CACHE : Cache) : Z := Z.of_nat (length (items CACHE)).

(** The template literal of the status route. *)
Definition status_text (CACHE : Cache) : string :=
  "Multi-Source Feed" ++ nl
  ++ "    - RSS:  /rss.xml" ++ nl
  ++ "    - Atom: /atom.xml" ++ nl
  ++ "    - JSON: /feed.json" ++ nl
  ++ "    Last build: " ++ JsDate.toISOString (lastBuild CACHE) ++ nl
  ++ "    Items: " ++ Js.num_to_string (count CACHE) ++ nl
  ++ "    ".

(** [{ ok: true, lastBuild: CACHE.lastBuild, count: CACHE.items.length }],
    the Date as its toJSON writes it. *)
Definition health (CACHE : Cache) : obj :=
  [("ok", VBool true);
   ("lastBuild", VStr (JsDate.toISOString (lastBuild CACHE)));
   ("count", VNum (count CACHE))].

(** The handlers, in the order app.get registers them. *)
Definition routes (pkg : feed_package) : list (string * (Cache → result reply)) :=
  [("/", fun CACHE =>
           Ok {| reply_type := "text/plain"; reply_body := Text (status_text CACHE) |});
   ("/rss.xml", fun CACHE =>
                  f ← buildFeeds pkg CACHE;
                  Ok {| reply_type := "application/rss+xml"; reply_body := Document (rss f) |});
   ("/atom.xml", fun CACHE =>
                   f ← buildFeeds pkg CACHE;
                   Ok {| reply_type := "application/atom+xml";
                         reply_body := Document (atom f) |});
   ("/feed.json", fun CACHE =>
                    f ← buildFeeds pkg CACHE;
                    Ok {| reply_type := "application/feed+json";
                          reply_body := Document (json f) |});
   ("/health", fun CACHE =>
                 Ok {| reply_type := "application/json";
                       reply_body := Text (default "" (Js.stringify (VObj (health CACHE)))) |})].

(** A GET request: the first handler registered for the path, run on
    the current CACHE; [None] when no handler is. *)
Definition serve (pkg : feed_package) (path : string) (CACHE : Cache)
  : option (result reply) :=
  match List.find (fun r => fst r =? path) (routes pkg) with
  | Some r => Some (snd r CACHE)
  | None => None
  end.

(** The feed routes and the format each serves. *)
Definition feed_routes : list (string * string * format) :=
  [("/rss.xml", "application/rss+xml", RSS2);
   ("/atom.xml", "application/atom+xml", Atom1);
   ("/feed.json", "application/feed+json", JSON1)].

(** ** What the extractors can return, as predicates *)

Fixpoint str_forall (p : ascii → bool) (s : string) : bool :=
  match s with
  | String c r => p c && str_forall p r
  | "" => true
  end.

Definition not_quote (c : ascii) : bool := negb (Js.is_quote c).

(** [inner] stands in [whole] between a quote and a quote. *)
Definition quoted_in (inner whole : string) : Prop :=
  ∃ pre q1 q2 post,
    whole = pre +:+ String q1 (inner +:+ String q2 post)
    ∧ Js.is_quote q1 = true ∧ Js.is_quote q2 = true.

Definition occurs_in (inner whole : string) : Prop :=
  ∃ pre post, whole = pre +:+ inner +:+ post.

(** The extension is mp4 or webm, in any mix of cases. *)
Definition video_extension (ext : string) : Prop :=
  Js.skip_ci "mp4" ext = Some "" ∨ Js.skip_ci "webm" ext = Some "".

(** A direct link to a video file, as the scans find it: it starts
    with http, in any case, ends with a dot and the extension, and
    holds no white space and no quote. *)
Record video_link (u ext : string) : Prop := {
  vl_scheme : ∃ r, Js.skip_ci "http" u = Some r;
  vl_ends : ∃ stem, u = stem +:+ String "."%char ext;
  vl_extension : video_extension ext;
  vl_chars : str_forall Js.url_char u = true
}.

Definition null_or_truthy (v : value) : Prop := v = VNull ∨ Js.truthy v = true.

(** The texts pickVideo scans for a direct link: the JSON text of
    mediaGroup, when that is an array, and the content. *)
Definition scanned (item : obj) (text : string) : Prop :=
  (∃ g, get item "mediaGroup" = VArr g ∧ Js.stringify (VArr g) = Some text)
  ∨ Js.or (get item "contentEncoded") (Js.or (get item "content") (VStr "")) = VStr text.

(** The three kinds of answer of pickVideo. *)
Inductive video_answer (item : obj) (m : media) : Prop :=
| from_enclosure (e : obj) :
    get item "enclosure" = VObj e →
    m_url m = Js.lookup_prop "url" e → Js.truthy (m_url m) = true →
    m_type m = Js.lookup_prop "type" e →
    (∃ t, m_type m = VStr t ∧ String.prefix "video/" t = true) →
    video_answer item m
| from_scan (text u ext : string) :
    scanned item text → Js.match_video text = Some (u, ext) → occurs_in u text →
    m_url m = VStr u → m_type m = VStr ("video/" +:+ ext) → video_link u ext →
    video_answer item m
| from_link :
    m_url m = get item "link" → Js.truthy (m_url m) = true → m_type m = VStr "text/html" →
    video_answer item m.

(** ** What the Cache holds, as predicates *)

(** The shape of an Item that refresh has built. *)
Record shaped (it : Item) : Prop := {
  sh_link : has_link it;
  sh_title : Js.truthy (title it) = true;
  sh_description : description it = VStr "" ∨ Js.truthy (description it) = true;
  sh_authorName : authorName it = VStr "" ∨ Js.truthy (authorName it) = true;
  sh_imageUrl : null_or_truthy (imageUrl it);
  sh_video : from_option (fun m => Js.truthy (m_url m) = true ∧ renderable m) True (video it);
  sh_enclosure :
    enclosure it = VNull
    ∨ ∃ e, enclosure it = VObj e ∧ Js.truthy (Js.lookup_prop "url" e) = true;
  sh_source : is_string (source it)
}.

(** A value a template literal can interpolate. *)
Definition stringable (v : value) : Prop := ∃ s, Js.ToString v = Ok s.

(** An Item every step of the loop of buildFeeds goes through: what
    the template literals interpolate has a string, startsWith is
    called on a string, and so is replace, if at all. *)
Record renders (it : Item) : Prop := {
  rn_imageUrl : Js.truthy (imageUrl it) = true → stringable (imageUrl it);
  rn_video : from_option (fun m => is_string (m_type m) ∧ stringable (m_url m)) True (video it);
  rn_description : textual (description it);
  rn_source : stringable (source it)
}.

(** The address [m[0]["$"].url] of a media field, [undefined] where
    reading it raises. *)
Definition media_address (m : value) : value :=
  match media_url m with
  | Ok v => v
  | Throw _ => VUndef
  end.

(** A raw item whose text fields hold text, the snippet and the
    addresses of its media too. *)
Record presentable (it : obj) : Prop := {
  pr_typed : well_typed it;
  pr_contentSnippet : textual (get it "contentSnippet");
  pr_enclosure :
    match get it "enclosure" with
    | VObj e => textual (Js.lookup_prop "url" e)
    | _ => True
    end;
  pr_mediaContent : textual (media_address (get it "mediaContent"));
  pr_mediaThumbnail : textual (media_address (get it "mediaThumbnail"));
  pr_image : textual (get it "image")
}.

(** [v.k], [undefined] where reading it raises. *)
Definition field (v : value) (k : string) : value :=
  match Js.prop v k with
  | Ok w => w
  | Throw _ => VUndef
  end.

(** An entry of a JSON Feed whose text fields hold text: the
    addresses, those of its images too, the dates, the contents, the
    summary, and the address and media type of the first attachment. *)
Record json_typed (it : value) : Prop := {
  jt_url : textual (field it "url");
  jt_external_url : textual (field it "external_url");
  jt_date_published : textual (field it "date_published");
  jt_date_modified : textual (field it "date_modified");
  jt_content_html : textual (field it "content_html");
  jt_content_text : textual (field it "content_text");
  jt_summary : textual (field it "summary");
  jt_image : textual (field it "image");
  jt_banner_image : textual (field it "banner_image");
  jt_attachment :
    match Js.first (field it "attachments") with
    | Ok a0 => textual (field a0 "url") ∧ textual (field a0 "mime_type")
    | Throw _ => True
    end
}.

(** A source that delivers typed entries, by whichever path. *)
Definition typed_source (s : feed_source) : Prop :=
  (∀ l, json_with_items (json_fetch s) l → Forall json_typed l)
  ∧ (∀ its, xml_parse s = Parsed its → Forall presentable its).

(** The last line of a rendered content. *)
Definition attribution (it : Item) : string :=
  "<p><small>Source: " +:+ Js.text (source it) +:+ "</small></p>".

(** A string without the character [>], and one in which the tag
    pattern has no match. *)
Definition no_gt (s : string) : Prop := str_forall (fun c => negb (Js.is_gt c)) s = true.
Definition tagless (s : string) : Prop := Js.search Js.tag_at s = None.

(** What closes a tag: the character [>], and the rest after it. *)
Definition after_gt (r2 : string) : option string :=
  match r2 with
  | String ">"%char r3 => Some r3
  | _ => None
  end.
Arguments after_gt : simpl never.

(** The summary field of an entry: absent, or short and tagless. *)
Definition short_summary (d : value) : Prop :=
  match d with
  | VUndef => True
  | VStr t => (String.length t ≤ 280)%nat ∧ tagless t
  | _ => False
  end.

(** What an item adapted from an entry of a JSON Feed holds, whatever
    the entry held. *)
Record adapted (url : string) (o : obj) : Prop := {
  ad_title : Js.truthy (get o "title") = true;
  ad_link : get o "link" = VStr "" ∨ Js.truthy (get o "link") = true;
  ad_isoDate : Js.truthy (get o "isoDate") = true;
  ad_content : get o "content" = VStr "" ∨ Js.truthy (get o "content") = true;
  ad_contentSnippet :
    get o "contentSnippet" = VStr "" ∨ Js.truthy (get o "contentSnippet") = true;
  ad_enclosure :
    get o "enclosure" = VUndef
    ∨ ∃ u t, get o "enclosure" = VObj [("url", u); ("type", t)]
             ∧ (t = VStr "" ∨ Js.truthy t = true);
  ad_image : null_or_truthy (get o "image");
  ad_author :
    get o "author" = VArr []
    ∨ ∃ n l, get o "author" = VArr [VObj [("name", n); ("link", l)]]
             ∧ (Js.truthy n = true ∨ Js.truthy l = true);
  ad_source : get o "_source" = VStr url
}.

(** An entry whose enclosure, when it has one, has an address. *)
Definition addressed (e : entry) : Prop :=
  from_option (fun m => Js.truthy (m_url m) = true) True (e_enclosure e).

(** An entry whose id is its link, a string that is not empty. *)
Definition identified (e : entry) : Prop :=
  e_id e = e_link e ∧ ∃ s, e_id e = VStr s ∧ s ≠ "".

(** The entries of the Feed a document serializes. *)
Definition entries (d : document) : list entry := f_entries (doc_feed d).

(** * Proofs *)

Local Open Scope list_scope.

(** ** The model at work *)

Example trim_both_ends : Js.str_trim "  a b  " = "a b"%string.
Proof. reflexivity. Qed.

Example img_greedy_takes_last_src :
  Js.match_img "<p><IMG class='x' SRC='http://a/b.png' data-src='c.png'></p>" = Some "c.png"%string.
Proof. reflexivity. Qed.

Example img_needs_closing_quote : Js.match_img "<img src='a.png" = None.
Proof. reflexivity. Qed.

Example video_backtracks_to_extension :
  Js.match_video "see httpS://x.com/a.mp4x and http://y/z.webm"
  = Some ("httpS://x.com/a.mp4", "mp4")%string.
Proof. reflexivity. Qed.

Example tags_stripped : Js.strip_tags "<p>Hello <b>world</b> a <> b</p>" = "Hello world a <> b"%string.
Proof. reflexivity. Qed.

Example stringify_array :
  Js.stringify (VArr [VObj [("a", VStr "x"); ("u", VUndef); ("n", VNum (-5))]; VUndef; VNull])
  = Some (String.concat ""
            ["[{"; dq; "a"; dq; ":"; dq; "x"; dq; ","; dq; "n"; dq; ":-5},null,null]"]%string).
Proof. reflexivity. Qed.

Example parse_date_only : JsDate.Date_parse "2024-01-01" = Some 1704067200000%Z.
Proof. reflexivity. Qed.

Example parse_with_offset : JsDate.Date_parse "2024-01-01T01:00:00.000+01:00" = Some 1704067200000%Z.
Proof. reflexivity. Qed.

Example parse_unrecognizable : JsDate.Date_parse "not a date" = None.
Proof. reflexivity. Qed.

Example iso_string_of_clock : JsDate.toISOString Sample.clock = "2024-01-02T00:00:00.000Z"%string.
Proof. reflexivity. Qed.

Example iso_string_parses_back :
  JsDate.Date_parse (JsDate.toISOString 1704112215250) = Some 1704112215250%Z.
Proof. reflexivity. Qed.

(** The end-to-end scenario of the specification: the link a comes
    from both sources, the RSS one is seen first and wins, and b
    follows it by date. *)
Example end_to_end :
  refresh Sample.clock [Sample.rss_source; Sample.json_source] Sample.boot
  = (Ok (),
     {| items :=
          [{| title := VStr "First"; link := VStr "a"; date := Some 1704067200000%Z;
              description := VStr "<p>hi <img src='http://i/x.png'></p>";
              authorName := VStr ""; imageUrl := VStr "http://i/x.png"; video := None;
              enclosure := VNull; source := VStr "https://one.example/rss" |};
           {| title := VStr "(untitled)"; link := VStr "b"; date := Some 1701388800000%Z;
              description := VStr ""; authorName := VStr ""; imageUrl := VNull;
              video := None; enclosure := VNull;
              source := VStr "https://two.example/feed.json" |}];
        lastBuild := Sample.clock |}).
Proof. by vm_compute. Qed.

(** ** The result monad *)

Lemma bind_Ok {A B} (m : result A) (k : A → result B) (b : B) :
  m ≫= k = Ok b → ∃ a, m = Ok a ∧ k a = Ok b.
Proof. destruct m as [a|e]; simpl; [eauto | discriminate]. Qed.

(** Opens every bind on the way to the [Ok] of [H]. *)
Ltac inv_bind H :=
  repeat (let a := fresh "a" in
          let E := fresh "E" in
          apply bind_Ok in H as (a & E & H)).

Lemma mapM_Ok_Forall2 {A B} (f : A → result B) (l : list A) (out : list B) :
  mapM f l = Ok out → Forall2 (fun a b => f a = Ok b) l out.
Proof.
  revert out. induction l as [|a l IH]; intros out; simpl.
  - intros [= <-]. constructor.
  - intros H. apply bind_Ok in H as (b & Hb & H).
    apply bind_Ok in H as (bs & Hbs & [= <-]).
    constructor; auto.
Qed.

Lemma mapM_total {A B} (f : A → result B) (l : list A) :
  Forall (fun a => ∃ b, f a = Ok b) l → ∃ out, mapM f l = Ok out.
Proof.
  induction 1 as [|a l [b Hb] _ [bs Hbs]]; simpl.
  - eauto.
  - rewrite Hb. simpl. rewrite Hbs. simpl. eauto.
Qed.

(** ** The loop over SOURCES *)

Lemma collect_from (now : Z) (SOURCES : list feed_source) (collected : list obj) :
  fold_left (fun collected s => (collected ++ collect_source now s)%list) SOURCES collected
  = (collected ++ concat (collect_source now <$> SOURCES))%list.
Proof.
  revert collected. induction SOURCES as [|s S IH]; intros collected; simpl.
  - by rewrite app_nil_r.
  - rewrite IH. by rewrite <- app_assoc.
Qed.

Lemma collect_concat (now : Z) (SOURCES : list feed_source) :
  collect now SOURCES = concat (collect_source now <$> SOURCES).
Proof. unfold collect. by rewrite collect_from. Qed.

Lemma collect_app (now : Z) (S1 S2 : list feed_source) :
  collect now (S1 ++ S2) = (collect now S1 ++ collect now S2)%list.
Proof. rewrite !collect_concat, fmap_app. apply concat_app. Qed.

(** ** Sorting *)

Section any_comparator.

(** Whatever the comparator answers, consistent or not, the sort
    rearranges and neither loses nor invents an item. *)
Context (cmp : Item → Item → option Z).

Lemma insert_perm x l : insert cmp x l ≡ₚ x :: l.
Proof.
  induction l as [|y l IH]; simpl; [done|].
  destruct (goes_before cmp x y); [done|].
  rewrite IH. apply Permutation_swap.
Qed.

Lemma sort_perm l : sort cmp l ≡ₚ l.
Proof.
  induction l as [|x l IH]; simpl; [done|].
  rewrite insert_perm. by rewrite IH.
Qed.

End any_comparator.

Lemma insert_sorted x l :
  valid_date x → Forall valid_date l →
  Sorted newer_first l → Sorted newer_first (insert by_date x l).
Proof.
  intros [tx Hx] Hl Hs. induction l as [|y l IH]; simpl.
  - repeat constructor.
  - apply Forall_cons in Hl as [[ty Hy] Hl].
    apply Sorted_inv in Hs as [Hs Hhd].
    unfold goes_before, by_date. rewrite Hx, Hy.
    destruct (Z.leb_spec (ty - tx) 0) as [Hle|Hgt].
    + constructor; [by constructor|].
      constructor. unfold newer_first, JsDate.ge. rewrite Hx, Hy.
      apply Z.leb_le. lia.
    + constructor; [by apply IH|].
      assert (Hyx : newer_first y x).
      { unfold newer_first, JsDate.ge. rewrite Hx, Hy. apply Z.leb_le. lia. }
      destruct l as [|z l]; simpl; [by constructor|].
      destruct (goes_before _ x z); constructor; [done|].
      by apply HdRel_inv in Hhd.
Qed.

Lemma sort_sorted l : Forall valid_date l → Sorted newer_first (sort by_date l).
Proof.
  induction 1 as [|x l Hx Hl IH]; simpl; [constructor|].
  apply insert_sorted; [done| |done].
  by rewrite sort_perm.
Qed.

Lemma sorted_descending l : Sorted newer_first l → date_descending l.
Proof.
  induction 1 as [|a l Hs IH Hhd]; intros i x y Hi HSi.
  - by rewrite lookup_nil in Hi.
  - destruct i as [|i]; simpl in *.
    + injection Hi as <-. destruct Hhd as [|b l' Hab]; [by rewrite lookup_nil in HSi|].
      simpl in HSi. by injection HSi as <-.
    + eauto.
Qed.

(** An invalid date next to any other breaks the order, wherever a
    permutation puts it. *)
Lemma invalid_date_unsorted (l : list Item) (it : Item) :
  it ∈ l → date it = None → (2 ≤ length l)%nat → ¬ date_descending l.
Proof.
  intros Hin Hnone Hlen Hdesc.
  apply list_elem_of_lookup in Hin as [i Hi].
  destruct (l !! S i) as [b|] eqn:Hb.
  - specialize (Hdesc i it b Hi Hb). unfold JsDate.ge in Hdesc. by rewrite Hnone in Hdesc.
  - apply lookup_ge_None in Hb.
    destruct i as [|i]; [lia|].
    destruct (l !! i) as [a|] eqn:Ha.
    + specialize (Hdesc i a it Ha Hi). unfold JsDate.ge in Hdesc.
      rewrite Hnone in Hdesc. by destruct (date a).
    + apply lookup_ge_None in Ha. apply lookup_lt_Some in Hi. lia.
Qed.

(** ** Deduplication *)

Lemma trim_Ok (v : value) (key : string) :
  Js.trim v = Ok key → ∃ s, v = VStr s ∧ key = Js.str_trim s.
Proof. destruct v; simpl; intros [=]; eauto. Qed.

Lemma link_key_trim (it : Item) (key : string) :
  Js.trim (link it) = Ok key → link_key it = key.
Proof. intros H. apply trim_Ok in H as (s & Hs & ->). unfold link_key. by rewrite Hs. Qed.

Lemma keyed_has_link (it : Item) (key : string) :
  Js.trim (link it) = Ok key → key ≠ "" → has_link it.
Proof.
  intros H Hne. apply trim_Ok in H as (s & Hs & ->).
  exists s. split; [done|]. split; [|done].
  intros ->. by apply Hne.
Qed.

Lemma dedupe_loop_unique (rest : list Item) :
  ∀ (seen : gset string) (deduped out : list Item),
    dedupe_loop seen deduped rest = Ok out →
    Forall has_link deduped →
    NoDup (link_key <$> deduped) →
    (∀ it, it ∈ deduped → link_key it ∈ seen) →
    links_unique out.
Proof.
  induction rest as [|it rest IH]; intros seen deduped out; simpl.
  - intros [= <-] Hl Hn _. by split.
  - intros H Hl Hn Hseen.
    apply bind_Ok in H as (key & Hkey & H).
    destruct (String.eqb_spec key "") as [->|Hne]; simpl in H; [by eapply IH|].
    case_bool_decide as Hin; [by eapply IH|].
    pose proof (link_key_trim _ _ Hkey) as Hk.
    eapply IH; [exact H| | |].
    + apply Forall_app. split; [done|]. constructor; [|constructor].
      by eapply keyed_has_link.
    + rewrite fmap_app. apply NoDup_app. split; [done|]. split.
      * intros k Hk1 Hk2. simpl in Hk2. apply list_elem_of_singleton in Hk2 as ->.
        apply list_elem_of_fmap in Hk1 as (it' & Heq & Hin').
        apply Hin. rewrite <- Hk, Heq. by apply Hseen.
      * simpl. apply NoDup_singleton.
    + intros it' Hin'. apply elem_of_app in Hin' as [Hin'|Hin'].
      * apply elem_of_union_r. by apply Hseen.
      * apply list_elem_of_singleton in Hin' as ->. rewrite Hk.
        apply elem_of_union_l. by apply elem_of_singleton.
Qed.

Lemma links_unique_perm (l l' : list Item) : l ≡ₚ l' → links_unique l → links_unique l'.
Proof.
  intros Hp [Hl Hn]. split.
  - by rewrite <- Hp.
  - by rewrite <- Hp.
Qed.

Lemma rebuild_Ok (now : Z) (SOURCES : list feed_source) (out : list Item) :
  rebuild now SOURCES = Ok out →
  ∃ mapped deduped,
    mapM (normalize now) (collect now SOURCES) = Ok mapped
    ∧ dedupe (List.filter (fun it => Js.truthy (link it)) mapped) = Ok deduped
    ∧ out = sort by_date deduped.
Proof.
  unfold rebuild. intros H. inv_bind H.
  injection H as <-. eauto.
Qed.

Lemma rebuild_links_unique (now : Z) (SOURCES : list feed_source) (out : list Item) :
  rebuild now SOURCES = Ok out → links_unique out.
Proof.
  intros H. apply rebuild_Ok in H as (mapped & deduped & _ & Hd & ->).
  apply (links_unique_perm deduped); [by rewrite sort_perm|].
  eapply dedupe_loop_unique; [exact Hd|constructor|constructor|].
  intros it Hin. by apply elem_of_nil in Hin.
Qed.

Lemma reachable_cases (P : list Item → Prop) :
  P [] → (∀ now SOURCES out, rebuild now SOURCES = Ok out → P out) →
  ∀ CACHE, reachable CACHE → P (items CACHE).
Proof.
  intros Hnil Hstep CACHE. induction 1 as [boot|now SOURCES CACHE _ IH]; simpl; [done|].
  unfold refresh. destruct (rebuild now SOURCES) as [out|e] eqn:Hr; simpl; eauto.
Qed.

(** ** C1: the link invariant of the Cache *)

(** C1.  After any refresh, every Item of the Cache has a non-empty
    link, and no two Items have the same link, links being compared
    trimmed: of every cache the process can hold, the links are
    non-empty strings and their trimmed forms are pairwise distinct. *)
Theorem cache_links_unique (CACHE : Cache) :
  reachable CACHE → links_unique (items CACHE).
Proof.
  apply (reachable_cases links_unique).
  - split; constructor.
  - apply rebuild_links_unique.
Qed.

Lemma cache_links_unique_witness :
  let CACHE := snd (refresh Sample.clock [Sample.rss_source; Sample.json_source] Sample.boot) in
  reachable CACHE ∧ length (items CACHE) = 2%nat ∧ links_unique (items CACHE).
Proof.
  assert (Hr : reachable
                 (snd (refresh Sample.clock [Sample.rss_source; Sample.json_source] Sample.boot)))
    by apply reach_refresh, (reach_boot 0).
  split; [exact Hr|]. split; [by vm_compute|].
  exact (cache_links_unique _ Hr).
Defined.

(** ** C2: the order of the Cache *)

(** A refresh over a source with an unparseable date leaves that
    date invalid, and no order of the two items is then descending:
    not the one the sort leaves, nor any other an engine might. *)
Lemma cache_order_counterexample :
  let CACHE := snd (refresh Sample.clock [Sample.misdated_source] Sample.boot) in
  reachable CACHE
  ∧ date <$> items CACHE = [None; Some 1704067200000%Z]
  ∧ ¬ date_descending (items CACHE)
  ∧ ∀ l, l ≡ₚ items CACHE → ¬ date_descending l.
Proof.
  assert (Hany : ∀ l,
             l ≡ₚ items (snd (refresh Sample.clock [Sample.misdated_source] Sample.boot)) →
             ¬ date_descending l).
  { intros l Hl.
    assert (Hd : None ∈ date <$> l) by (rewrite Hl; vm_compute; apply list_elem_of_here).
    apply list_elem_of_fmap in Hd as (item & Hnone & Hin).
    apply (invalid_date_unsorted l item Hin); [done|by rewrite Hl]. }
  split; [apply reach_refresh, (reach_boot 0)|].
  split; [by vm_compute|].
  split; [by apply Hany|exact Hany].
Qed.

(** C2, amended.  After any refresh, if the date of every Item of the
    Cache is valid, the items are in descending order of date: each
    adjacent pair [a, b] has [a.date >= b.date]. *)
Theorem cache_date_descending (CACHE : Cache) :
  reachable CACHE → Forall valid_date (items CACHE) → date_descending (items CACHE).
Proof.
  apply (reachable_cases (fun l => Forall valid_date l → date_descending l)).
  - intros _ i a b Hi. by rewrite lookup_nil in Hi.
  - intros now SOURCES out H Hvalid.
    apply rebuild_Ok in H as (mapped & deduped & _ & _ & ->).
    apply sorted_descending, sort_sorted.
    by rewrite <- (sort_perm by_date deduped).
Qed.

Lemma cache_date_descending_witness :
  let CACHE := snd (refresh Sample.clock [Sample.rss_source; Sample.json_source] Sample.boot) in
  reachable CACHE ∧ Forall valid_date (items CACHE) ∧ date_descending (items CACHE).
Proof.
  assert (Hr : reachable
                 (snd (refresh Sample.clock [Sample.rss_source; Sample.json_source] Sample.boot)))
    by apply reach_refresh, (reach_boot 0).
  assert (Hv : Forall valid_date
                 (items (snd (refresh Sample.clock [Sample.rss_source; Sample.json_source]
                                Sample.boot))))
    by (vm_compute; repeat constructor; eexists; reflexivity).
  split; [exact Hr|]. split; [exact Hv|].
  exact (cache_date_descending _ Hr Hv).
Defined.

(** ** C3: first seen wins *)

Lemma dedupe_loop_first_keyed (rest : list Item) :
  ∀ (before : list Item) (seen : gset string) (deduped : list Item),
    Forall string_link rest →
    (∀ k, k ∈ seen ↔ k ≠ "" ∧ k ∈ link_key <$> before) →
    dedupe_loop seen deduped rest
    = Ok (deduped ++ omap id (imap (fun i it => keep (before ++ rest) (length before + i) it)
                                   rest))%list.
Proof.
  induction rest as [|it rest IH]; intros before seen deduped Hs Hseen; simpl.
  - by rewrite app_nil_r.
  - apply Forall_cons in Hs as [[s Hit] Hs].
    assert (Hk : link_key it = Js.str_trim s) by (unfold link_key; by rewrite Hit).
    assert (Hbefore : take (length before + 0) (before ++ it :: rest) = before)
      by (rewrite Nat.add_0_r; apply take_app_length).
    assert (Hrest : ∀ seen' deduped',
               (∀ k, k ∈ seen' ↔ k ≠ "" ∧ k ∈ link_key <$> (before ++ [it])) →
               dedupe_loop seen' deduped' rest
               = Ok (deduped'
                       ++ omap id (imap ((fun i it' =>
                                            keep (before ++ it :: rest) (length before + i) it')
                                         ∘ S) rest))%list).
    { intros seen' deduped' Hseen'.
      rewrite (IH (before ++ [it]) seen' deduped' Hs Hseen').
      do 3 f_equal. apply imap_ext. intros i it' _. simpl.
      rewrite <- app_assoc, length_app. simpl.
      replace (length before + 1 + i)%nat with (length before + S i)%nat by lia.
      reflexivity. }
    rewrite Hit. simpl. unfold keep at 1. unfold unseen_before. rewrite Hbefore, Hk.
    destruct (String.eqb_spec (Js.str_trim s) "") as [He|Hne]; simpl.
    + rewrite bool_decide_eq_false_2 by (intros [? _]; done). simpl.
      apply Hrest. intros k. rewrite Hseen, fmap_app, elem_of_app. simpl.
      rewrite list_elem_of_singleton, Hk, He. intuition (subst; done).
    + case_bool_decide as Hin; simpl.
      * rewrite bool_decide_eq_false_2; simpl.
        -- apply Hrest. intros k. rewrite Hseen, fmap_app, elem_of_app. simpl.
           rewrite list_elem_of_singleton, Hk.
           apply Hseen in Hin. intuition (subst; done).
        -- intros [_ Hnot]. apply Hnot. by apply Hseen in Hin as [_ ?].
      * rewrite bool_decide_eq_true_2; simpl.
        -- rewrite Hrest.
           ++ by rewrite <- app_assoc.
           ++ intros k. rewrite elem_of_union, elem_of_singleton, Hseen, fmap_app, elem_of_app.
              simpl. rewrite list_elem_of_singleton, Hk. intuition (subst; done).
        -- split; [done|]. intros Hb. apply Hin, Hseen. done.
Qed.

Lemma dedupe_keyed (normalized : list Item) :
  Forall string_link normalized → dedupe normalized = Ok (first_keyed_only normalized).
Proof.
  intros Hs. unfold dedupe.
  rewrite (dedupe_loop_first_keyed normalized [] ∅ [] Hs).
  - reflexivity.
  - intros k. rewrite fmap_nil, elem_of_empty, elem_of_nil. intuition (subst; done).
Qed.

(** The claim as it stands keeps the first item of every key, the
    blank one too; the loop drops an item whose link is blank. *)
Lemma first_seen_counterexample :
  let normalized := List.filter (fun it => Js.truthy (link it)) [Sample.plain " "] in
  normalized = [Sample.plain " "]
  ∧ first_seen_only normalized = [Sample.plain " "]
  ∧ dedupe normalized = Ok [].
Proof. repeat split; by vm_compute. Qed.

(** C3, amended.  Deduplication is strict first-seen among the items
    that bear a key: going through the normalized items in order, the
    item at a position is kept, as it is, exactly when its trimmed link
    is not empty and no item at an earlier position has the same
    trimmed link, whatever its source or content; the kept items stay
    in order. *)
Theorem dedupe_first_seen (normalized : list Item) :
  Forall string_link normalized → dedupe normalized = Ok (first_keyed_only normalized).
Proof. apply dedupe_keyed. Qed.

Lemma dedupe_first_seen_witness :
  let normalized := [Sample.plain "a"; Sample.plain "b"; Sample.plain " a"; Sample.plain " "] in
  Forall string_link normalized
  ∧ dedupe normalized = Ok (first_keyed_only normalized)
  ∧ first_keyed_only normalized = [Sample.plain "a"; Sample.plain "b"].
Proof.
  assert (Hs : Forall string_link
                 [Sample.plain "a"; Sample.plain "b"; Sample.plain " a"; Sample.plain " "])
    by (repeat constructor; eexists; reflexivity).
  split; [exact Hs|]. split; [|by vm_compute].
  exact (dedupe_first_seen _ Hs).
Defined.

(** ** Where the pipeline can raise *)

Lemma prop_truthy (v : value) (k : string) :
  Js.truthy v = true → ∃ w, Js.prop v k = Ok w.
Proof. destruct v; simpl; intros; try discriminate; eauto. Qed.

Lemma first_truthy (v : value) :
  Js.truthy v = true → ∃ w, Js.first v = Ok w.
Proof. destruct v as [| | | |[|c s]| |]; simpl; intros; try discriminate; eauto. Qed.

Lemma andM_total (a : value) (b : result value) :
  (Js.truthy a = true → ∃ w, b = Ok w) → ∃ w, andM a b = Ok w.
Proof. unfold andM. destruct (Js.truthy a); eauto. Qed.

Lemma orM_total (a : value) (b : result value) :
  (Js.truthy a = false → ∃ w, b = Ok w) → ∃ w, orM a b = Ok w.
Proof. unfold orM. destruct (Js.truthy a); eauto. Qed.

Lemma media_url_total (m : value) : ∃ w, media_url m = Ok w.
Proof.
  unfold media_url. apply andM_total. intros Hm.
  destruct (first_truthy m Hm) as [m0 ->]. simpl.
  apply andM_total. intros Hm0.
  destruct (prop_truthy m0 "$" Hm0) as [a ->]. simpl.
  apply andM_total. intros Ha. by apply prop_truthy.
Qed.

Lemma author_total (it : obj) : ∃ w, creator_or_author it = Ok w.
Proof.
  apply orM_total. intros _. apply andM_total. intros Ha.
  destruct (first_truthy _ Ha) as [a0 ->]. simpl.
  apply andM_total. intros Ha0. by apply prop_truthy.
Qed.

Lemma textual_or (a : value) (s : string) :
  textual a → ∃ s', Js.or a (VStr s) = VStr s'.
Proof. unfold Js.or. destruct a; simpl; intros; try done; try destruct (negb _); eauto. Qed.

Lemma textual_or_either (a b : value) :
  textual a → is_string b → is_string (Js.or a b).
Proof.
  intros Ha [s ->]. destruct (textual_or a s Ha) as [s' Hs']. by exists s'.
Qed.

Lemma enclosure_is_total (prefix : string) (it : obj) :
  well_typed it → ∃ b, enclosure_is prefix it = Ok b.
Proof.
  intros Hw. pose proof (wt_enclosure it Hw) as He. unfold enclosure_is.
  destruct (get it "enclosure") as [| | | | | |e]; simpl; eauto.
  - destruct b; simpl; eauto.
  - destruct (negb _); simpl; eauto.
  - destruct (negb _); simpl; eauto.
  - destruct (Js.truthy (Js.lookup_prop "url" e)); simpl; [|eauto].
    destruct (textual_or _ "" He) as [s' ->]. simpl. eauto.
Qed.

Lemma html_is_string (it : obj) : well_typed it → is_string (html_of it).
Proof.
  intros Hw. unfold html_of.
  apply textual_or_either; [apply Hw|].
  apply textual_or_either; [apply Hw|].
  apply textual_or_either; [apply Hw|]. by eexists.
Qed.

Lemma match_on_string {A} (re : string → option A) (v : value) :
  is_string v → ∃ m, match_on re v = Ok m.
Proof. intros [s ->]. simpl. eauto. Qed.

Lemma pickImage_total (it : obj) : well_typed it → ∃ v, pickImage it = Ok v.
Proof.
  intros Hw. unfold pickImage.
  destruct (enclosure_is_total "image/" it Hw) as [b Hb]. rewrite Hb. simpl.
  destruct b.
  { unfold enclosure_is in Hb.
    destruct (Js.truthy (get it "enclosure")) eqn:He; [|discriminate].
    by apply prop_truthy. }
  destruct (media_url_total (get it "mediaContent")) as [c ->]. simpl.
  destruct (orM_total c (media_url (get it "mediaThumbnail"))) as [fm ->];
    [intros _; apply media_url_total|]. simpl.
  destruct (Js.truthy fm); [eauto|].
  destruct (match_on_string Js.match_img _ (html_is_string it Hw)) as [m Hm].
  fold (html_of it). rewrite Hm. simpl.
  destruct m; [eauto|]. destruct (Js.truthy (get it "image")); eauto.
Qed.

Lemma pickVideo_total (it : obj) : well_typed it → ∃ v, pickVideo it = Ok v.
Proof.
  intros Hw. unfold pickVideo.
  destruct (enclosure_is_total "video/" it Hw) as [b Hb]. rewrite Hb. simpl.
  destruct b.
  { unfold enclosure_is in Hb.
    destruct (Js.truthy (get it "enclosure")) eqn:He; [|discriminate].
    destruct (prop_truthy _ "url" He) as [u ->].
    destruct (prop_truthy _ "type" He) as [t ->]. simpl. eauto. }
  match goal with |- context [match ?scan with Some _ => _ | None => _ end] =>
    destruct scan as [[u ext]|] end; [eauto|].
  pose proof (wt_link it Hw) as Hl.
  assert (Hy : ∃ y, (if Js.truthy (get it "link")
                     then Js.includes (get it "link") "youtube.com/watch"
                     else Ok false) = Ok y).
  { destruct (get it "link"); simpl in *; try done; eauto.
    destruct (negb _); eauto. }
  destruct Hy as [y ->]. simpl. destruct y; [eauto|].
  assert (Hh : is_string (Js.or (get it "contentEncoded") (Js.or (get it "content") (VStr "")))).
  { apply textual_or_either; [apply Hw|]. apply textual_or_either; [apply Hw|]. by eexists. }
  destruct (match_on_string Js.match_video _ Hh) as [mv ->]. simpl.
  destruct mv as [[u ext]|]; eauto.
Qed.

Lemma construct_textual (v : value) : textual v → ∃ d, JsDate.construct v = Ok d.
Proof. destruct v; simpl; intros; try done; eauto. Qed.

Lemma construct_total (now : Z) (it : obj) :
  well_typed it →
  ∃ d, JsDate.construct (Js.or (get it "isoDate") (Js.or (get it "pubDate") (VNum now)))
       = Ok d.
Proof.
  intros Hw. unfold Js.or.
  destruct (Js.truthy (get it "isoDate")); [apply construct_textual, Hw|].
  destruct (Js.truthy (get it "pubDate")); [apply construct_textual, Hw|].
  simpl. eauto.
Qed.

Lemma normalize_total (now : Z) (it : obj) :
  well_typed it → ∃ item, normalize now it = Ok item ∧ string_link item.
Proof.
  intros Hw. unfold normalize.
  destruct (construct_total now it Hw) as [d ->]. simpl.
  destruct (author_total it) as [author ->]. simpl.
  destruct (pickImage_total it Hw) as [image ->]. simpl.
  destruct (pickVideo_total it Hw) as [video ->]. simpl.
  destruct (andM_total (get it "enclosure") (Js.prop (get it "enclosure") "url")) as [u ->];
    [intros He; by apply prop_truthy|]. simpl.
  eexists. split; [reflexivity|].
  unfold string_link. simpl.
  apply textual_or_either; [apply Hw|]. apply textual_or_either; [apply Hw|]. by eexists.
Qed.

Lemma filter_Forall {A} (P : A → Prop) (f : A → bool) (l : list A) :
  Forall P l → Forall P (List.filter f l).
Proof.
  induction 1 as [|x l Hx _ IH]; simpl; [constructor|].
  destruct (f x); [by constructor|done].
Qed.

Lemma rebuild_total (now : Z) (SOURCES : list feed_source) :
  Forall well_typed (collect now SOURCES) → ∃ out, rebuild now SOURCES = Ok out.
Proof.
  intros Hw. unfold rebuild.
  destruct (mapM_total (normalize now) (collect now SOURCES)) as [mapped Hm].
  { eapply Forall_impl; [exact Hw|]. intros it Hit.
    destruct (normalize_total now it Hit) as (item & ? & _). eauto. }
  rewrite Hm. simpl.
  assert (Hs : Forall string_link mapped).
  { apply mapM_Ok_Forall2 in Hm.
    revert Hw. induction Hm as [|it item l l' Hn _ IH]; intros Hw; [constructor|].
    apply Forall_cons in Hw as [Hit Hw]. constructor; [|by apply IH].
    destruct (normalize_total now it Hit) as (item' & Hn' & Hs).
    rewrite Hn in Hn'. by injection Hn' as ->. }
  rewrite (dedupe_keyed _ (filter_Forall _ _ _ Hs)). simpl. eauto.
Qed.

(** ** C4: refresh and failing sources *)

Lemma fails_contributes_nothing (now : Z) (s : feed_source) :
  fails now s → collect_source now s = [].
Proof. intros [Hj Hx]. unfold collect_source. by rewrite Hj, Hx. Qed.

Lemma all_fail_collect_nothing (now : Z) (SOURCES : list feed_source) :
  Forall (fails now) SOURCES → collect now SOURCES = [].
Proof.
  rewrite collect_concat.
  induction 1 as [|s S Hs _ IH]; [done|].
  rewrite fmap_cons. simpl. by rewrite (fails_contributes_nothing now s Hs), IH.
Qed.

(** A JSON Feed item whose url is a number passes the adapter and
    makes pickVideo raise; one whose date is an object with a toString
    that is no function passes the adapter and makes the Date
    constructor raise.  Either way refresh raises and leaves the Cache
    as it was, although every fetch and parse had an outcome. *)
Lemma refresh_raises_counterexample :
  refresh Sample.clock [Sample.numeric_url_source] Sample.boot
  = (Throw (TypeError "includes is not a function"), Sample.boot)
  ∧ refresh Sample.clock [Sample.rss_source; Sample.object_date_source] Sample.boot
    = (Throw (TypeError "cannot convert object to primitive value"), Sample.boot).
Proof. split; by vm_compute. Qed.

(** C4, amended.  For any combination of per-source outcomes in which
    the raw items collected are well typed (the link, guid, date and
    content fields hold strings when present, the media type of an
    enclosure too), refresh does not raise and installs a Cache built
    at the current time; a source that fails at both stages
    contributes zero items and leaves the contribution of the other
    sources as it is; and when every source fails, refresh installs a
    Cache with zero items and the current time as lastBuild. *)
Theorem refresh_tolerates_failures (now : Z) (SOURCES : list feed_source) (CACHE : Cache) :
  (Forall well_typed (collect now SOURCES) →
   ∃ deduped, refresh now SOURCES CACHE = (Ok (), {| items := deduped; lastBuild := now |}))
  ∧ (∀ S1 s S2, SOURCES = S1 ++ s :: S2 → fails now s →
       collect now SOURCES = collect now (S1 ++ S2))
  ∧ (Forall (fails now) SOURCES →
     refresh now SOURCES CACHE = (Ok (), {| items := []; lastBuild := now |})).
Proof.
  split; [|split].
  - intros Hw. destruct (rebuild_total now SOURCES Hw) as [out Hout].
    exists out. unfold refresh. by rewrite Hout.
  - intros S1 s S2 -> Hs.
    rewrite !collect_app. f_equal.
    change (s :: S2) with ([s] ++ S2). rewrite collect_app. 
    rewrite (collect_concat now [s]). simpl.
    by rewrite (fails_contributes_nothing now s Hs).
  - intros Hf. unfold refresh, rebuild.
    by rewrite (all_fail_collect_nothing now SOURCES Hf).
Qed.

Lemma refresh_tolerates_failures_witness :
  let SOURCES := [Sample.rss_source; Sample.dead_source; Sample.json_source] in
  (Forall well_typed (collect Sample.clock SOURCES)
   ∧ ∃ deduped, refresh Sample.clock SOURCES Sample.boot
                = (Ok (), {| items := deduped; lastBuild := Sample.clock |}))
  ∧ (fails Sample.clock Sample.dead_source
     ∧ collect Sample.clock SOURCES
       = collect Sample.clock [Sample.rss_source; Sample.json_source])
  ∧ (Forall (fails Sample.clock) [Sample.dead_source; Sample.dead_source]
     ∧ refresh Sample.clock [Sample.dead_source; Sample.dead_source] Sample.boot
       = (Ok (), {| items := []; lastBuild := Sample.clock |})).
Proof.
  assert (Hw : Forall well_typed
                 (collect Sample.clock
                    [Sample.rss_source; Sample.dead_source; Sample.json_source]))
    by (vm_compute; repeat constructor).
  assert (Hd : fails Sample.clock Sample.dead_source) by (split; reflexivity).
  assert (Hdd : Forall (fails Sample.clock) [Sample.dead_source; Sample.dead_source])
    by (repeat constructor).
  split; [split; [exact Hw|]|split; [split; [exact Hd|]|split; [exact Hdd|]]].
  - exact (proj1 (refresh_tolerates_failures Sample.clock _ Sample.boot) Hw).
  - exact (proj1 (proj2 (refresh_tolerates_failures Sample.clock
                           [Sample.rss_source; Sample.dead_source; Sample.json_source]
                           Sample.boot))
             [Sample.rss_source] Sample.dead_source [Sample.json_source] eq_refl Hd).
  - exact (proj2 (proj2 (refresh_tolerates_failures Sample.clock _ Sample.boot)) Hdd).
Defined.

(** ** C5: the date of a normalized item *)

Lemma normalize_fields (now : Z) (it : obj) (item : Item) :
  normalize now it = Ok item →
  JsDate.construct (Js.or (get it "isoDate") (Js.or (get it "pubDate") (VNum now)))
  = Ok (date item)
  ∧ link item = Js.or (get it "link") (Js.or (get it "guid") (VStr "")).
Proof.
  unfold normalize. intros H. inv_bind H.
  injection H as <-. by split.
Qed.

(** A date field that is present and does not parse is not replaced
    by the current time: the normalized date is invalid. *)
Lemma normalize_date_counterexample :
  ∃ item, normalize Sample.clock Sample.misdated = Ok item ∧ date item = None.
Proof. eexists. split; [by vm_compute|reflexivity]. Qed.

(** C5, amended.  The date of a normalized Item is the Date made from
    the first date-like field that is present: from isoDate when it
    is present, else from pubDate when that is present; and when
    neither is present the current time is substituted, which is a
    valid date. *)
Theorem normalize_date (now : Z) (it : obj) (item : Item) :
  normalize now it = Ok item →
  (Js.truthy (get it "isoDate") = true →
   JsDate.construct (get it "isoDate") = Ok (date item))
  ∧ (Js.truthy (get it "isoDate") = false → Js.truthy (get it "pubDate") = true →
     JsDate.construct (get it "pubDate") = Ok (date item))
  ∧ (Js.truthy (get it "isoDate") = false → Js.truthy (get it "pubDate") = false →
     (Z.abs now ≤ JsDate.maxTime)%Z → date item = Some now).
Proof.
  intros H. apply normalize_fields in H as [H _]. unfold Js.or in H.
  split; [|split].
  - intros Hi. by rewrite Hi in H.
  - intros Hi Hp. by rewrite Hi, Hp in H.
  - intros Hi Hp Hnow. rewrite Hi, Hp in H. simpl in H. unfold JsDate.TimeClip in H.
    apply Z.leb_le in Hnow. rewrite Hnow in H. by injection H.
Qed.

Lemma normalize_date_witness :
  ∃ item,
    normalize Sample.clock Sample.undated = Ok item
    ∧ date item = Some Sample.clock.
Proof.
  destruct (normalize Sample.clock Sample.undated) as [item|e] eqn:H;
    [|by vm_compute in H].
  exists item. split; [reflexivity|].
  apply (proj2 (proj2 (normalize_date Sample.clock Sample.undated item H)));
    [reflexivity|reflexivity|by vm_compute].
Defined.

(** ** C6: the choice between the JSON and the XML path *)

Lemma prop_object_like (it : value) (k : string) :
  is_object_like it → ∃ w, Js.prop it k = Ok w.
Proof. intros [Hn Hu]. destruct it; simpl; eauto; done. Qed.

Lemma json_enclosure_total (it : value) :
  is_object_like it → ∃ w, json_enclosure it = Ok w.
Proof.
  intros Hit. unfold json_enclosure.
  destruct (prop_object_like it "attachments" Hit) as [att ->]. simpl.
  unfold andM. destruct (Js.truthy att) eqn:Hatt; simpl.
  - destruct (first_truthy att Hatt) as [a0 ->]. simpl.
    destruct (Js.truthy a0) eqn:Ha0; [|eauto].
    destruct (prop_truthy a0 "url" Ha0) as [u ->].
    destruct (prop_truthy a0 "mime_type" Ha0) as [t ->]. simpl. eauto.
  - rewrite Hatt. eauto.
Qed.

Lemma json_author_total (it : value) :
  is_object_like it → ∃ w, json_author it = Ok w.
Proof.
  intros Hit. unfold json_author.
  destruct (prop_object_like it "author" Hit) as [au ->]. simpl.
  unfold andM. destruct (Js.truthy au) eqn:Hau; simpl.
  - destruct (prop_truthy au "name" Hau) as [n ->].
    destruct (prop_truthy au "url" Hau) as [l ->]. simpl.
    unfold orM. destruct (Js.truthy n) eqn:Hn; simpl; rewrite ?Hn; [eauto|].
    destruct (Js.truthy l) eqn:Hl; simpl; rewrite ?Hl; eauto.
  - rewrite Hau. eauto.
Qed.

Lemma json_item_total (now : Z) (url : string) (it : value) :
  is_object_like it → ∃ o, json_item now url it = Ok o.
Proof.
  intros Hit. unfold json_item.
  repeat match goal with
         | |- context [Js.prop it ?k] =>
             let w := fresh "w" in
             destruct (prop_object_like it k Hit) as [w ->]; simpl
         end.
  destruct (json_enclosure_total it Hit) as [e ->].
  destruct (json_author_total it Hit) as [a ->].
  unfold orM. repeat (match goal with
                      | |- context [if Js.truthy ?v then _ else _] => destruct (Js.truthy v)
                      end; simpl).
  all: eauto.
Qed.

Lemma json_item_raises (now : Z) (url : string) (it : value) (o : obj) :
  json_item now url it = Ok o → is_object_like it.
Proof. destruct it; simpl; intros H; try discriminate; split; done. Qed.

Lemma json_items_object_like (now : Z) (url : string) (l : list value) (items' : list obj) :
  mapM (json_item now url) l = Ok items' → Forall is_object_like l.
Proof.
  intros Hm. apply mapM_Ok_Forall2 in Hm.
  induction Hm as [|it o l l' Hit _ IH]; constructor; [|done].
  by eapply json_item_raises.
Qed.

Lemma tryParseJSONFeed_Some (now : Z) (url : string) (f : fetched) :
  is_Some (tryParseJSONFeed now url f)
  ↔ ∃ l, json_with_items f l ∧ Forall is_object_like l.
Proof.
  unfold tryParseJSONFeed, tryParseJSONFeed_try, json_with_items. split.
  - intros [jf H]. destruct f as [|res]; simpl in H; [discriminate|].
    destruct (indicates_json _) eqn:Hct; simpl in H; [|discriminate].
    destruct (res_json res) as [data|] eqn:Hdata; simpl in H; [|discriminate].
    destruct (Js.truthy data) eqn:Ht; simpl in H; [|discriminate].
    destruct (prop_truthy data "items" Ht) as [its Hits]. rewrite Hits in H. simpl in H.
    destruct its as [| | | | |l|]; simpl in H; try discriminate.
    exists l. split; [by exists res, data|].
    destruct (mapM (json_item now url) l) as [items'|e] eqn:Hm; simpl in H.
    + by eapply json_items_object_like.
    + destruct (Js.prop data "title"); discriminate.
  - intros (l & (res & data & -> & Hct & Hdata & Hits) & Hl). simpl.
    rewrite Hct, Hdata. simpl.
    assert (Ht : Js.truthy data = true) by (destruct data; simpl in *; done).
    rewrite Ht, Hits. simpl.
    destruct (mapM_total (json_item now url) l) as [items' ->].
    { eapply Forall_impl; [exact Hl|]. intros it. apply json_item_total. }
    simpl. destruct (prop_truthy data "title" Ht) as [t ->]. simpl. eauto.
Qed.

(** Two responses that declare a JSON media type and have an items
    array, for which the JSON interpretation is given up and the
    source goes through the XML path.  The first declares
    application/json and its items array holds null.  The second
    declares application/feed+json, the media type of JSON Feed,
    which the feed route of index.js itself declares: the test of
    tryParseJSONFeed looks for application/json or text/json in the
    content type and finds neither. *)
Lemma json_branch_counterexample :
  (json_with_items Sample.null_item_response [VNull]
   ∧ tryParseJSONFeed Sample.clock (url Sample.null_item_source) Sample.null_item_response
     = None
   ∧ collect_source Sample.clock Sample.null_item_source
     = [tag (url Sample.null_item_source) Sample.rss_item])
  ∧ (declared_with_items Sample.feed_json_response "application/feed+json"
       Sample.json_entries
     ∧ Forall is_object_like Sample.json_entries
     ∧ tryParseJSONFeed Sample.clock (url Sample.feed_json_source) Sample.feed_json_response
       = None
     ∧ collect_source Sample.clock Sample.feed_json_source
       = [tag (url Sample.feed_json_source) Sample.rss_item]).
Proof.
  split.
  - split; [|split; by vm_compute].
    eexists _, _. repeat split; reflexivity.
  - split; [|split; [|split; by vm_compute]].
    + eexists _, _. repeat split; reflexivity.
    + repeat constructor; done.
Qed.

Lemma tryParseJSONFeed_items (now : Z) (url : string) (f : fetched) (jf : jsonfeed) :
  tryParseJSONFeed now url f = Some jf →
  ∃ l, json_with_items f l ∧ mapM (json_item now url) l = Ok (jf_items jf).
Proof.
  unfold tryParseJSONFeed, tryParseJSONFeed_try, json_with_items. intros H.
  destruct f as [|res]; simpl in H; [discriminate|].
  destruct (indicates_json _) eqn:Hct; simpl in H; [|discriminate].
  destruct (res_json res) as [data|] eqn:Hdata; simpl in H; [|discriminate].
  destruct (Js.truthy data) eqn:Ht; simpl in H; [|discriminate].
  destruct (prop_truthy data "items" Ht) as [its Hits]. rewrite Hits in H. simpl in H.
  destruct its as [| | | | |l|]; simpl in H; try discriminate.
  exists l. split; [by exists res, data|].
  destruct (mapM (json_item now url) l) as [items'|e]; simpl in H.
  - destruct (prop_truthy data "title" Ht) as [t Htitle]. rewrite Htitle in H.
    simpl in H. by injection H as <-.
  - destruct (Js.prop data "title"); discriminate.
Qed.

Lemma json_with_items_unique (f : fetched) (l l' : list value) :
  json_with_items f l → json_with_items f l' → l = l'.
Proof.
  intros (res & data & -> & _ & Hd & Hi) (res' & data' & [= <-] & _ & Hd' & Hi').
  rewrite Hd in Hd'. injection Hd' as <-. rewrite Hi in Hi'. by injection Hi'.
Qed.

(** C6, amended.  The JSON-Feed interpretation is applied exactly when
    the declared content type of the response contains application/json
    or text/json, its body parses to a value with a top-level items
    array, and no element of that array is null: the source then
    contributes one raw item for each element of the array.  In every
    other case the JSON interpretation is given up and the source goes
    through the RSS/Atom XML path, contributing what that path
    yields. *)
Theorem json_branch_selection (now : Z) (s : feed_source) :
  (∀ l, json_with_items (json_fetch s) l → Forall is_object_like l →
        ∃ jf, tryParseJSONFeed now (url s) (json_fetch s) = Some jf
              ∧ length (jf_items jf) = length l
              ∧ collect_source now s = tag (url s) <$> jf_items jf)
  ∧ ((¬ ∃ l, json_with_items (json_fetch s) l ∧ Forall is_object_like l) →
     tryParseJSONFeed now (url s) (json_fetch s) = None
     ∧ collect_source now s
       = match xml_parse s with
         | Parsed its => tag (url s) <$> its
         | ParseRejects => []
         end).
Proof.
  split.
  - intros l Hl Hobj.
    destruct (proj2 (tryParseJSONFeed_Some now (url s) (json_fetch s))) as [jf Hjf]; [eauto|].
    exists jf. split; [done|].
    destruct (tryParseJSONFeed_items _ _ _ _ Hjf) as (l' & Hl' & Hm).
    rewrite (json_with_items_unique _ _ _ Hl Hl').
    split.
    + apply mapM_Ok_Forall2, Forall2_length in Hm. done.
    + unfold collect_source. by rewrite Hjf.
  - intros Hnot.
    destruct (tryParseJSONFeed now (url s) (json_fetch s)) as [jf|] eqn:Hjf.
    + exfalso. apply Hnot.
      apply (proj1 (tryParseJSONFeed_Some now (url s) (json_fetch s))).
      rewrite Hjf. by eexists.
    + split; [done|]. unfold collect_source. by rewrite Hjf.
Qed.

Lemma json_branch_selection_witness :
  (∃ jf, tryParseJSONFeed Sample.clock (url Sample.json_source) (json_fetch Sample.json_source)
         = Some jf
         ∧ length (jf_items jf) = length Sample.json_entries
         ∧ collect_source Sample.clock Sample.json_source
           = tag (url Sample.json_source) <$> jf_items jf)
  ∧ (tryParseJSONFeed Sample.clock (url Sample.rss_source) (json_fetch Sample.rss_source) = None
     ∧ collect_source Sample.clock Sample.rss_source
       = [tag (url Sample.rss_source) Sample.rss_item]).
Proof.
  split.
  - refine (proj1 (json_branch_selection Sample.clock Sample.json_source)
              Sample.json_entries _ _).
    + eexists _, _. repeat split; reflexivity.
    + repeat constructor; done.
  - refine (proj2 (json_branch_selection Sample.clock Sample.rss_source) _).
    intros (l & (res & data & [= <-] & Hct & _) & _). by vm_compute in Hct.
Defined.

(** ** C7 and C8: the enclosure comes first *)

Lemma enclosure_is_typed (prefix : string) (item : obj) (e : obj) :
  enclosure_typed prefix item e →
  Js.truthy (Js.lookup_prop "url" e) = true →
  enclosure_is prefix item = Ok true.
Proof.
  intros (He & t & Ht & Hp) Hu. unfold enclosure_is.
  rewrite He. simpl. rewrite Hu, Ht. simpl.
  unfold Js.or. simpl.
  destruct (String.eqb_spec t "") as [->|_]; simpl; f_equal; exact Hp.
Qed.

(** An image enclosure that carries no URL is passed over, and the
    image scraped from the content is returned. *)
Lemma pickImage_counterexample :
  let e := [("url", VStr ""); ("type", VStr "image/png")] in
  enclosure_typed "image/" (Sample.pictured "") e
  ∧ has_img_tag (Sample.pictured "")
  ∧ pickImage (Sample.pictured "") = Ok (VStr "http://i/scraped.png")
  ∧ Js.lookup_prop "url" e = VStr "".
Proof.
  repeat split; try reflexivity.
  - by eexists.
  - by eexists.
Qed.

(** C7, amended.  For every raw item that has both an enclosure with
    a non-empty URL whose media type begins with image/ and an img tag
    with a src in its HTML content, pickImage returns the URL of the
    enclosure, not the one scraped from the content. *)
Theorem pickImage_prefers_enclosure (item : obj) (e : obj) :
  enclosure_typed "image/" item e →
  Js.truthy (Js.lookup_prop "url" e) = true →
  has_img_tag item →
  pickImage item = Ok (Js.lookup_prop "url" e).
Proof.
  intros He Hu _. unfold pickImage.
  rewrite (enclosure_is_typed _ _ _ He Hu). simpl.
  destruct He as [-> _]. reflexivity.
Qed.

Lemma pickImage_prefers_enclosure_witness :
  let item := Sample.pictured "http://i/enclosed.png" in
  let e := [("url", VStr "http://i/enclosed.png"); ("type", VStr "image/png")] in
  (enclosure_typed "image/" item e
   ∧ Js.truthy (Js.lookup_prop "url" e) = true
   ∧ has_img_tag item)
  ∧ pickImage item = Ok (VStr "http://i/enclosed.png").
Proof.
  assert (He : enclosure_typed "image/" (Sample.pictured "http://i/enclosed.png")
                 [("url", VStr "http://i/enclosed.png"); ("type", VStr "image/png")])
    by (split; [reflexivity|by eexists]).
  assert (Hi : has_img_tag (Sample.pictured "http://i/enclosed.png")) by (by eexists).
  split; [done|].
  exact (pickImage_prefers_enclosure _ _ He eq_refl Hi).
Defined.

(** A video enclosure that carries no URL is passed over, and the
    watch-page link is returned with the type text/html. *)
Lemma pickVideo_counterexample :
  let e := [("url", VStr ""); ("type", VStr "video/mp4")] in
  enclosure_typed "video/" (Sample.filmed "") e
  ∧ watch_link (Sample.filmed "")
  ∧ pickVideo (Sample.filmed "")
    = Ok (Some {| m_url := VStr "https://www.youtube.com/watch?v=1";
                  m_type := VStr "text/html" |}).
Proof.
  repeat split; try reflexivity.
  - by eexists.
  - by eexists.
Qed.

(** C8, amended.  For every raw item that has both an enclosure with
    a non-empty URL whose media type begins with video/ and a link
    matching the watch-page pattern, pickVideo returns the URL of the
    enclosure with its declared media type, not the link with the type
    text/html. *)
Theorem pickVideo_prefers_enclosure (item : obj) (e : obj) :
  enclosure_typed "video/" item e →
  Js.truthy (Js.lookup_prop "url" e) = true →
  watch_link item →
  pickVideo item
  = Ok (Some {| m_url := Js.lookup_prop "url" e; m_type := Js.lookup_prop "type" e |}).
Proof.
  intros He Hu _. unfold pickVideo.
  rewrite (enclosure_is_typed _ _ _ He Hu). simpl.
  destruct He as [-> _]. reflexivity.
Qed.

Lemma pickVideo_prefers_enclosure_witness :
  let item := Sample.filmed "http://v/film.mp4" in
  let e := [("url", VStr "http://v/film.mp4"); ("type", VStr "video/mp4")] in
  (enclosure_typed "video/" item e
   ∧ Js.truthy (Js.lookup_prop "url" e) = true
   ∧ watch_link item)
  ∧ pickVideo item
    = Ok (Some {| m_url := VStr "http://v/film.mp4"; m_type := VStr "video/mp4" |}).
Proof.
  assert (He : enclosure_typed "video/" (Sample.filmed "http://v/film.mp4")
                 [("url", VStr "http://v/film.mp4"); ("type", VStr "video/mp4")])
    by (split; [reflexivity|by eexists]).
  assert (Hl : watch_link (Sample.filmed "http://v/film.mp4")) by (by eexists).
  split; [done|].
  exact (pickVideo_prefers_enclosure _ _ He eq_refl Hl).
Defined.

(** ** C9: rendering, up to the serializers *)

Lemma mapM_snoc_Ok {A B} (f : A → result B) (l : list A) (x : A) (out : list B) :
  mapM f (l ++ [x]) = Ok out →
  ∃ out' y, mapM f l = Ok out' ∧ f x = Ok y ∧ out = out' ++ [y].
Proof.
  revert out. induction l as [|a l IH]; intros out; simpl.
  - intros H. apply bind_Ok in H as (y & Hy & H).
    injection H as <-. exists [], y. by rewrite Hy.
  - intros H. apply bind_Ok in H as (b & Hb & H).
    apply bind_Ok in H as (bs & Hbs & [= <-]).
    destruct (IH _ Hbs) as (out' & y & Hl & Hx & ->).
    exists (b :: out'), y. rewrite Hb. simpl. rewrite Hl. by simpl.
Qed.

Lemma mapM_app_Ok {A B} (f : A → result B) (l1 l2 : list A) (o1 o2 : list B) :
  mapM f l1 = Ok o1 → mapM f l2 = Ok o2 → mapM f (l1 ++ l2) = Ok (o1 ++ o2).
Proof.
  revert o1. induction l1 as [|a l1 IH]; intros o1; simpl.
  - by intros [= <-].
  - intros H H2. apply bind_Ok in H as (b & Hb & H).
    apply bind_Ok in H as (bs & Hbs & [= <-]).
    rewrite Hb. simpl. by rewrite (IH _ Hbs H2).
Qed.

Lemma join_values_strings (sep : string) (l : list string) :
  Js.join_values sep (VStr <$> l) = Ok (Js.join sep l).
Proof.
  unfold Js.join_values.
  assert (H : mapM (fun e => match e with
                             | VUndef | VNull => Ok ""%string
                             | _ => Js.ToString e
                             end) (VStr <$> l) = Ok l).
  { induction l as [|x l IH]; [done|]. rewrite fmap_cons. simpl. by rewrite IH. }
  by rewrite H.
Qed.

Lemma join_values_total (sep : string) (l : list value) :
  Forall is_string l → ∃ s, Js.join_values sep l = Ok s.
Proof.
  intros H. unfold Js.join_values.
  edestruct (mapM_total (fun e => match e with
                                  | VUndef | VNull => Ok ""%string
                                  | _ => Js.ToString e
                                  end) l) as [parts ->]; [|simpl; eauto].
  eapply Forall_impl; [exact H|]. intros v [s ->]. simpl. eauto.
Qed.

Lemma ToString_text (v : value) (s : string) : Js.ToString v = Ok s → Js.text v = s.
Proof. unfold Js.text. by intros ->. Qed.

(** The blocks of an item: the media blocks, which are strings, the
    description when it is truthy, and the attribution line. *)
Lemma contentBlocks_Ok (it : Item) (blocks : list value) :
  contentBlocks it = Ok blocks →
  ∃ media_blocks,
    blocks = (VStr <$> media_blocks)
             ++ (if Js.truthy (description it) then [description it] else [])
             ++ [VStr ("<p><small>Source: " +:+ Js.text (source it) +:+ "</small></p>")]
    ∧ (imageUrl it = VNull → video it = None → media_blocks = []).
Proof.
  unfold contentBlocks. intros H.
  apply bind_Ok in H as (image & Hi & H).
  apply bind_Ok in H as (vblocks & Hv & H).
  apply bind_Ok in H as (src & Hs & H).
  injection H as <-. rewrite (ToString_text _ _ Hs).
  assert (Himg : ∃ i, image = VStr <$> i ∧ (imageUrl it = VNull → i = [])).
  { destruct (Js.truthy (imageUrl it)) eqn:Ht.
    - apply bind_Ok in Hi as (s & _ & Hi). injection Hi as <-.
      eexists [_]. split; [reflexivity|]. intros Hn. by rewrite Hn in Ht.
    - injection Hi as <-. by exists []. }
  assert (Hvid : ∃ v, vblocks = VStr <$> v ∧ (video it = None → v = [])).
  { destruct (video it) as [m|].
    - apply bind_Ok in Hv as (direct & _ & Hv). apply bind_Ok in Hv as (s & _ & Hv).
      injection Hv as <-. eexists [_]. split; [reflexivity|]. done.
    - injection Hv as <-. by exists []. }
  destruct Himg as (i & -> & Hi'), Hvid as (v & -> & Hv').
  exists (i ++ v). split.
  - by rewrite fmap_app, <- !app_assoc.
  - intros Hn Hnv. by rewrite (Hi' Hn), (Hv' Hnv).
Qed.

Lemma contentBlocks_total (it : Item) :
  well_formed it → ∃ blocks, contentBlocks it = Ok blocks.
Proof.
  intros Hw. unfold contentBlocks.
  assert (Hi : ∃ image,
             (if Js.truthy (imageUrl it)
              then src ← Js.ToString (imageUrl it);
                   Ok [VStr ("<p><img src=" ++ dq ++ src ++ dq
                               ++ " alt=" ++ dq ++ dq ++ " /></p>")]
              else Ok []) = Ok image).
  { destruct (wf_imageUrl it Hw) as [->|[s ->]]; simpl; [eauto|].
    destruct (negb _); eauto. }
  destruct Hi as [image ->]. simpl.
  pose proof (wf_video it Hw) as Hv.
  destruct (wf_source it Hw) as [src ->].
  destruct (video it) as [v|]; simpl in *; [|eauto].
  destruct Hv as [[u ->] [t ->]]. simpl. eauto.
Qed.

Lemma primary_enclosure_total (it : Item) :
  well_formed it → ∃ e, primary_enclosure it = Ok e.
Proof.
  intros Hw. unfold primary_enclosure.
  destruct (video it); [eauto|].
  destruct (Js.truthy (enclosure it)) eqn:He.
  - destruct (prop_truthy _ "url" He) as [u ->].
    destruct (prop_truthy _ "type" He) as [t ->]. simpl. eauto.
  - destruct (Js.truthy (imageUrl it)); eauto.
Qed.

Lemma render_item_shows (it : Item) (e : entry) :
  render_item it = Ok e → entry_of e = shown_as it.
Proof.
  unfold render_item. intros H. inv_bind H.
  by injection H as <-.
Qed.

(** The content of an item without media: no media block. *)
Lemma plain_join (it : Item) (content : string) :
  textual (description it) →
  Js.join_values nl
    ((if Js.truthy (description it) then [description it] else [])
       ++ [VStr ("<p><small>Source: " +:+ Js.text (source it) +:+ "</small></p>")])
  = Ok content →
  content = plain_content it.
Proof.
  unfold plain_content.
  destruct (description it) as [| | | |d| |]; simpl; try done.
  - by intros _ [= <-].
  - by intros _ [= <-].
  - destruct d as [|c d]; simpl; by intros _ [= <-].
Qed.

Lemma summary_textual (d w : value) : summary d = Ok w → textual d.
Proof. by destruct d. Qed.

Lemma render_item_includes (it : Item) (e : entry) :
  render_item it = Ok e → includes_item it e.
Proof.
  intros H. split; [by apply render_item_shows|].
  unfold render_item in H.
  apply bind_Ok in H as (blocks & Hb & H).
  apply bind_Ok in H as (d & Hd & H).
  apply bind_Ok in H as (content & Hc & H).
  apply bind_Ok in H as (enc & Henc & H).
  injection H as <-. simpl.
  split; [by intros ->|].
  intros (Hi & Hv & He). split.
  - unfold primary_enclosure in Henc. rewrite Hv, He, Hi in Henc. by injection Henc.
  - apply contentBlocks_Ok in Hb as (media_blocks & -> & Hm).
    rewrite (Hm Hi Hv) in Hc. simpl in Hc.
    eapply plain_join; [by eapply summary_textual|exact Hc].
Qed.

Lemma render_item_total (it : Item) :
  well_formed it → ∃ e, render_item it = Ok e.
Proof.
  intros Hw. unfold render_item.
  destruct (contentBlocks_total it Hw) as [blocks Hb]. rewrite Hb. simpl.
  destruct (wf_description it Hw) as [d Hd]. rewrite Hd. simpl.
  destruct (contentBlocks_Ok _ _ Hb) as (media_blocks & -> & _).
  edestruct (join_values_total nl) as [content ->].
  { apply Forall_app. split; [apply Forall_fmap, Forall_true; by eexists|].
    apply Forall_app. split; [|repeat constructor; by eexists].
    rewrite Hd. destruct (Js.truthy (VStr d)); repeat constructor. by eexists. }
  simpl.
  destruct (primary_enclosure_total it Hw) as [e ->]. simpl. eauto.
Qed.

Lemma render_items_show (l : list Item) (entries : list entry) :
  mapM render_item l = Ok entries → entry_of <$> entries = shown_as <$> l.
Proof.
  intros H. apply mapM_Ok_Forall2 in H.
  induction H as [|it e l entries Hit _ IH]; [done|].
  rewrite !fmap_cons, IH. f_equal. by apply render_item_shows.
Qed.

Lemma feed_Ok (CACHE : Cache) (fd : Feed) :
  feed CACHE = Ok fd →
  mapM render_item (items CACHE) = Ok (f_entries fd) ∧ f_updated fd = lastBuild CACHE.
Proof.
  unfold feed. intros H. apply bind_Ok in H as (es & Hm & H). by injection H as <-.
Qed.

Lemma feed_includes (CACHE : Cache) (fd : Feed) :
  feed CACHE = Ok fd → Forall2 includes_item (items CACHE) (f_entries fd).
Proof.
  intros H. apply feed_Ok in H as [Hm _]. apply mapM_Ok_Forall2 in Hm.
  eapply Forall2_impl; [exact Hm|]. apply render_item_includes.
Qed.

(** buildFeeds returns exactly when its loop goes through and the
    three serializers return on the Feed the loop has built. *)
Lemma buildFeeds_Ok (pkg : feed_package) (CACHE : Cache) (f : feeds) :
  buildFeeds pkg CACHE = Ok f ↔ ∃ fd, feed CACHE = Ok fd ∧ documents_of pkg fd f.
Proof.
  unfold buildFeeds, serialize, documents_of. split.
  - intros H. apply bind_Ok in H as (fd & Hfd & H). exists fd. split; [done|].
    apply bind_Ok in H as (r & Hr & H). apply bind_Ok in Hr as (tr & Hr & [= <-]).
    apply bind_Ok in H as (a & Ha & H). apply bind_Ok in Ha as (ta & Ha & [= <-]).
    apply bind_Ok in H as (j & Hj & H). apply bind_Ok in Hj as (tj & Hj & [= <-]).
    by injection H as <-.
  - intros (fd & -> & (Hrf & Hrd & Hr) & (Haf & Had & Ha) & (Hjf & Hjd & Hj)). simpl.
    rewrite Hr, Ha, Hj. simpl. destruct f as [[] [] []]. simpl in *. by subst.
Qed.

Lemma buildFeeds_serializable (pkg : feed_package) (CACHE : Cache) (fd : Feed) :
  feed CACHE = Ok fd → serializable pkg fd →
  ∃ f, buildFeeds pkg CACHE = Ok f ∧ documents_of pkg fd f.
Proof.
  intros Hfd ((r & Hr) & (a & Ha) & (j & Hj)).
  exists {| rss := {| doc_format := RSS2; doc_feed := fd; doc_text := r |};
            atom := {| doc_format := Atom1; doc_feed := fd; doc_text := a |};
            json := {| doc_format := JSON1; doc_feed := fd; doc_text := j |} |}.
  assert (Hd : documents_of pkg fd
                 {| rss := {| doc_format := RSS2; doc_feed := fd; doc_text := r |};
                    atom := {| doc_format := Atom1; doc_feed := fd; doc_text := a |};
                    json := {| doc_format := JSON1; doc_feed := fd; doc_text := j |} |})
    by (unfold documents_of; simpl; done).
  split; [|done]. apply buildFeeds_Ok. eauto.
Qed.

(** With serializers that read the address of an enclosure as an
    absolute URL, buildFeeds raises on a well-formed Cache: one Item
    whose image has a relative address.  Nothing in buildFeeds or in
    the routes catches what a serializer raises. *)
Lemma buildFeeds_raises_counterexample :
  Forall well_formed (items Sample.relative_cache)
  ∧ buildFeeds Sample.strict_package Sample.relative_cache = Throw (TypeError "Invalid URL").
Proof.
  split; [|by vm_compute].
  constructor; [|constructor].
  split; simpl; try (by eexists); try done; try (by left); try (by right; eexists).
Qed.

(** C9, amended.  For every well-formed Cache, the empty one and one
    whose Items have null imageUrl, video and enclosure and an empty
    authorName included, the loop of buildFeeds completes without
    raising and builds one Feed, dated as the Cache, that holds an
    entry for every Item of the Cache, in the order of the Cache; the
    entry of an Item with an empty authorName has no author, and the
    entry of an Item without media has no enclosure and no media
    block.  buildFeeds then returns exactly when the three
    serializers of the feed package return on that Feed, and the
    three documents are their serializations of it, RSS 2.0, Atom 1.0
    and JSON Feed. *)
Theorem buildFeeds_reaches_serializers (pkg : feed_package) (CACHE : Cache) :
  Forall well_formed (items CACHE) →
  ∃ fd,
    feed CACHE = Ok fd
    ∧ f_updated fd = lastBuild CACHE
    ∧ Forall2 includes_item (items CACHE) (f_entries fd)
    ∧ (serializable pkg fd → ∃ f, buildFeeds pkg CACHE = Ok f ∧ documents_of pkg fd f)
    ∧ (∀ f, buildFeeds pkg CACHE = Ok f → documents_of pkg fd f ∧ serializable pkg fd).
Proof.
  intros Hw.
  destruct (mapM_total render_item (items CACHE)) as [entries Hm].
  { eapply Forall_impl; [exact Hw|]. apply render_item_total. }
  assert (Hfd : feed CACHE = Ok {| f_id := siteUrl ++ "/";
                                   f_title := "Multi-Source Feed";
                                   f_link := siteUrl ++ "/";
                                   f_updated := lastBuild CACHE;
                                   f_entries := entries |})
    by (unfold feed; by rewrite Hm).
  eexists. split; [exact Hfd|]. split; [done|]. split; [by apply feed_includes|].
  split; [by apply buildFeeds_serializable|].
  intros f Hf. apply buildFeeds_Ok in Hf as (fd' & Hfd' & Hd).
  rewrite Hfd in Hfd'. injection Hfd' as <-. split; [done|].
  destruct Hd as ((_ & _ & Hr) & (_ & _ & Ha) & (_ & _ & Hj)).
  unfold serializable. repeat split; by eexists.
Qed.

Lemma buildFeeds_reaches_serializers_witness :
  let CACHE := {| items := [Sample.no_media_item]; lastBuild := Sample.clock |} in
  Forall well_formed (items CACHE)
  ∧ ∃ fd,
      feed CACHE = Ok fd
      ∧ f_updated fd = lastBuild CACHE
      ∧ Forall2 includes_item (items CACHE) (f_entries fd)
      ∧ (serializable Sample.strict_package fd →
         ∃ f, buildFeeds Sample.strict_package CACHE = Ok f
              ∧ documents_of Sample.strict_package fd f)
      ∧ (∀ f, buildFeeds Sample.strict_package CACHE = Ok f →
              documents_of Sample.strict_package fd f
              ∧ serializable Sample.strict_package fd).
Proof.
  assert (Hw : Forall well_formed [Sample.no_media_item]).
  { constructor; [|constructor].
    split; simpl; try (by eexists); try done; by left. }
  split; [exact Hw|].
  exact (buildFeeds_reaches_serializers Sample.strict_package
           {| items := [Sample.no_media_item]; lastBuild := Sample.clock |} Hw).
Defined.

(** On that Cache the strict serializers return, and so does
    buildFeeds; the one entry has no enclosure and its content is the
    attribution line alone. *)
Example buildFeeds_no_media :
  ∃ f, buildFeeds Sample.strict_package
         {| items := [Sample.no_media_item]; lastBuild := Sample.clock |} = Ok f
       ∧ doc_text (rss f) = "<rss/>"%string
       ∧ (e_enclosure <$> entries (json f)) = [None]
       ∧ (e_content <$> entries (atom f))
         = ["<p><small>Source: https://one.example/rss</small></p>"%string].
Proof. eexists. split; [by vm_compute|]. repeat split. Qed.

(** ** C10: the media type of a video *)

Lemma enclosure_is_true (prefix : string) (item : obj) :
  prefix ≠ "" →
  enclosure_is prefix item = Ok true →
  ∃ t, Js.prop (get item "enclosure") "type" = Ok (VStr t)
       ∧ String.prefix prefix t = true
       ∧ is_Some (match Js.prop (get item "enclosure") "url" with
                  | Ok u => Some u
                  | Throw _ => None
                  end).
Proof.
  intros Hp. unfold enclosure_is.
  destruct (Js.truthy (get item "enclosure")) eqn:He; [|discriminate].
  destruct (prop_truthy _ "url" He) as [u Hu].
  destruct (prop_truthy _ "type" He) as [t Ht].
  rewrite Hu, Ht. simpl.
  destruct (Js.truthy u); [|discriminate].
  unfold Js.or. destruct (Js.truthy t) eqn:Htt.
  - destruct t; simpl; try discriminate. intros [= Hs]. eauto.
  - simpl. intros [= Hs]. destruct prefix; [done|discriminate].
Qed.

Lemma scanned_renderable (u ext : string) :
  renderable {| m_url := VStr u; m_type := VStr ("video/" +:+ ext) |}.
Proof.
  exists ("video/" +:+ ext). simpl.
  split; [done|]. split; [done|].
  split; [left; by destruct ext|]. eauto.
Qed.

(** C10.  Whenever pickVideo returns a media reference, its media
    type is a non-empty string that begins with video/ or is
    text/html, so the test the renderer makes on it, whether it
    starts with video/, does not raise. *)
Theorem pickVideo_type (item : obj) (m : media) :
  pickVideo item = Ok (Some m) →
  ∃ t, m_type m = VStr t
       ∧ t ≠ ""
       ∧ (String.prefix "video/" t = true ∨ t = "text/html")
       ∧ ∃ direct, Js.startsWith (m_type m) "video/" = Ok direct.
Proof.
  change (pickVideo item = Ok (Some m) → renderable m).
  unfold pickVideo. intros H.
  apply bind_Ok in H as (b & Hb & H). destruct b.
  - apply enclosure_is_true in Hb as (t & Ht & Hp & _); [|done].
    apply bind_Ok in H as (u & _ & H). rewrite Ht in H. simpl in H.
    injection H as <-. exists t. simpl.
    split; [done|]. split; [by destruct t|]. split; [by left|]. eauto.
  - match type of H with
    | match ?scan with Some _ => _ | None => _ end = _ => destruct scan as [[u ext]|]
    end.
    + injection H as <-. apply scanned_renderable.
    + apply bind_Ok in H as (y & _ & H). destruct y.
      * injection H as <-. exists "text/html"%string. simpl.
        split; [done|]. split; [done|]. split; [by right|]. eauto.
      * apply bind_Ok in H as (mv & _ & H). destruct mv as [[u ext]|]; [|discriminate].
        injection H as <-. apply scanned_renderable.
Qed.

Lemma pickVideo_type_witness :
  let item := Sample.filmed "" in
  let m := {| m_url := VStr "https://www.youtube.com/watch?v=1"; m_type := VStr "text/html" |} in
  pickVideo item = Ok (Some m)
  ∧ ∃ t, m_type m = VStr t
         ∧ t ≠ ""
         ∧ (String.prefix "video/" t = true ∨ t = "text/html")
         ∧ ∃ direct, Js.startsWith (m_type m) "video/" = Ok direct.
Proof.
  split; [reflexivity|].
  exact (pickVideo_type (Sample.filmed "")
           {| m_url := VStr "https://www.youtube.com/watch?v=1"; m_type := VStr "text/html" |}
           eq_refl).
Defined.

(** * More of the program *)

(** ** Strings *)

Lemma append_cons (c : ascii) (a b : string) : String c a +:+ b = String c (a +:+ b).
Proof. reflexivity. Qed.

Lemma append_assoc (a b c : string) : (a +:+ b) +:+ c = a +:+ (b +:+ c).
Proof. induction a as [|x a IH]; [done|]. rewrite !append_cons. by rewrite IH. Qed.

Lemma append_nil_r (a : string) : a +:+ "" = a.
Proof. induction a as [|x a IH]; [done|]. rewrite append_cons. by rewrite IH. Qed.

Lemma length_append (a b : string) :
  String.length (a +:+ b) = (String.length a + String.length b)%nat.
Proof. induction a as [|x a IH]; [done|]. rewrite append_cons. simpl. by rewrite IH. Qed.

Lemma str_take_length_append (a b : string) : Js.str_take (String.length a) (a +:+ b) = a.
Proof.
  induction a as [|x a IH]; [by destruct b|].
  rewrite append_cons. simpl. by rewrite IH.
Qed.

Lemma str_take_append (a b : string) :
  Js.str_take (String.length (a +:+ b) - String.length b) (a +:+ b) = a.
Proof.
  rewrite length_append.
  replace (String.length a + String.length b - String.length b)%nat
    with (String.length a) by lia.
  apply str_take_length_append.
Qed.

Lemma str_forall_append (p : ascii → bool) (a b : string) :
  str_forall p (a +:+ b) = str_forall p a && str_forall p b.
Proof.
  induction a as [|x a IH]; [done|].
  rewrite append_cons. simpl. rewrite IH. by destruct (p x).
Qed.

(** ** The matchers *)

Section backtracking.

Context {A : Type} (ok : ascii → bool) (k : string → option A).

(** A match of a starred class hands the continuation a suffix, past
    a run of the class. *)
Lemma star_inv (s : string) (x : A) :
  Js.star ok k s = Some x →
  ∃ run r, s = run +:+ r ∧ str_forall ok run = true ∧ k r = Some x.
Proof.
  induction s as [|c s IH]; simpl.
  - intros H. by exists "", "".
  - destruct (ok c) eqn:Hc.
    + destruct (Js.star ok k s) as [y|] eqn:Hs.
      * intros [= <-]. destruct (IH eq_refl) as (run & r & -> & Hrun & Hk).
        exists (String c run), r. simpl. by rewrite Hc, Hrun.
      * intros H. by exists "", (String c s).
    + intros H. by exists "", (String c s).
Qed.

Lemma plus_inv (s : string) (x : A) :
  Js.plus ok k s = Some x →
  ∃ c run r, s = String c (run +:+ r) ∧ ok c = true ∧ str_forall ok run = true
             ∧ k r = Some x.
Proof.
  destruct s as [|c s]; simpl; [discriminate|].
  destruct (ok c) eqn:Hc; [|discriminate].
  intros H. apply star_inv in H as (run & r & -> & Hrun & Hk).
  by exists c, run, r.
Qed.

End backtracking.

Lemma search_inv {A} (m : string → option A) (s : string) (x : A) :
  Js.search m s = Some x → ∃ pre r, s = pre +:+ r ∧ m r = Some x.
Proof.
  induction s as [|c s IH]; simpl.
  - destruct (m "") eqn:Hm; [|discriminate]. intros [= <-]. by exists "", "".
  - destruct (m (String c s)) eqn:Hm.
    + intros [= <-]. by exists "", (String c s).
    + intros H. destruct (IH H) as (pre & r & -> & Hr).
      by exists (String c pre), r.
Qed.

Lemma skip_ci_inv (lit s r : string) :
  Js.skip_ci lit s = Some r →
  ∃ pre, s = pre +:+ r ∧ Js.skip_ci lit pre = Some "".
Proof.
  revert s. induction lit as [|a lit IH]; intros s; simpl.
  - intros [= <-]. by exists "".
  - destruct s as [|b s]; [discriminate|].
    destruct (Ascii.eqb a (Js.lower b)) eqn:Hab; [|discriminate].
    intros H. destruct (IH s H) as (pre & -> & Hpre).
    exists (String b pre). simpl. by rewrite Hab.
Qed.

Lemma skip_ci_length (lit pre : string) :
  Js.skip_ci lit pre = Some "" → String.length pre = String.length lit.
Proof.
  revert pre. induction lit as [|a lit IH]; intros pre; simpl.
  - by intros [= ->].
  - destruct pre as [|b pre]; [discriminate|].
    destruct (Ascii.eqb a (Js.lower b)); [|discriminate].
    intros H. simpl. by rewrite (IH pre H).
Qed.

Lemma lower_url_char (b : ascii) : Js.url_char (Js.lower b) = true → Js.url_char b = true.
Proof.
  destruct b as [[|] [|] [|] [|] [|] [|] [|] [|]]; vm_compute; done.
Qed.

Lemma skip_ci_url_chars (lit pre : string) :
  Js.skip_ci lit pre = Some "" → str_forall Js.url_char lit = true →
  str_forall Js.url_char pre = true.
Proof.
  revert pre. induction lit as [|a lit IH]; intros pre; simpl.
  - by intros [= ->].
  - destruct pre as [|b pre]; [discriminate|].
    destruct (Ascii.eqb_spec a (Js.lower b)) as [->|]; [|discriminate].
    intros H Hlit. apply andb_true_iff in Hlit as [Hb Hlit].
    simpl. by rewrite (lower_url_char b Hb), (IH pre H Hlit).
Qed.

Lemma quoted_in_suffix (inner r pre : string) :
  quoted_in inner r → quoted_in inner (pre +:+ r).
Proof.
  intros (pre' & q1 & q2 & post & -> & H1 & H2).
  exists (pre +:+ pre'), q1, q2, post. by rewrite append_assoc.
Qed.

Lemma img_src_inv (s src : string) :
  Js.img_src s = Some src →
  src ≠ "" ∧ str_forall not_quote src = true ∧ quoted_in src s.
Proof.
  unfold Js.img_src.
  destruct (Js.skip_ci "src=" s) as [[|q r1]|] eqn:Hskip; try discriminate.
  destruct (Js.is_quote q) eqn:Hq; [|discriminate].
  intros H. apply plus_inv in H as (c & run & r2 & Hr1 & Hc & Hrun & Hk).
  destruct r2 as [|q2 r3]; [discriminate|].
  destruct (Js.is_quote q2) eqn:Hq2; [|discriminate].
  assert (Hcap : Js.str_take (String.length r1 - String.length (String q2 r3)) r1
                 = String c run).
  { rewrite Hr1. rewrite <- append_cons. apply str_take_append. }
  rewrite Hcap in Hk. injection Hk as <-.
  split; [done|]. split.
  - unfold not_quote. simpl. by rewrite Hc, Hrun.
  - apply skip_ci_inv in Hskip as (pre & -> & _).
    exists pre, q, q2, r3. rewrite Hr1. by rewrite <- append_cons.
Qed.

Lemma img_at_inv (s src : string) :
  Js.img_at s = Some src →
  src ≠ "" ∧ str_forall not_quote src = true ∧ quoted_in src s.
Proof.
  unfold Js.img_at.
  destruct (Js.skip_ci "<img" s) as [r|] eqn:Hskip; [|discriminate].
  intros H. apply plus_inv in H as (c & run & r' & -> & _ & _ & Hk).
  apply img_src_inv in Hk as (Hne & Hq & Hin).
  split; [done|]. split; [done|].
  apply skip_ci_inv in Hskip as (pre & -> & _).
  apply quoted_in_suffix. rewrite <- append_cons. by apply quoted_in_suffix.
Qed.

Lemma match_img_inv (html src : string) :
  Js.match_img html = Some src →
  src ≠ "" ∧ str_forall not_quote src = true ∧ quoted_in src html.
Proof.
  unfold Js.match_img. intros H.
  apply search_inv in H as (pre & r & -> & Hr).
  apply img_at_inv in Hr as (Hne & Hq & Hin).
  split; [done|]. split; [done|]. by apply quoted_in_suffix.
Qed.

Lemma skip_ci_append (lit pre r : string) :
  Js.skip_ci lit pre = Some "" → Js.skip_ci lit (pre +:+ r) = Some r.
Proof.
  revert pre. induction lit as [|a lit IH]; intros pre; simpl.
  - by intros [= ->].
  - destruct pre as [|b pre]; [discriminate|].
    rewrite append_cons.
    destruct (Ascii.eqb a (Js.lower b)); [|discriminate]. apply IH.
Qed.

Lemma video_ext_dot (r : string) :
  Js.video_ext (String "."%char r)
  = match Js.skip_ci "mp4" r with
    | Some rest => Some (Js.str_take 3 r, rest)
    | None =>
        match Js.skip_ci "webm" r with
        | Some rest => Some (Js.str_take 4 r, rest)
        | None => None
        end
    end.
Proof. reflexivity. Qed.

Lemma video_ext_inv (r ext rest : string) :
  Js.video_ext r = Some (ext, rest) →
  r = String "."%char (ext +:+ rest)
  ∧ video_extension ext
  ∧ str_forall Js.url_char ext = true.
Proof.
  destruct r as [|c r]; [discriminate|].
  destruct c as [[|] [|] [|] [|] [|] [|] [|] [|]]; try discriminate.
  rewrite video_ext_dot.
  destruct (Js.skip_ci "mp4" r) as [rest'|] eqn:Hmp4.
  - apply skip_ci_inv in Hmp4 as (pre & -> & Hpre).
    pose proof (skip_ci_length _ _ Hpre) as Hlen. simpl in Hlen.
    rewrite <- Hlen, str_take_length_append.
    intros [= <- <-].
    split; [done|]. split; [by left|].
    by apply (skip_ci_url_chars "mp4").
  - destruct (Js.skip_ci "webm" r) as [rest'|] eqn:Hwebm; [|discriminate].
    apply skip_ci_inv in Hwebm as (pre & -> & Hpre).
    pose proof (skip_ci_length _ _ Hpre) as Hlen. simpl in Hlen.
    rewrite <- Hlen, str_take_length_append.
    intros [= <- <-].
    split; [done|]. split; [by right|].
    by apply (skip_ci_url_chars "webm").
Qed.

Lemma video_body_inv (s r0 u ext : string) :
  match Js.skip_ci "://" r0 with
  | Some r1 =>
      Js.plus Js.url_char
        (fun r2 => match Js.video_ext r2 with
                   | Some (ext, rest) =>
                       Some (Js.str_take (String.length s - String.length rest) s, ext)
                   | None => None
                   end) r1
  | None => None
  end = Some (u, ext) →
  ∃ body rest,
    r0 = body +:+ String "."%char (ext +:+ rest)
    ∧ str_forall Js.url_char body = true
    ∧ video_extension ext
    ∧ str_forall Js.url_char ext = true
    ∧ u = Js.str_take (String.length s - String.length rest) s.
Proof.
  destruct (Js.skip_ci "://" r0) as [r1|] eqn:Hsep; [|discriminate].
  intros H. apply plus_inv in H as (c & run & r2 & -> & Hc & Hrun & Hk).
  destruct (Js.video_ext r2) as [[ext' rest]|] eqn:Hext; [|discriminate].
  injection Hk as <- <-.
  apply video_ext_inv in Hext as (-> & Hv & Hchars).
  apply skip_ci_inv in Hsep as (sep & -> & Hsep).
  exists (sep +:+ String c run), rest.
  split; [by rewrite append_assoc, append_cons|].
  split; [|done].
  rewrite str_forall_append. simpl. rewrite Hc, Hrun.
  by rewrite (skip_ci_url_chars "://" sep Hsep).
Qed.

Lemma video_at_inv (s u ext : string) :
  Js.video_at s = Some (u, ext) → video_link u ext ∧ ∃ post, s = u +:+ post.
Proof.
  unfold Js.video_at.
  destruct (Js.skip_ci "http" s) as [r|] eqn:Hhttp; [|discriminate].
  apply skip_ci_inv in Hhttp as (h & Hs & Hh).
  assert (Hbuild : ∀ mid body rest,
             s = (h +:+ mid) +:+ body +:+ String "."%char (ext +:+ rest) →
             str_forall Js.url_char mid = true →
             str_forall Js.url_char body = true →
             video_extension ext → str_forall Js.url_char ext = true →
             u = Js.str_take (String.length s - String.length rest) s →
             video_link u ext ∧ ∃ post, s = u +:+ post).
  { intros mid body rest Hdec Hmid Hbody Hv Hext Hu.
    assert (Hs' : s = (((h +:+ mid) +:+ body) +:+ String "."%char ext) +:+ rest).
    { rewrite Hdec at 1. by rewrite !append_assoc. }
    assert (Hu' : u = ((h +:+ mid) +:+ body) +:+ String "."%char ext).
    { rewrite Hu. rewrite Hs' at 2. rewrite Hs' at 1. apply str_take_append. }
    split; [|exists rest; by rewrite Hu'].
    rewrite Hu'. split.
    - exists ((mid +:+ body) +:+ String "."%char ext).
      rewrite !append_assoc. by apply skip_ci_append.
    - by eexists.
    - done.
    - rewrite !str_forall_append. simpl.
      by rewrite (skip_ci_url_chars "http" h Hh), Hmid, Hbody, Hext. }
  assert (Hplain : ∀ r0, s = h +:+ r0 →
             match Js.skip_ci "://" r0 with
             | Some r1 =>
                 Js.plus Js.url_char
                   (fun r2 => match Js.video_ext r2 with
                              | Some (ext, rest) =>
                                  Some (Js.str_take (String.length s - String.length rest) s,
                                        ext)
                              | None => None
                              end) r1
             | None => None
             end = Some (u, ext) →
             video_link u ext ∧ ∃ post, s = u +:+ post).
  { intros r0 Hr0 H.
    apply video_body_inv in H as (body & rest & -> & Hbody & Hv & Hext & Hu).
    apply (Hbuild "" body rest); try done. by rewrite append_nil_r. }
  destruct r as [|c r']; [discriminate|].
  destruct (Ascii.eqb_spec (Js.lower c) "s"%char) as [Hc|_]; [|by apply Hplain].
  match goal with
  | |- match ?b with Some _ => _ | None => _ end = _ → _ => destruct b as [x|] eqn:Hs1
  end; [|by apply Hplain].
  intros [= ->].
  apply video_body_inv in Hs1 as (body & rest & -> & Hbody & Hv & Hext & Hu).
  apply (Hbuild (String c "") body rest); try done.
  - rewrite Hs. by rewrite append_assoc.
  - simpl. apply andb_true_iff. split; [|done].
    apply lower_url_char. by rewrite Hc.
Qed.

Lemma video_link_suffix (pre r u ext : string) :
  (video_link u ext ∧ occurs_in u r) → video_link u ext ∧ occurs_in u (pre +:+ r).
Proof.
  intros [Hv (a & b & ->)]. split; [done|].
  exists (pre +:+ a), b. by rewrite !append_assoc.
Qed.

Lemma match_video_inv (text u ext : string) :
  Js.match_video text = Some (u, ext) → video_link u ext ∧ occurs_in u text.
Proof.
  unfold Js.match_video. intros H.
  apply search_inv in H as (pre & r & -> & Hr).
  apply video_link_suffix.
  apply video_at_inv in Hr as [Hv [post ->]].
  split; [done|]. by exists "", post.
Qed.

(** ** What the extractors can return *)

Lemma enclosure_is_object (prefix : string) (item : obj) :
  enclosure_is prefix item = Ok true →
  ∃ e, get item "enclosure" = VObj e ∧ Js.truthy (Js.lookup_prop "url" e) = true.
Proof.
  unfold enclosure_is.
  destruct (get item "enclosure") as [| |b|n|s| |e]; simpl; try discriminate.
  - destruct b; simpl; discriminate.
  - destruct (negb _); simpl; discriminate.
  - destruct (negb _); simpl; discriminate.
  - destruct (Js.truthy (Js.lookup_prop "url" e)) eqn:Hu; [|discriminate]. eauto.
Qed.

Lemma nonempty_truthy (s : string) : s ≠ "" → Js.truthy (VStr s) = true.
Proof. intros Hs. simpl. by destruct (String.eqb_spec s ""). Qed.

Lemma pickImage_answer (item : obj) (v : value) :
  pickImage item = Ok v → null_or_truthy v.
Proof.
  unfold pickImage. intros H.
  apply bind_Ok in H as (b & Hb & H). destruct b.
  - apply enclosure_is_object in Hb as (e & He & Hu).
    rewrite He in H. simpl in H. injection H as <-. by right.
  - apply bind_Ok in H as (fm & _ & H).
    destruct (Js.truthy fm) eqn:Hfm; [injection H as <-; by right|].
    apply bind_Ok in H as (m & Hm & H).
    destruct m as [src|].
    + injection H as <-. right.
      destruct (Js.or _ _) as [| | | |html| |]; simpl in Hm; try discriminate.
      injection Hm as Hm. apply match_img_inv in Hm as (Hne & _).
      by apply nonempty_truthy.
    + destruct (Js.truthy (get item "image")) eqn:Hi; injection H as <-;
        [by right|by left].
Qed.

(** X1.  pickImage answers null or a truthy value, never an empty
    string or undefined: the test the renderer makes on imageUrl
    is a test for null. *)
Theorem pickImage_null_or_truthy (item : obj) (v : value) :
  pickImage item = Ok v → null_or_truthy v.
Proof. apply pickImage_answer. Qed.

Lemma pickImage_null_or_truthy_witness :
  pickImage (Sample.pictured "") = Ok (VStr "http://i/scraped.png")
  ∧ null_or_truthy (VStr "http://i/scraped.png").
Proof.
  split; [reflexivity|].
  exact (pickImage_null_or_truthy (Sample.pictured "") _ eq_refl).
Defined.

(** X2.  An image address scraped from HTML by the img pattern is
    not empty, holds no quote of either kind, and stands in the HTML
    between two quotes (which need not be of the same kind). *)
Theorem scraped_src_quoted (html src : string) :
  Js.match_img html = Some src →
  src ≠ "" ∧ str_forall not_quote src = true ∧ quoted_in src html.
Proof. apply match_img_inv. Qed.

(** X3.  A video address found by the mp4/webm pattern occurs in the
    scanned text, starts with http in any case, ends with a dot and
    the extension found, which is mp4 or webm in any mix of cases,
    and holds no white space and no quote. *)
Theorem scanned_video_link (text u ext : string) :
  Js.match_video text = Some (u, ext) → video_link u ext ∧ occurs_in u text.
Proof. apply match_video_inv. Qed.

Lemma pickVideo_answer (item : obj) (m : media) :
  pickVideo item = Ok (Some m) → video_answer item m.
Proof.
  unfold pickVideo. intros H.
  apply bind_Ok in H as (b & Hb & H). destruct b.
  - assert (Hne : "video/"%string ≠ "") by done.
    pose proof (enclosure_is_true "video/" item Hne Hb) as (t & Ht & Hp & _).
    apply enclosure_is_object in Hb as (e & He & Hu).
    rewrite He in H, Ht. simpl in H, Ht. injection H as <-. injection Ht as Ht.
    apply (from_enclosure item _ e); try done. by exists t.
  - match type of H with
    | match ?scan with Some _ => _ | None => _ end = _ =>
        destruct scan as [[u ext]|] eqn:Hscan
    end.
    + injection H as <-.
      destruct (get item "mediaGroup") as [| | | | |g|] eqn:Hg; try discriminate.
      destruct (Js.stringify (VArr g)) as [text|] eqn:Htext; [|discriminate].
      simpl in Hscan. pose proof (match_video_inv _ _ _ Hscan) as [Hv Ho].
      apply (from_scan item _ text u ext); try done.
      left. by exists g.
    + apply bind_Ok in H as (y & Hy & H). destruct y.
      * injection H as <-.
        destruct (Js.truthy (get item "link")) eqn:Hl; [|discriminate].
        by apply from_link.
      * apply bind_Ok in H as (mv & Hmv & H). destruct mv as [[u ext]|]; [|discriminate].
        injection H as <-.
        destruct (Js.or _ _) as [| | | |html| |] eqn:Hhtml; simpl in Hmv; try discriminate.
        injection Hmv as Hmv. pose proof (match_video_inv _ _ _ Hmv) as [Hv Ho].
        apply (from_scan item _ html u ext); try done.
        by right.
Qed.

(** X4.  Whatever pickVideo returns is of one of three kinds: the
    enclosure of the item, with a truthy address and its declared
    type, a string that begins with video/; a direct link that the
    video pattern finds in a text pickVideo scans, the JSON text of
    the mediaGroup array or the content of the item, and that occurs
    in that text, typed video/ followed by the extension as the link
    spells it; or the link of the item, truthy, typed text/html. *)
Theorem pickVideo_three_kinds (item : obj) (m : media) :
  pickVideo item = Ok (Some m) → video_answer item m.
Proof. apply pickVideo_answer. Qed.

(** ** More on deduplication *)

Lemma dedupe_loop_extends (rest : list Item) :
  ∀ (seen : gset string) (deduped out : list Item),
    dedupe_loop seen deduped rest = Ok out →
    ∃ kept, out = deduped ++ kept ∧ sublist kept rest.
Proof.
  induction rest as [|it rest IH]; intros seen deduped out; simpl.
  - intros [= <-]. exists []. by rewrite app_nil_r.
  - intros H. apply bind_Ok in H as (key & _ & H).
    destruct ((key =? "")%string || bool_decide (key ∈ seen)).
    + destruct (IH _ _ _ H) as (kept & -> & Hsub).
      exists kept. split; [done|]. by apply sublist_cons.
    + destruct (IH _ _ _ H) as (kept & -> & Hsub).
      exists (it :: kept). rewrite <- app_assoc. split; [done|]. by apply sublist_skip.
Qed.

Lemma dedupe_loop_keys (rest : list Item) :
  ∀ (seen : gset string) (deduped out : list Item),
    dedupe_loop seen deduped rest = Ok out →
    (∀ k, k ∈ seen → k ∈ link_key <$> deduped) →
    ∀ it, it ∈ rest → link_key it ≠ "" → link_key it ∈ link_key <$> out.
Proof.
  induction rest as [|it0 rest IH]; intros seen deduped out H Hseen it Hin Hne.
  - by apply elem_of_nil in Hin.
  - simpl in H. apply bind_Ok in H as (key & Hkey & H).
    apply link_key_trim in Hkey as <-.
    assert (Hold : ∀ deduped', dedupe_loop seen deduped' rest = Ok out ∨
                               dedupe_loop ({[link_key it0]} ∪ seen) deduped' rest = Ok out →
                   ∀ k, k ∈ link_key <$> deduped' → k ∈ link_key <$> out).
    { intros deduped' [H'|H'] k Hk;
        destruct (dedupe_loop_extends _ _ _ _ H') as (kept & -> & _);
        rewrite fmap_app; apply elem_of_app; by left. }
    destruct (String.eqb_spec (link_key it0) "") as [He|He0]; simpl in H.
    + apply elem_of_cons in Hin as [->|Hin]; [done|]. by eapply IH.
    + case_bool_decide as Hs.
      * apply elem_of_cons in Hin as [->|Hin]; [|by eapply IH].
        apply (Hold deduped); [by left|]. by apply Hseen.
      * apply elem_of_cons in Hin as [->|Hin].
        -- apply (Hold (deduped ++ [it0])); [by right|].
           rewrite fmap_app. apply elem_of_app. right. apply list_elem_of_here.
        -- eapply IH; [exact H| |done|done].
           intros k Hk. rewrite fmap_app. apply elem_of_app.
           apply elem_of_union in Hk as [Hk|Hk]; [|left; by apply Hseen].
           apply elem_of_singleton in Hk as ->. right. apply list_elem_of_here.
Qed.

Lemma dedupe_loop_fixed (rest : list Item) :
  ∀ (seen : gset string) (deduped : list Item),
    Forall has_link rest →
    NoDup (link_key <$> rest) →
    (∀ it, it ∈ rest → link_key it ∉ seen) →
    dedupe_loop seen deduped rest = Ok (deduped ++ rest).
Proof.
  induction rest as [|it rest IH]; intros seen deduped Hl Hn Hseen; simpl.
  - by rewrite app_nil_r.
  - apply Forall_cons in Hl as [(s & Hit & _ & Hne) Hl].
    rewrite fmap_cons in Hn. apply NoDup_cons in Hn as [Hnotin Hn].
    assert (Hk : link_key it = Js.str_trim s) by (unfold link_key; by rewrite Hit).
    rewrite Hit. simpl.
    destruct (String.eqb_spec (Js.str_trim s) "") as [He|_]; [done|]. simpl.
    rewrite bool_decide_eq_false_2.
    + rewrite IH; [by rewrite <- app_assoc|done|done|].
      intros it' Hin Hin'. apply elem_of_union in Hin' as [Hin'|Hin'].
      * apply elem_of_singleton in Hin'. apply Hnotin. rewrite Hk, <- Hin'.
        apply list_elem_of_fmap. by exists it'.
      * by apply (Hseen it'); [apply list_elem_of_further|].
    + rewrite <- Hk. apply Hseen. apply list_elem_of_here.
Qed.

(** X5.  Deduplication invents and reorders nothing: what it keeps
    is a sublist of the normalized items, each item as it was. *)
Theorem dedupe_sublist (normalized deduped : list Item) :
  dedupe normalized = Ok deduped → sublist deduped normalized.
Proof.
  intros H. by destruct (dedupe_loop_extends _ _ _ _ H) as (kept & -> & Hsub).
Qed.

(** X6.  Deduplication loses no link: every normalized item whose
    trimmed link is not empty has an item with the same trimmed link
    among those kept. *)
Theorem dedupe_keeps_every_key (normalized deduped : list Item) (it : Item) :
  dedupe normalized = Ok deduped →
  it ∈ normalized → link_key it ≠ "" →
  ∃ it', it' ∈ deduped ∧ link_key it' = link_key it.
Proof.
  intros H Hin Hne.
  assert (Hk : link_key it ∈ link_key <$> deduped).
  { eapply dedupe_loop_keys; [exact H| |done|done].
    intros k Hk. by apply elem_of_empty in Hk. }
  apply list_elem_of_fmap in Hk as (it' & Heq & Hin'). eauto.
Qed.

(** X7.  Deduplication is idempotent: deduplicating what it kept
    keeps all of it, in the same order. *)
Theorem dedupe_idempotent (normalized deduped : list Item) :
  dedupe normalized = Ok deduped → dedupe deduped = Ok deduped.
Proof.
  intros H.
  assert (Hu : links_unique deduped).
  { eapply dedupe_loop_unique; [exact H|constructor|constructor|].
    intros it Hin. by apply elem_of_nil in Hin. }
  destruct Hu as [Hl Hn].
  unfold dedupe. rewrite (dedupe_loop_fixed deduped ∅ [] Hl Hn); [done|].
  intros it _ Hin. by apply elem_of_empty in Hin.
Qed.

(** ** More on the order *)

Lemma insert_stable (d : option Z) (x : Item) (l : list Item) :
  filter (fun it => date it = d) (insert by_date x l)
  = filter (fun it => date it = d) (x :: l).
Proof.
  induction l as [|y l IH]; simpl; [done|].
  destruct (goes_before by_date x y) eqn:Hg; [done|].
  assert (Hne : date x ≠ date y).
  { unfold goes_before, by_date in Hg.
    destruct (date y) as [ty|], (date x) as [tx|]; try discriminate.
    intros [= ->]. apply Z.leb_gt in Hg. lia. }
  rewrite filter_cons, IH, !filter_cons.
  repeat case_decide; congruence.
Qed.

Lemma sort_stable (d : option Z) (l : list Item) :
  filter (fun it => date it = d) (sort by_date l) = filter (fun it => date it = d) l.
Proof.
  induction l as [|x l IH]; simpl; [done|].
  rewrite insert_stable, !filter_cons, IH. done.
Qed.

(** X8.  The sort is stable: among items whose dates are valid, those
    of one same date stay in the order deduplication left them in,
    which is the order they were first seen in. *)
Theorem equal_dates_keep_order (deduped : list Item) (d : Z) :
  Forall valid_date deduped →
  filter (fun it => date it = Some d) (sort by_date deduped)
  = filter (fun it => date it = Some d) deduped.
Proof. intros _. apply sort_stable. Qed.

(** ** Where the items of the Cache come from *)

Lemma lookup_set_prop_eq (k : string) (v : value) (o : obj) :
  Js.lookup_prop k (Js.set_prop k v o) = v.
Proof.
  induction o as [|[k' v'] o IH]; simpl.
  - by rewrite String.eqb_refl.
  - destruct (String.eqb_spec k k') as [->|Hne]; simpl.
    + by rewrite String.eqb_refl.
    + by destruct (String.eqb_spec k k').
Qed.

Lemma lookup_set_prop_ne (k k' : string) (v : value) (o : obj) :
  k ≠ k' → Js.lookup_prop k' (Js.set_prop k v o) = Js.lookup_prop k' o.
Proof.
  intros Hne. induction o as [|[k0 v0] o IH]; simpl.
  - by destruct (String.eqb_spec k' k).
  - destruct (String.eqb_spec k k0) as [->|Hne0]; simpl.
    + by destruct (String.eqb_spec k' k0).
    + by rewrite IH.
Qed.

Lemma collect_source_tagged (now : Z) (s : feed_source) (raw : obj) :
  raw ∈ collect_source now s → get raw "_source" = VStr (url s).
Proof.
  unfold collect_source. intros H.
  assert (Htag : ∀ its : list obj, raw ∈ tag (url s) <$> its →
                                   get raw "_source" = VStr (url s)).
  { intros its Hin. apply list_elem_of_fmap in Hin as (it & -> & _).
    apply lookup_set_prop_eq. }
  destruct (tryParseJSONFeed now (url s) (json_fetch s)) as [jf|]; [by eapply Htag|].
  destruct (xml_parse s) as [|its]; [by apply elem_of_nil in H|by eapply Htag].
Qed.

Lemma collect_elem (now : Z) (SOURCES : list feed_source) (raw : obj) :
  raw ∈ collect now SOURCES → ∃ s, s ∈ SOURCES ∧ raw ∈ collect_source now s.
Proof.
  rewrite collect_concat. intros H.
  apply list_elem_of_In, in_concat in H as (l & Hl & Hraw).
  apply list_elem_of_In, list_elem_of_fmap in Hl as (s & -> & Hs).
  apply list_elem_of_In in Hraw. eauto.
Qed.

Lemma mapM_elem {A B} (f : A → result B) (l : list A) (out : list B) (b : B) :
  mapM f l = Ok out → b ∈ out → ∃ a, a ∈ l ∧ f a = Ok b.
Proof.
  intros H Hb. apply mapM_Ok_Forall2 in H.
  induction H as [|a b' l out Hab _ IH]; [by apply elem_of_nil in Hb|].
  apply elem_of_cons in Hb as [->|Hb].
  - exists a. split; [apply list_elem_of_here|done].
  - destruct (IH Hb) as (a' & Ha' & Hf). exists a'. split; [by apply list_elem_of_further|done].
Qed.

Lemma rebuild_elem (now : Z) (SOURCES : list feed_source) (out : list Item) (item : Item) :
  rebuild now SOURCES = Ok out → item ∈ out →
  ∃ raw, raw ∈ collect now SOURCES ∧ normalize now raw = Ok item.
Proof.
  intros H Hin. apply rebuild_Ok in H as (mapped & deduped & Hm & Hd & ->).
  rewrite sort_perm in Hin.
  destruct (dedupe_loop_extends _ _ _ _ Hd) as (kept & -> & Hsub).
  simpl in Hin. eapply elem_of_sublist in Hin; [|exact Hsub].
  apply list_elem_of_In, filter_In in Hin as [Hin _]. apply list_elem_of_In in Hin.
  by eapply mapM_elem.
Qed.

Lemma normalize_source (now : Z) (raw : obj) (item : Item) :
  normalize now raw = Ok item → source item = get raw "_source".
Proof. unfold normalize. intros H. inv_bind H. by injection H as <-. Qed.

(** X9.  After a refresh that succeeds, every Item of the Cache is
    the normalization of a raw item that one of the sources of the
    cycle delivered, it names the address of that source as its
    source, and the raw item had a link or a guid. *)
Theorem cache_provenance (now : Z) (SOURCES : list feed_source) (CACHE CACHE' : Cache)
    (item : Item) :
  refresh now SOURCES CACHE = (Ok (), CACHE') →
  item ∈ items CACHE' →
  ∃ s raw,
    s ∈ SOURCES
    ∧ raw ∈ collect_source now s
    ∧ normalize now raw = Ok item
    ∧ source item = VStr (url s)
    ∧ (Js.truthy (get raw "link") = true ∨ Js.truthy (get raw "guid") = true).
Proof.
  unfold refresh. destruct (rebuild now SOURCES) as [out|e] eqn:Hr; [|discriminate].
  intros [= <-] Hin. simpl in Hin.
  destruct (rebuild_elem _ _ _ _ Hr Hin) as (raw & Hraw & Hn).
  destruct (collect_elem _ _ _ Hraw) as (s & Hs & Hrs).
  exists s, raw. repeat split; try done.
  - rewrite (normalize_source _ _ _ Hn). by apply (collect_source_tagged now).
  - destruct (rebuild_links_unique _ _ _ Hr) as [Hl _].
    rewrite Forall_forall in Hl. destruct (Hl item Hin) as (l & Hlink & Hne & _).
    apply normalize_fields in Hn as [_ Hl']. rewrite Hl' in Hlink.
    unfold Js.or in Hlink.
    destruct (Js.truthy (get raw "link")); [by left|].
    destruct (Js.truthy (get raw "guid")); [by right|].
    injection Hlink as <-. done.
Qed.

(** ** The shape of a cached item *)

Lemma or_truthy (a b : value) : Js.truthy b = true → Js.truthy (Js.or a b) = true.
Proof. unfold Js.or. by destruct (Js.truthy a) eqn:Ha. Qed.

Lemma or_empty_or_truthy (a d : value) :
  d = VStr "" ∨ Js.truthy d = true →
  Js.or a d = VStr "" ∨ Js.truthy (Js.or a d) = true.
Proof. unfold Js.or. destruct (Js.truthy a) eqn:Ha; [by right|done]. Qed.

Lemma video_answer_renderable (item : obj) (m : media) :
  video_answer item m → Js.truthy (m_url m) = true ∧ renderable m.
Proof.
  intros [e He Hu Ht Hty (t & Htt & Hp)|text u ext _ _ _ Hu Hty Hv|Hu Ht Hty].
  - split; [done|]. exists t. rewrite Htt. simpl.
    split; [done|]. split; [by destruct t|]. split; [by left|]. eauto.
  - split.
    + rewrite Hu. apply nonempty_truthy.
      destruct (vl_ends u ext Hv) as [stem ->]. by destruct stem.
    + destruct m as [mu mt]. simpl in *. subst. apply scanned_renderable.
  - split; [done|]. exists "text/html"%string. rewrite Hty. simpl.
    split; [done|]. split; [done|]. split; [by right|]. eauto.
Qed.

Lemma enclosure_kept (enc u : value) :
  andM enc (Js.prop enc "url") = Ok u →
  (if Js.truthy u then enc else VNull) = VNull
  ∨ ∃ e, (if Js.truthy u then enc else VNull) = VObj e
         ∧ Js.truthy (Js.lookup_prop "url" e) = true.
Proof.
  unfold andM. destruct (Js.truthy enc) eqn:He.
  - destruct enc; simpl; intros [= <-]; simpl; try (by left).
    destruct (Js.truthy (Js.lookup_prop "url" props)) eqn:Hu; [|by left].
    right. eauto.
  - intros [= <-]. rewrite He. by left.
Qed.

Lemma normalize_shape (now : Z) (raw : obj) (item : Item) :
  normalize now raw = Ok item →
  Js.truthy (title item) = true
  ∧ (description item = VStr "" ∨ Js.truthy (description item) = true)
  ∧ (authorName item = VStr "" ∨ Js.truthy (authorName item) = true)
  ∧ null_or_truthy (imageUrl item)
  ∧ from_option (fun m => Js.truthy (m_url m) = true ∧ renderable m) True (video item)
  ∧ (enclosure item = VNull
     ∨ ∃ e, enclosure item = VObj e ∧ Js.truthy (Js.lookup_prop "url" e) = true).
Proof.
  unfold normalize. intros H.
  apply bind_Ok in H as (d & _ & H).
  apply bind_Ok in H as (author & _ & H).
  apply bind_Ok in H as (image & Himage & H).
  apply bind_Ok in H as (video & Hvideo & H).
  apply bind_Ok in H as (u & Hu & H).
  injection H as <-. simpl.
  split; [by apply or_truthy|].
  split; [do 3 apply or_empty_or_truthy; by left|].
  split; [apply or_empty_or_truthy; by left|].
  split; [by eapply pickImage_answer|].
  split; [|by apply enclosure_kept].
  destruct video as [m|]; simpl; [|done].
  eapply video_answer_renderable, pickVideo_answer, Hvideo.
Qed.

Lemma rebuild_shaped (now : Z) (SOURCES : list feed_source) (out : list Item) :
  rebuild now SOURCES = Ok out → Forall shaped out.
Proof.
  intros Hr. apply Forall_forall. intros item Hin.
  destruct (rebuild_elem _ _ _ _ Hr Hin) as (raw & Hraw & Hn).
  destruct (collect_elem _ _ _ Hraw) as (s & _ & Hrs).
  destruct (normalize_shape _ _ _ Hn) as (Ht & Hd & Ha & Hi & Hv & He).
  split; try done.
  - destruct (rebuild_links_unique _ _ _ Hr) as [Hl _].
    rewrite Forall_forall in Hl. by apply Hl.
  - exists (url s). rewrite (normalize_source _ _ _ Hn).
    by apply (collect_source_tagged now).
Qed.

(** X10.  Every Item of every Cache the process can hold has the
    shape refresh gives it: a non-empty link and a title that is not
    empty; a description and an author name that are truthy or the
    empty string; an imageUrl that is null or truthy; a video that
    is null or has a truthy address and a type the renderer can
    dispatch on; an enclosure that is null or an object with a
    truthy url; and a string as source. *)
Theorem cache_items_shaped (CACHE : Cache) :
  reachable CACHE → Forall shaped (items CACHE).
Proof.
  apply (reachable_cases (Forall shaped)); [constructor|].
  apply rebuild_shaped.
Qed.

(** ** When buildFeeds raises *)

Lemma primary_enclosure_any (it : Item) : ∃ e, primary_enclosure it = Ok e.
Proof.
  unfold primary_enclosure.
  destruct (video it); [eauto|].
  destruct (Js.truthy (enclosure it)) eqn:He.
  - destruct (prop_truthy _ "url" He) as [u ->].
    destruct (prop_truthy _ "type" He) as [t ->]. simpl. eauto.
  - destruct (Js.truthy (imageUrl it)); eauto.
Qed.

Lemma startsWith_Ok (v : value) (p : string) (b : bool) :
  Js.startsWith v p = Ok b → is_string v.
Proof. destruct v; simpl; intros; try discriminate. by eexists. Qed.

Lemma contentBlocks_renders (it : Item) (blocks : list value) :
  contentBlocks it = Ok blocks →
  (Js.truthy (imageUrl it) = true → stringable (imageUrl it))
  ∧ from_option (fun m => is_string (m_type m) ∧ stringable (m_url m)) True (video it)
  ∧ stringable (source it).
Proof.
  unfold contentBlocks. intros H.
  apply bind_Ok in H as (image & Hi & H).
  apply bind_Ok in H as (vblocks & Hv & H).
  apply bind_Ok in H as (src & Hs & _).
  split; [|split; [|by exists src]].
  - intros Ht. rewrite Ht in Hi. apply bind_Ok in Hi as (s & Hs' & _). by exists s.
  - destruct (video it) as [m|]; simpl; [|done].
    apply bind_Ok in Hv as (direct & Hd & Hv). apply bind_Ok in Hv as (s & Hs' & _).
    split; [by eapply startsWith_Ok|by exists s].
Qed.

Lemma renders_contentBlocks (it : Item) :
  renders it → ∃ blocks, contentBlocks it = Ok blocks.
Proof.
  intros [Hi Hv _ [src Hs]]. unfold contentBlocks.
  assert (Himage : ∃ image,
             (if Js.truthy (imageUrl it)
              then src ← Js.ToString (imageUrl it);
                   Ok [VStr ("<p><img src=" ++ dq ++ src ++ dq
                               ++ " alt=" ++ dq ++ dq ++ " /></p>")]
              else Ok []) = Ok image).
  { destruct (Js.truthy (imageUrl it)); [|eauto].
    destruct (Hi eq_refl) as [s ->]. simpl. eauto. }
  destruct Himage as [image ->]. simpl. rewrite Hs.
  destruct (video it) as [m|]; simpl in *; [|eauto].
  destruct Hv as [[t ->] [s ->]]. simpl. eauto.
Qed.

Lemma render_item_renders (it : Item) :
  (∃ e, render_item it = Ok e) ↔ renders it.
Proof.
  split.
  - intros [e H]. unfold render_item in H.
    apply bind_Ok in H as (blocks & Hb & H).
    apply bind_Ok in H as (d & Hd & _).
    apply contentBlocks_renders in Hb as (Hi & Hv & Hs).
    split; try done. by eapply summary_textual.
  - intros Hr. unfold render_item.
    destruct (renders_contentBlocks it Hr) as [blocks Hb]. rewrite Hb. simpl.
    pose proof (rn_description it Hr) as Hd.
    assert (Hsum : ∃ d, summary (description it) = Ok d)
      by (destruct (description it); simpl in *; try done; eauto).
    destruct Hsum as [d ->]. simpl.
    destruct (contentBlocks_Ok _ _ Hb) as (media_blocks & -> & _).
    edestruct (join_values_total nl) as [content ->].
    { apply Forall_app. split; [apply Forall_fmap, Forall_true; by eexists|].
      apply Forall_app. split; [|repeat constructor; by eexists].
      destruct (description it); simpl in *; try done; repeat constructor.
      destruct (negb _); repeat constructor. by eexists. }
    simpl. destruct (primary_enclosure_any it) as [e ->]. simpl. eauto.
Qed.

Lemma feed_renders (CACHE : Cache) :
  (∃ fd, feed CACHE = Ok fd) ↔ Forall renders (items CACHE).
Proof.
  unfold feed. split.
  - intros [fd H]. apply bind_Ok in H as (entries & Hm & _).
    apply mapM_Ok_Forall2 in Hm.
    induction Hm as [|it e l entries Hit _ IH]; constructor; [|done].
    apply render_item_renders. eauto.
  - intros Hr.
    destruct (mapM_total render_item (items CACHE)) as [entries ->]; [|simpl; eauto].
    eapply Forall_impl; [exact Hr|]. intros it. apply render_item_renders.
Qed.

Lemma buildFeeds_returns (pkg : feed_package) (CACHE : Cache) :
  (∃ f, buildFeeds pkg CACHE = Ok f) ↔ ∃ fd, feed CACHE = Ok fd ∧ serializable pkg fd.
Proof.
  split.
  - intros [f Hf]. apply buildFeeds_Ok in Hf as (fd & Hfd & Hd).
    exists fd. split; [done|].
    destruct Hd as ((_ & _ & Hr) & (_ & _ & Ha) & (_ & _ & Hj)).
    unfold serializable. repeat split; by eexists.
  - intros (fd & Hfd & Hs).
    destruct (buildFeeds_serializable _ _ _ Hfd Hs) as (f & Hf & _). eauto.
Qed.

(** X11.  The loop of buildFeeds raises exactly when some Item of the
    Cache has a truthy imageUrl, the url of a video, or a source that
    cannot be converted to a string, a video whose type is not a
    string, or a description that is neither a string nor null nor
    undefined; on every other Cache it builds the Feed.  buildFeeds
    then returns exactly when the three serializers of the feed
    package return on that Feed. *)
Theorem buildFeeds_succeeds_iff (pkg : feed_package) (CACHE : Cache) :
  ((∃ fd, feed CACHE = Ok fd) ↔ Forall renders (items CACHE))
  ∧ ((∃ f, buildFeeds pkg CACHE = Ok f) ↔ ∃ fd, feed CACHE = Ok fd ∧ serializable pkg fd).
Proof. split; [apply feed_renders|apply buildFeeds_returns]. Qed.

(** ** From typed sources to rendered feeds *)

Lemma textual_or2 (a b : value) : textual a → textual b → textual (Js.or a b).
Proof. unfold Js.or. by destruct (Js.truthy a). Qed.

Lemma textual_stringable (v : value) : textual v → stringable v.
Proof. destruct v; simpl; intros; try done; by eexists. Qed.

Lemma field_prop (v w : value) (k : string) : Js.prop v k = Ok w → field v k = w.
Proof. unfold field. by intros ->. Qed.

Lemma orM_prop_textual (it w : value) (k1 k2 : string) :
  (u ← Js.prop it k1; orM u (Js.prop it k2)) = Ok w →
  textual (field it k1) → textual (field it k2) → textual w.
Proof.
  intros H H1 H2. apply bind_Ok in H as (u & Hu & H).
  apply field_prop in Hu as <-. unfold orM in H.
  destruct (Js.truthy (field it k1)); [by injection H as <-|].
  by apply field_prop in H as <-.
Qed.

Lemma json_enclosure_typed (it enc : value) :
  json_enclosure it = Ok enc → json_typed it →
  match enc with
  | VObj e => textual (Js.lookup_prop "url" e) ∧ textual (Js.lookup_prop "type" e)
  | _ => True
  end.
Proof.
  unfold json_enclosure. intros H Ht.
  apply bind_Ok in H as (att & Hatt & H). apply field_prop in Hatt.
  pose proof (jt_attachment it Ht) as Hm. rewrite Hatt in Hm.
  apply bind_Ok in H as (a0 & Ha0 & H).
  destruct (Js.truthy a0) eqn:Htr; [|by injection H as <-].
  apply bind_Ok in H as (u & Hurl & H).
  apply bind_Ok in H as (t & Htype & H). injection H as <-. simpl.
  apply bind_Ok in Htype as (a & Ha & Htype). rewrite Ha in Hm.
  apply bind_Ok in Hurl as (a' & Ha' & Hurl). rewrite Ha in Ha'. injection Ha' as <-.
  apply field_prop in Htype as <-. apply field_prop in Hurl as <-.
  destruct Hm as [Hu Hty]. split; [done|]. by apply textual_or2.
Qed.

Lemma json_item_presentable (now : Z) (url : string) (it : value) (o : obj) :
  json_item now url it = Ok o → json_typed it → presentable o.
Proof.
  unfold json_item. intros H Ht.
  apply bind_Ok in H as (title & _ & H).
  apply bind_Ok in H as (link & Hlink & H).
  apply bind_Ok in H as (iso & Hiso & H).
  apply bind_Ok in H as (content & Hcontent & H).
  apply bind_Ok in H as (snippet & Hsnippet & H).
  apply bind_Ok in H as (enc & Henc & H).
  apply bind_Ok in H as (image & Himage & H).
  apply bind_Ok in H as (author & _ & H).
  injection H as <-.
  apply orM_prop_textual in Hlink; [|apply Ht..].
  apply orM_prop_textual in Hcontent; [|apply Ht..].
  apply orM_prop_textual in Himage; [|apply Ht..].
  apply field_prop in Hsnippet.
  assert (Hdate : textual iso).
  { apply bind_Ok in Hiso as (p & Hp & Hiso).
    apply bind_Ok in Hiso as (m & Hm & Hiso). injection Hiso as <-.
    apply textual_or2; [|done].
    apply field_prop in Hp as <-. unfold orM in Hm.
    destruct (Js.truthy (field it "date_published")) eqn:Hpub.
    - injection Hm as <-. apply Ht.
    - apply field_prop in Hm as <-. apply Ht. }
  pose proof (json_enclosure_typed _ _ Henc Ht) as He.
  split; [split|..]; unfold get; simpl; try done.
  - by apply textual_or2.
  - by apply textual_or2.
  - destruct enc; try done. apply He.
  - rewrite <- Hsnippet. apply textual_or2; [apply Ht|done].
  - destruct enc; try done. apply He.
  - by apply textual_or2.
Qed.

Lemma presentable_tag (src : string) (it : obj) : presentable it → presentable (tag src it).
Proof.
  intros [Hw Hs He Hc Ht Hi]. unfold tag, get in *.
  split; [destruct Hw; split|..]; unfold get in *;
    rewrite lookup_set_prop_ne by done; done.
Qed.

Lemma collect_presentable (now : Z) (SOURCES : list feed_source) :
  Forall typed_source SOURCES → Forall presentable (collect now SOURCES).
Proof.
  intros Ht. apply Forall_forall. intros raw Hraw.
  destruct (collect_elem _ _ _ Hraw) as (s & Hs & Hrs).
  rewrite Forall_forall in Ht. destruct (Ht s Hs) as [Hjson Hxml].
  unfold collect_source in Hrs.
  destruct (tryParseJSONFeed now (url s) (json_fetch s)) as [jf|] eqn:Hjf.
  - apply list_elem_of_fmap in Hrs as (o & -> & Ho).
    apply presentable_tag.
    destruct (tryParseJSONFeed_items _ _ _ _ Hjf) as (l & Hl & Hm).
    destruct (mapM_elem _ _ _ _ Hm Ho) as (it & Hit & Hitem).
    apply (json_item_presentable now (url s) it); [done|].
    specialize (Hjson l Hl). rewrite Forall_forall in Hjson. by apply Hjson.
  - destruct (xml_parse s) as [|its] eqn:Hx; [by apply elem_of_nil in Hrs|].
    apply list_elem_of_fmap in Hrs as (o & -> & Ho).
    apply presentable_tag.
    specialize (Hxml its eq_refl). rewrite Forall_forall in Hxml. by apply Hxml.
Qed.

Lemma media_address_Ok (m v : value) : media_url m = Ok v → media_address m = v.
Proof. unfold media_address. by intros ->. Qed.

(** What pickImage answers for a presentable item holds text. *)
Lemma pickImage_textual (raw : obj) (v : value) :
  presentable raw → pickImage raw = Ok v → textual v.
Proof.
  intros Hp. unfold pickImage. intros H.
  apply bind_Ok in H as (b & Hb & H). destruct b.
  - apply enclosure_is_object in Hb as (e & He & _).
    pose proof (pr_enclosure raw Hp) as Hu. rewrite He in Hu, H.
    simpl in H. by injection H as <-.
  - apply bind_Ok in H as (fm & Hfm & H).
    destruct (Js.truthy fm) eqn:Ht.
    + injection H as <-. apply bind_Ok in Hfm as (c & Hc & Hfm).
      apply media_address_Ok in Hc. unfold orM in Hfm.
      destruct (Js.truthy c).
      * injection Hfm as <-. rewrite <- Hc. apply Hp.
      * apply media_address_Ok in Hfm as <-. apply Hp.
    + apply bind_Ok in H as (m & _ & H). destruct m as [src|]; [by injection H as <-|].
      destruct (Js.truthy (get raw "image")); injection H as <-; [apply Hp|done].
Qed.

Lemma presentable_renders (now : Z) (raw : obj) (item : Item) :
  presentable raw → is_string (get raw "_source") →
  normalize now raw = Ok item → renders item.
Proof.
  intros Hp Hsrc Hn.
  pose proof (pr_typed raw Hp) as Hw.
  destruct (normalize_shape _ _ _ Hn) as (_ & _ & _ & _ & Hv & _).
  unfold normalize in Hn.
  apply bind_Ok in Hn as (d & _ & Hn).
  apply bind_Ok in Hn as (author & _ & Hn).
  apply bind_Ok in Hn as (image & Himage & Hn).
  apply bind_Ok in Hn as (vid & Hvideo & Hn).
  apply bind_Ok in Hn as (u & _ & Hn).
  injection Hn as <-. simpl in *.
  split; simpl.
  - intros _. eapply textual_stringable, pickImage_textual; done.
  - destruct vid as [m|]; simpl in *; [|done].
    destruct Hv as [_ (t & Ht & _)]. split; [by exists t|].
    apply textual_stringable.
    destruct (pickVideo_answer _ _ Hvideo)
      as [e He Hu _ _ _|text u' ext _ _ _ Hu _ _|Hu _ _]; rewrite Hu.
    + pose proof (pr_enclosure raw Hp) as He'. by rewrite He in He'.
    + done.
    + apply Hw.
  - apply textual_or2; [apply Hw|]. apply textual_or2; [apply Hw|].
    apply textual_or2; [apply Hp|done].
  - destruct Hsrc as [src ->]. by exists src.
Qed.

(** X12.  From typed sources to the serializers: when every entry a
    JSON source delivers and every item an XML parse delivers holds
    strings in its text fields (the addresses, those of its images
    and of its enclosure or first attachment too, the dates, the
    contents, the summary or snippet, the media type of the enclosure
    or first attachment), refresh does not raise, the loop of
    buildFeeds goes through on the Cache refresh installs, and
    buildFeeds returns on it with any package whose three serializers
    return on the Feed built. *)
Theorem typed_sources_render (now : Z) (SOURCES : list feed_source) (CACHE : Cache) :
  Forall typed_source SOURCES →
  ∃ deduped fd,
    refresh now SOURCES CACHE = (Ok (), {| items := deduped; lastBuild := now |})
    ∧ feed {| items := deduped; lastBuild := now |} = Ok fd
    ∧ ∀ pkg, serializable pkg fd →
             ∃ f, buildFeeds pkg {| items := deduped; lastBuild := now |} = Ok f.
Proof.
  intros Ht. pose proof (collect_presentable now SOURCES Ht) as Hp.
  destruct (rebuild_total now SOURCES) as [out Hout].
  { eapply Forall_impl; [exact Hp|]. by intros raw [Hw _]. }
  assert (Hr : Forall renders out).
  { apply Forall_forall. intros item Hin.
    destruct (rebuild_elem _ _ _ _ Hout Hin) as (raw & Hraw & Hn).
    destruct (collect_elem _ _ _ Hraw) as (s & _ & Hrs).
    rewrite Forall_forall in Hp. apply (presentable_renders now raw); [by apply Hp| |done].
    exists (url s). by apply (collect_source_tagged now). }
  destruct (proj2 (feed_renders {| items := out; lastBuild := now |}) Hr) as [fd Hfd].
  exists out, fd. split; [unfold refresh; by rewrite Hout|]. split; [done|].
  intros pkg Hs. destruct (buildFeeds_serializable _ _ _ Hfd Hs) as (f & Hf & _). eauto.
Qed.

(** ** The summary of an entry *)

Arguments Js.tag_at : simpl never.

Lemma after_gt_cons (c : ascii) (r : string) :
  after_gt (String c r) = if Js.is_gt c then Some r else None.
Proof. destruct c as [[|] [|] [|] [|] [|] [|] [|] [|]]; reflexivity. Qed.

Lemma tag_at_lt (r : string) :
  Js.tag_at (String "<"%char r) = Js.plus (fun c => negb (Js.is_gt c)) after_gt r.
Proof. reflexivity. Qed.

Lemma tag_at_other (c : ascii) (r : string) :
  c ≠ "<"%char → Js.tag_at (String c r) = None.
Proof.
  intros Hne. destruct c as [[|] [|] [|] [|] [|] [|] [|] [|]]; try reflexivity.
  by destruct Hne.
Qed.

Lemma star_none_no_gt (s : string) :
  Js.star (fun c => negb (Js.is_gt c)) after_gt s = None ↔ no_gt s.
Proof.
  unfold no_gt. induction s as [|c s IH]; simpl; [done|].
  rewrite after_gt_cons. destruct (Js.is_gt c); simpl; [done|].
  destruct (Js.star _ after_gt s) as [x|].
  - split; [done|]. intros H. by apply IH in H.
  - split; [intros _; by apply IH|done].
Qed.

(** The tag pattern fails at a [<] exactly when nothing follows it,
    or [>] follows it at once, or no [>] follows it at all. *)
Lemma tag_at_lt_none (r : string) :
  Js.tag_at (String "<"%char r) = None
  ↔ r = "" ∨ (∃ r', r = String ">"%char r') ∨ no_gt r.
Proof.
  rewrite tag_at_lt. destruct r as [|c r]; simpl; [by split; [left|]|].
  destruct (Js.is_gt c) eqn:Hc; simpl.
  - split; [intros _|done]. right. left. exists r.
    unfold Js.is_gt in Hc. by apply Ascii.eqb_eq in Hc as ->.
  - rewrite star_none_no_gt. unfold no_gt. simpl. rewrite Hc. simpl. split.
    + intros H. by right; right.
    + intros [H|[[r' [= -> ->]]|H]]; done.
Qed.

Lemma tagless_cons (c : ascii) (o : string) :
  tagless (String c o) ↔ Js.tag_at (String c o) = None ∧ tagless o.
Proof.
  unfold tagless. simpl. destruct (Js.tag_at (String c o)).
  - split; [done|]. by intros [? _].
  - split; [done|]. by intros [_ ?].
Qed.

Lemma strip_tags_from_forall (p : ascii → bool) (s : string) :
  ∀ n, str_forall p s = true → str_forall p (Js.strip_tags_from n s) = true.
Proof.
  induction s as [|c r IH]; intros n; simpl; [done|].
  intros H. apply andb_true_iff in H as [Hc Hr].
  destruct n as [|n]; [|by apply IH].
  destruct (Js.tag_at (String c r)); [by apply IH|].
  simpl. by rewrite Hc, IH.
Qed.

Lemma strip_tags_from_cons (c : ascii) (r : string) :
  Js.strip_tags_from 0 (String c r)
  = match Js.tag_at (String c r) with
    | Some rest => Js.strip_tags_from (String.length r - String.length rest) r
    | None => String c (Js.strip_tags_from 0 r)
    end.
Proof. reflexivity. Qed.

Lemma strip_tags_from_tagless (s : string) : ∀ n, tagless (Js.strip_tags_from n s).
Proof.
  induction s as [|c r IH]; intros n; simpl; [done|].
  destruct n as [|n]; [|by apply IH].
  destruct (Js.tag_at (String c r)) as [rest|] eqn:Htag; [by apply IH|].
  apply tagless_cons. split; [|by apply IH].
  destruct (ascii_dec c "<"%char) as [->|Hne]; [|by apply tag_at_other].
  apply tag_at_lt_none. apply tag_at_lt_none in Htag as [->|[[r' ->]|Hgt]].
  - by left.
  - right. left. rewrite strip_tags_from_cons, tag_at_other by done. eauto.
  - right. right. by apply strip_tags_from_forall.
Qed.

Lemma str_take_forall (p : ascii → bool) (s : string) :
  ∀ n, str_forall p s = true → str_forall p (Js.str_take n s) = true.
Proof.
  induction s as [|c r IH]; intros [|n]; simpl; try done.
  intros H. apply andb_true_iff in H as [Hc Hr]. by rewrite Hc, IH.
Qed.

Lemma str_take_tagless (s : string) : ∀ n, tagless s → tagless (Js.str_take n s).
Proof.
  induction s as [|c r IH]; intros [|n]; simpl; try done.
  intros H. apply tagless_cons in H as [Htag Hr].
  apply tagless_cons. split; [|by apply IH].
  destruct (ascii_dec c "<"%char) as [->|Hne]; [|by apply tag_at_other].
  apply tag_at_lt_none. apply tag_at_lt_none in Htag as [->|[[r' ->]|Hgt]].
  - left. by destruct n.
  - destruct n; [by left|]. right. left. simpl. eauto.
  - right. right. by apply str_take_forall.
Qed.

Lemma str_take_length (s : string) : ∀ n, (String.length (Js.str_take n s) ≤ n)%nat.
Proof.
  induction s as [|c r IH]; intros [|n]; simpl; try lia.
  specialize (IH n). lia.
Qed.

Lemma summary_short (d w : value) : summary d = Ok w → short_summary w.
Proof.
  destruct d as [| | | |s| |]; try discriminate; try (by intros [= <-]).
  intros H.
  assert (Hw : w = VStr (Js.str_take 280 (Js.strip_tags s)))
    by (unfold summary in H; congruence).
  rewrite Hw. change ((String.length (Js.str_take 280 (Js.strip_tags s)) ≤ 280)%nat
                      ∧ tagless (Js.str_take 280 (Js.strip_tags s))).
  split; [apply str_take_length|].
  apply str_take_tagless, strip_tags_from_tagless.
Qed.

(** X13.  The summary buildFeeds gives an entry is undefined or a
    string of at most 280 code units in which the tag pattern finds
    no match: stripping leaves no tag behind, and cutting makes
    none. *)
Theorem entry_summary_short_tagless (it : Item) (e : entry) :
  render_item it = Ok e → short_summary (e_description e).
Proof.
  unfold render_item. intros H.
  apply bind_Ok in H as (blocks & _ & H).
  apply bind_Ok in H as (d & Hd & H).
  apply bind_Ok in H as (content & _ & H).
  apply bind_Ok in H as (enc & _ & H).
  injection H as <-. simpl. by eapply summary_short.
Qed.

(** ** The content of an entry *)

Lemma join_snoc (sep a : string) (l : list string) :
  Js.join sep (l ++ [a])
  = match l with
    | [] => a
    | _ => Js.join sep l +:+ sep +:+ a
    end.
Proof.
  destruct l as [|x r]; [done|]. simpl. by rewrite fold_left_app.
Qed.

(** X14.  The content of every entry ends with the attribution line
    that names the source of the item: the line is the whole content
    or follows a line break. *)
Theorem entry_content_attributed (it : Item) (e : entry) :
  render_item it = Ok e →
  e_content e = attribution it
  ∨ ∃ before, e_content e = before +:+ nl +:+ attribution it.
Proof.
  unfold render_item. intros H.
  apply bind_Ok in H as (blocks & Hb & H).
  apply bind_Ok in H as (d & _ & H).
  apply bind_Ok in H as (content & Hc & H).
  apply bind_Ok in H as (enc & _ & H).
  injection H as <-. simpl.
  apply contentBlocks_Ok in Hb as (media_blocks & -> & _).
  rewrite app_assoc in Hc. unfold Js.join_values in Hc.
  apply bind_Ok in Hc as (parts & Hp & [= <-]).
  apply mapM_snoc_Ok in Hp as (before & line & _ & Hline & ->).
  simpl in Hline. injection Hline as <-.
  rewrite join_snoc. destruct before; [by left|right; eauto].
Qed.

(** ** The routes *)

Lemma feed_count (CACHE : Cache) (fd : Feed) :
  feed CACHE = Ok fd → Z.of_nat (length (f_entries fd)) = count CACHE.
Proof.
  intros H. apply feed_Ok in H as [Hm _]. apply mapM_Ok_Forall2 in Hm.
  unfold count. f_equal. symmetry. by eapply Forall2_length.
Qed.

Lemma feed_route (pkg : feed_package) (path ty : string) (fmt : format) (CACHE : Cache) :
  (path, ty, fmt) ∈ feed_routes →
  ∃ pick : feeds → document,
    serve pkg path CACHE
    = Some (f ← buildFeeds pkg CACHE;
            Ok {| reply_type := ty; reply_body := Document (pick f) |})
    ∧ ∀ fd f, documents_of pkg fd f →
              doc_format (pick f) = fmt ∧ doc_feed (pick f) = fd
              ∧ serialize pkg fmt fd = Ok (pick f).
Proof.
  intros Hin. unfold feed_routes in Hin.
  assert (Hdoc : ∀ fd d (m : result string) fmt',
             doc_format d = fmt' → doc_feed d = fd → m = Ok (doc_text d) →
             (text ← m; Ok {| doc_format := fmt'; doc_feed := fd; doc_text := text |})
             = Ok d).
  { intros fd [] m fmt' Hf Hd ->. simpl in *. by subst. }
  repeat (apply elem_of_cons in Hin as [[= -> -> ->]|Hin]);
    [exists rss|exists atom|exists json|by apply elem_of_nil in Hin];
    (split; [reflexivity|]);
    intros fd f ((Hrf & Hrd & Hr) & (Haf & Had & Ha) & (Hjf & Hjd & Hj));
    (split; [done|]); (split; [done|]); unfold serialize; by apply Hdoc.
Qed.

(** X15.  The status route and the health route answer on every
    Cache, whatever its items and whatever the feed package does,
    and the health route reports the number of items.  Each feed
    route answers exactly when the loop of buildFeeds goes through on
    the Cache and all three serializers return on the Feed it has
    built, those of the two formats the route does not send too: it
    then sends, under the media type it passes to res.type, the
    document its own serializer made of that Feed, which holds as
    many entries as the health route counts; in every other case the
    route raises and sends nothing. *)
Theorem routes_answer (pkg : feed_package) (CACHE : Cache) :
  serve pkg "/" CACHE
  = Some (Ok {| reply_type := "text/plain"; reply_body := Text (status_text CACHE) |})
  ∧ (∃ body, serve pkg "/health" CACHE
             = Some (Ok {| reply_type := "application/json"; reply_body := Text body |})
             ∧ Js.stringify (VObj (health CACHE)) = Some body
             ∧ get (health CACHE) "count" = VNum (Z.of_nat (length (items CACHE))))
  ∧ ∀ path ty fmt,
      (path, ty, fmt) ∈ feed_routes →
      (∀ fd, feed CACHE = Ok fd → serializable pkg fd →
         ∃ d, serve pkg path CACHE
              = Some (Ok {| reply_type := ty; reply_body := Document d |})
              ∧ serialize pkg fmt fd = Ok d
              ∧ doc_format d = fmt ∧ doc_feed d = fd
              ∧ Z.of_nat (length (entries d)) = count CACHE)
      ∧ ((∃ r, serve pkg path CACHE = Some (Ok r))
         → ∃ fd, feed CACHE = Ok fd ∧ serializable pkg fd)
      ∧ ((∃ r, serve pkg path CACHE = Some (Ok r))
         ∨ ∃ e, serve pkg path CACHE = Some (Throw e)).
Proof.
  split; [reflexivity|]. split.
  { eexists. split; [reflexivity|]. split; reflexivity. }
  intros path ty fmt Hin.
  destruct (feed_route pkg path ty fmt CACHE Hin) as (pick & -> & Hpick).
  split; [|split].
  - intros fd Hfd Hs.
    destruct (buildFeeds_serializable _ _ _ Hfd Hs) as (f & Hf & Hd).
    destruct (Hpick fd f Hd) as (Hfmt & Hfeed & Hser).
    exists (pick f). rewrite Hf. simpl. repeat split; try done.
    unfold entries. rewrite Hfeed. by apply feed_count.
  - intros [r Hr]. apply buildFeeds_returns.
    destruct (buildFeeds pkg CACHE) as [f|e]; [eauto|discriminate].
  - destruct (buildFeeds pkg CACHE) as [f|e]; simpl; [left|right]; eauto.
Qed.

(** A feed route needs the serializers of the other formats too: with
    a package whose atom1 raises, the RSS route raises. *)
Example rss_route_needs_atom1 :
  rss2 Sample.no_atom_package
    {| f_id := "https://example.com/"; f_title := "Multi-Source Feed";
       f_link := "https://example.com/"; f_updated := 0; f_entries := [] |} = Ok "<rss/>"
  ∧ serve Sample.no_atom_package "/rss.xml" Sample.boot
    = Some (Throw (TypeError "Invalid URL")).
Proof. split; reflexivity. Qed.

(** ** A source that is down *)

(** X16.  A refresh keeps nothing of a source that fails in the
    cycle: when every source registered under an address fails at
    both stages, no Item of the Cache the refresh installs names that
    address as its source, whatever the Cache held before. *)
Theorem failed_source_drops_out (now : Z) (SOURCES : list feed_source)
    (CACHE CACHE' : Cache) (u : string) (item : Item) :
  refresh now SOURCES CACHE = (Ok (), CACHE') →
  (∀ s, s ∈ SOURCES → url s = u → fails now s) →
  item ∈ items CACHE' →
  source item ≠ VStr u.
Proof.
  unfold refresh. destruct (rebuild now SOURCES) as [out|e] eqn:Hr; [|discriminate].
  intros [= <-] Hf Hin Hsrc. simpl in Hin.
  destruct (rebuild_elem _ _ _ _ Hr Hin) as (raw & Hraw & Hn).
  destruct (collect_elem _ _ _ Hraw) as (s & Hs & Hrs).
  rewrite (normalize_source _ _ _ Hn), (collect_source_tagged now s raw Hrs) in Hsrc.
  injection Hsrc as Hu.
  destruct (Hf s Hs Hu) as [Hj Hx].
  unfold collect_source in Hrs. rewrite Hj, Hx in Hrs. by apply elem_of_nil in Hrs.
Qed.

(** ** What the adapter hands on *)

Lemma append_nonempty_r (a b : string) : b ≠ "" → a +:+ b ≠ "".
Proof.
  intros Hb H. apply Hb. destruct a; [exact H|].
  rewrite append_cons in H. discriminate H.
Qed.

Lemma toISOString_nonempty (t : Z) : JsDate.toISOString t ≠ "".
Proof.
  unfold JsDate.toISOString. destruct (JsDate.civil_from_days _) as [[y m] d].
  apply append_nonempty_r. discriminate.
Qed.

Lemma json_enclosure_shape (it enc : value) :
  json_enclosure it = Ok enc →
  enc = VUndef
  ∨ ∃ u t, enc = VObj [("url", u); ("type", t)] ∧ (t = VStr "" ∨ Js.truthy t = true).
Proof.
  unfold json_enclosure. intros H.
  apply bind_Ok in H as (att & _ & H). apply bind_Ok in H as (a0 & _ & H).
  destruct (Js.truthy a0); [|injection H as <-; by left].
  apply bind_Ok in H as (u & _ & H). apply bind_Ok in H as (t & _ & H).
  injection H as <-. right. exists u, (Js.or t (VStr "")). split; [done|].
  apply or_empty_or_truthy. by left.
Qed.

Lemma json_author_shape (it au : value) :
  json_author it = Ok au →
  au = VArr []
  ∨ ∃ n l, au = VArr [VObj [("name", n); ("link", l)]]
           ∧ (Js.truthy n = true ∨ Js.truthy l = true).
Proof.
  unfold json_author. intros H.
  apply bind_Ok in H as (a & Ha & H). apply bind_Ok in H as (c & Hc & H).
  destruct (Js.truthy c) eqn:Htc; [|injection H as <-; by left].
  apply bind_Ok in H as (n & Hn & H). apply bind_Ok in H as (l & Hl & H).
  injection H as <-. right. exists n, l. split; [done|].
  unfold andM in Hc. destruct (Js.truthy a) eqn:Hta.
  - apply bind_Ok in Hc as (n' & Hn' & Hc). rewrite Hn in Hn'. injection Hn' as <-.
    unfold orM in Hc. destruct (Js.truthy n) eqn:Htn; [by left|].
    rewrite Hl in Hc. injection Hc as <-. by right.
  - injection Hc as <-. congruence.
Qed.

Lemma json_item_adapted (now : Z) (url : string) (it : value) (o : obj) :
  json_item now url it = Ok o → adapted url o.
Proof.
  unfold json_item. intros H.
  apply bind_Ok in H as (title & _ & H).
  apply bind_Ok in H as (link & _ & H).
  apply bind_Ok in H as (isoDate & Hd & H).
  apply bind_Ok in H as (content & _ & H).
  apply bind_Ok in H as (summary & _ & H).
  apply bind_Ok in H as (enc & He & H).
  apply bind_Ok in H as (image & _ & H).
  apply bind_Ok in H as (author & Ha & H).
  injection H as <-.
  split; unfold get; simpl.
  - apply or_truthy. done.
  - apply or_empty_or_truthy. by left.
  - apply bind_Ok in Hd as (p & _ & Hd). apply bind_Ok in Hd as (m & _ & Hd).
    injection Hd as <-. apply or_truthy, nonempty_truthy, toISOString_nonempty.
  - apply or_empty_or_truthy. by left.
  - apply or_empty_or_truthy. by left.
  - by apply json_enclosure_shape in He.
  - unfold null_or_truthy, Js.or. destruct (Js.truthy image) eqn:Hi; [by right|by left].
  - by apply json_author_shape in Ha.
  - done.
Qed.

(** X17.  Whatever the entries of a JSON Feed hold, each item the
    adapter makes of them has a title and an isoDate that are truthy,
    so that normalizing it never falls back on the placeholder of the
    normalizer or on the clock; a link, a content and a snippet that
    are truthy or the empty string; an enclosure that is undefined or
    an object of a url and a type, the type truthy or the empty
    string; an image that is null or truthy; as author the empty
    array or one author with a truthy name or link; and the address
    of the feed as its source. *)
Theorem adapter_shape (now : Z) (url : string) (f : fetched) (jf : jsonfeed) :
  tryParseJSONFeed now url f = Some jf → Forall (adapted url) (jf_items jf).
Proof.
  intros H. apply tryParseJSONFeed_items in H as (l & _ & Hm).
  apply mapM_Ok_Forall2 in Hm.
  induction Hm as [|it o l items' Hit _ IH]; constructor; [|done].
  by eapply json_item_adapted.
Qed.

(** ** The entries of a Cache the process can hold *)

Lemma reachable_shaped (CACHE : Cache) : reachable CACHE → Forall shaped (items CACHE).
Proof.
  apply (reachable_cases (Forall shaped)); [constructor|].
  apply rebuild_shaped.
Qed.

Lemma buildFeeds_entries (pkg : feed_package) (CACHE : Cache) (f : feeds) (d : document) :
  buildFeeds pkg CACHE = Ok f → d ∈ [rss f; atom f; json f] →
  mapM render_item (items CACHE) = Ok (entries d).
Proof.
  intros H Hd. apply buildFeeds_Ok in H as (fd & Hfd & Hr & Ha & Hj).
  apply feed_Ok in Hfd as [Hm _]. unfold entries.
  repeat (apply elem_of_cons in Hd as [->|Hd];
          [by match goal with H : _ ∧ doc_feed _ = fd ∧ _ |- _ =>
                destruct H as (_ & -> & _) end|]);
    by apply elem_of_nil in Hd.
Qed.

Lemma render_item_addressed (it : Item) (e : entry) :
  shaped it → render_item it = Ok e → addressed e.
Proof.
  intros Hs H. unfold render_item in H.
  apply bind_Ok in H as (blocks & _ & H). apply bind_Ok in H as (d & _ & H).
  apply bind_Ok in H as (content & _ & H).
  apply bind_Ok in H as (enc & He & H). injection H as <-.
  unfold addressed. simpl. unfold primary_enclosure in He.
  pose proof (sh_video it Hs) as Hv.
  destruct (video it) as [v|]; simpl in Hv.
  - injection He as <-. simpl. apply Hv.
  - destruct (sh_enclosure it Hs) as [Hn|(o & Ho & Hu)].
    + rewrite Hn in He. simpl in He.
      destruct (Js.truthy (imageUrl it)) eqn:Hi; by injection He as <-.
    + rewrite Ho in He. simpl in He. by injection He as <-.
Qed.

(** X18.  In the documents buildFeeds makes of a Cache the process
    can hold, an entry that has an enclosure has one with a truthy
    address: the video, the enclosure and the image an Item keeps all
    have one. *)
Theorem cache_entries_addressed (pkg : feed_package) (CACHE : Cache) (f : feeds)
    (d : document) :
  reachable CACHE → buildFeeds pkg CACHE = Ok f → d ∈ [rss f; atom f; json f] →
  Forall addressed (entries d).
Proof.
  intros Hr Hf Hd. apply reachable_shaped in Hr.
  pose proof (buildFeeds_entries _ _ _ _ Hf Hd) as Hm.
  apply mapM_Ok_Forall2 in Hm.
  induction Hm as [|it e l es Hit _ IH]; constructor.
  - apply (render_item_addressed it); [by eapply Forall_inv|done].
  - apply IH. by eapply Forall_inv_tail.
Qed.

Lemma reachable_links_unique (CACHE : Cache) : reachable CACHE → links_unique (items CACHE).
Proof.
  apply (reachable_cases links_unique).
  - split; constructor.
  - apply rebuild_links_unique.
Qed.

Lemma render_items_identified (l : list Item) (es : list entry) :
  mapM render_item l = Ok es → Forall has_link l →
  Forall identified es ∧ e_id <$> es = link <$> l.
Proof.
  intros H. apply mapM_Ok_Forall2 in H.
  induction H as [|it e l es Hit _ IH]; intros Hl; [by split|].
  destruct (IH (Forall_inv_tail Hl)) as [Hi Hids].
  apply render_item_shows in Hit. unfold entry_of, shown_as in Hit.
  injection Hit as Hid _ Hlink _.
  destruct (Forall_inv Hl) as (s & Hs & Hne & _).
  split.
  - constructor; [|done]. split; [congruence|]. exists s. split; [congruence|done].
  - rewrite !fmap_cons. congruence.
Qed.

(** X19.  In the documents buildFeeds makes of a Cache the process
    can hold, every entry has its link as id, a string that is not
    empty, and no two entries share an id. *)
Theorem entry_ids_unique (pkg : feed_package) (CACHE : Cache) (f : feeds) (d : document) :
  reachable CACHE → buildFeeds pkg CACHE = Ok f → d ∈ [rss f; atom f; json f] →
  Forall identified (entries d) ∧ NoDup (e_id <$> entries d).
Proof.
  intros Hr Hf Hd. destruct (reachable_links_unique _ Hr) as [Hl Hn].
  pose proof (buildFeeds_entries _ _ _ _ Hf Hd) as Hm.
  destruct (render_items_identified _ _ Hm Hl) as [Hi Hids].
  split; [done|]. rewrite Hids.
  apply (NoDup_fmap_1 (fun v => match v with VStr s => Js.str_trim s | _ => ""%string end)).
  by rewrite <- list_fmap_compose.
Qed.

(** ** Nothing that bears a key is lost *)

Lemma collect_source_elem (now : Z) (SOURCES : list feed_source) (s : feed_source)
    (raw : obj) :
  s ∈ SOURCES → raw ∈ collect_source now s → raw ∈ collect now SOURCES.
Proof.
  intros Hs Hraw. rewrite collect_concat.
  apply list_elem_of_In, in_concat. exists (collect_source now s).
  split; apply list_elem_of_In; [|done].
  apply list_elem_of_fmap. by exists s.
Qed.

Lemma mapM_elem_of {A B} (f : A → result B) (l : list A) (out : list B) (a : A) :
  mapM f l = Ok out → a ∈ l → ∃ b, b ∈ out ∧ f a = Ok b.
Proof.
  intros H Ha. apply mapM_Ok_Forall2 in H.
  induction H as [|a' b l out Hab _ IH]; [by apply elem_of_nil in Ha|].
  apply elem_of_cons in Ha as [->|Ha].
  - exists b. split; [apply list_elem_of_here|done].
  - destruct (IH Ha) as (b' & Hb' & Hf). exists b'. split; [by apply list_elem_of_further|done].
Qed.

Lemma keyed_truthy (it : Item) : link_key it ≠ "" → Js.truthy (link it) = true.
Proof.
  unfold link_key. destruct (link it) as [| | | |s| |]; try done.
  intros Hne. apply nonempty_truthy. by intros ->.
Qed.

(** X20.  A refresh that succeeds has normalized every raw item the
    sources of the cycle delivered, and has lost no link: for every
    raw item whose normalized link is not blank, the Cache holds an
    Item with the same trimmed link. *)
Theorem nothing_keyed_is_lost (now : Z) (SOURCES : list feed_source) (CACHE CACHE' : Cache)
    (s : feed_source) (raw : obj) :
  refresh now SOURCES CACHE = (Ok (), CACHE') →
  s ∈ SOURCES →
  raw ∈ collect_source now s →
  ∃ it, normalize now raw = Ok it
        ∧ (link_key it = ""
           ∨ ∃ it', it' ∈ items CACHE' ∧ link_key it' = link_key it).
Proof.
  unfold refresh. destruct (rebuild now SOURCES) as [out|e] eqn:Hr; [|discriminate].
  intros [= <-] Hs Hraw. simpl.
  apply rebuild_Ok in Hr as (mapped & deduped & Hm & Hd & ->).
  destruct (mapM_elem_of _ _ _ raw Hm (collect_source_elem _ _ _ _ Hs Hraw))
    as (it & Hit & Hn).
  exists it. split; [done|].
  destruct (String.eqb_spec (link_key it) "") as [He|Hne]; [by left|right].
  assert (Hk : link_key it ∈ link_key <$> deduped).
  { eapply dedupe_loop_keys; [exact Hd| | |done].
    - intros k Hk. by apply elem_of_empty in Hk.
    - apply list_elem_of_In, filter_In. split; [by apply list_elem_of_In|].
      by apply keyed_truthy. }
  apply list_elem_of_fmap in Hk as (it' & Heq & Hin').
  exists it'. split; [by rewrite sort_perm|done].
Qed.

(** ** The properties above, at work *)

Lemma scraped_src_quoted_witness :
  let html := "<p><img class='wide' src='http://i/scraped.png' alt=''></p>"%string in
  Js.match_img html = Some "http://i/scraped.png"%string
  ∧ ("http://i/scraped.png"%string ≠ ""%string
     ∧ str_forall not_quote "http://i/scraped.png" = true
     ∧ quoted_in "http://i/scraped.png" html).
Proof.
  split; [reflexivity|].
  apply scraped_src_quoted. reflexivity.
Defined.

Lemma scanned_video_link_witness :
  let text := "see httpS://x.example/clip.MP4 now"%string in
  Js.match_video text = Some ("httpS://x.example/clip.MP4", "MP4")%string
  ∧ (video_link "httpS://x.example/clip.MP4" "MP4"
     ∧ occurs_in "httpS://x.example/clip.MP4" text).
Proof.
  split; [reflexivity|].
  apply scanned_video_link. reflexivity.
Defined.

Lemma pickVideo_three_kinds_witness :
  let item := [("link", VStr "https://x.example/post");
               ("content", VStr "see httpS://x.example/clip.MP4 now")] in
  let m := {| m_url := VStr "httpS://x.example/clip.MP4"; m_type := VStr "video/MP4" |} in
  pickVideo item = Ok (Some m) ∧ video_answer item m.
Proof.
  split; [reflexivity|].
  apply pickVideo_three_kinds. reflexivity.
Defined.

Lemma dedupe_sublist_witness :
  let normalized := [Sample.plain "a"; Sample.plain "b"; Sample.plain " a"; Sample.plain " "] in
  dedupe normalized = Ok [Sample.plain "a"; Sample.plain "b"]
  ∧ sublist [Sample.plain "a"; Sample.plain "b"] normalized.
Proof.
  assert (H : dedupe [Sample.plain "a"; Sample.plain "b"; Sample.plain " a"; Sample.plain " "]
              = Ok [Sample.plain "a"; Sample.plain "b"]) by (by vm_compute).
  split; [exact H|]. exact (dedupe_sublist _ _ H).
Defined.

Lemma dedupe_keeps_every_key_witness :
  let normalized := [Sample.plain "a"; Sample.plain "b"; Sample.plain " a"; Sample.plain " "] in
  (dedupe normalized = Ok [Sample.plain "a"; Sample.plain "b"]
   ∧ Sample.plain " a" ∈ normalized
   ∧ link_key (Sample.plain " a") ≠ ""%string)
  ∧ ∃ it', it' ∈ [Sample.plain "a"; Sample.plain "b"]
           ∧ link_key it' = link_key (Sample.plain " a").
Proof.
  assert (H : dedupe [Sample.plain "a"; Sample.plain "b"; Sample.plain " a"; Sample.plain " "]
              = Ok [Sample.plain "a"; Sample.plain "b"]) by (by vm_compute).
  assert (Hin : Sample.plain " a"
                ∈ [Sample.plain "a"; Sample.plain "b"; Sample.plain " a"; Sample.plain " "])
    by (do 2 apply list_elem_of_further; apply list_elem_of_here).
  assert (Hne : link_key (Sample.plain " a") ≠ ""%string) by (by vm_compute).
  split; [done|]. exact (dedupe_keeps_every_key _ _ _ H Hin Hne).
Defined.

Lemma dedupe_idempotent_witness :
  let normalized := [Sample.plain "a"; Sample.plain "b"; Sample.plain " a"; Sample.plain " "] in
  dedupe normalized = Ok [Sample.plain "a"; Sample.plain "b"]
  ∧ dedupe [Sample.plain "a"; Sample.plain "b"] = Ok [Sample.plain "a"; Sample.plain "b"].
Proof.
  assert (H : dedupe [Sample.plain "a"; Sample.plain "b"; Sample.plain " a"; Sample.plain " "]
              = Ok [Sample.plain "a"; Sample.plain "b"]) by (by vm_compute).
  split; [exact H|]. exact (dedupe_idempotent _ _ H).
Defined.

Lemma equal_dates_keep_order_witness :
  let deduped := [Sample.plain "a"; Sample.plain "b"; Sample.plain "c"] in
  Forall valid_date deduped
  ∧ filter (fun it => date it = Some 0%Z) (sort by_date deduped)
    = filter (fun it => date it = Some 0%Z) deduped.
Proof.
  assert (Hv : Forall valid_date [Sample.plain "a"; Sample.plain "b"; Sample.plain "c"])
    by (repeat constructor; by eexists).
  split; [exact Hv|]. exact (equal_dates_keep_order _ 0 Hv).
Defined.

Lemma cache_provenance_witness :
  let SOURCES := [Sample.rss_source; Sample.json_source] in
  let CACHE' := snd (refresh Sample.clock SOURCES Sample.boot) in
  let item := {| title := VStr "(untitled)"; link := VStr "b"; date := Some 1701388800000%Z;
                 description := VStr ""; authorName := VStr ""; imageUrl := VNull;
                 video := None; enclosure := VNull;
                 source := VStr "https://two.example/feed.json" |} in
  (refresh Sample.clock SOURCES Sample.boot = (Ok (), CACHE') ∧ item ∈ items CACHE')
  ∧ ∃ s raw,
      s ∈ SOURCES
      ∧ raw ∈ collect_source Sample.clock s
      ∧ normalize Sample.clock raw = Ok item
      ∧ source item = VStr (url s)
      ∧ (Js.truthy (get raw "link") = true ∨ Js.truthy (get raw "guid") = true).
Proof.
  assert (H : refresh Sample.clock [Sample.rss_source; Sample.json_source] Sample.boot
              = (Ok (), snd (refresh Sample.clock [Sample.rss_source; Sample.json_source]
                               Sample.boot)))
    by (by vm_compute).
  assert (Hin : {| title := VStr "(untitled)"; link := VStr "b";
                   date := Some 1701388800000%Z;
                   description := VStr ""; authorName := VStr ""; imageUrl := VNull;
                   video := None; enclosure := VNull;
                   source := VStr "https://two.example/feed.json" |}
                ∈ items (snd (refresh Sample.clock [Sample.rss_source; Sample.json_source]
                                Sample.boot)))
    by (vm_compute; apply list_elem_of_further, list_elem_of_here).
  split; [done|]. exact (cache_provenance _ _ _ _ _ H Hin).
Defined.

Lemma cache_items_shaped_witness :
  let CACHE := snd (refresh Sample.clock [Sample.rss_source; Sample.json_source] Sample.boot) in
  reachable CACHE ∧ length (items CACHE) = 2%nat ∧ Forall shaped (items CACHE).
Proof.
  assert (Hr : reachable
                 (snd (refresh Sample.clock [Sample.rss_source; Sample.json_source] Sample.boot)))
    by apply reach_refresh, (reach_boot 0).
  split; [exact Hr|]. split; [by vm_compute|].
  exact (cache_items_shaped _ Hr).
Defined.

Lemma typed_sources_render_witness :
  let SOURCES := [Sample.rss_source; Sample.json_source] in
  Forall typed_source SOURCES
  ∧ ∃ deduped fd,
      refresh Sample.clock SOURCES Sample.boot
      = (Ok (), {| items := deduped; lastBuild := Sample.clock |})
      ∧ feed {| items := deduped; lastBuild := Sample.clock |} = Ok fd
      ∧ ∀ pkg, serializable pkg fd →
               ∃ f, buildFeeds pkg {| items := deduped; lastBuild := Sample.clock |} = Ok f.
Proof.
  assert (Ht : Forall typed_source [Sample.rss_source; Sample.json_source]).
  { constructor; [|constructor; [|constructor]].
    - split.
      + intros l (res & data & [= <-] & Hct & _). by vm_compute in Hct.
      + intros its [= <-]. constructor; [|constructor].
        split; [split|..]; by vm_compute.
    - split.
      + intros l (res & data & [= <-] & _ & [= <-] & [= <-]).
        repeat constructor; by vm_compute.
      + intros its [=]. }
  split; [exact Ht|].
  exact (typed_sources_render Sample.clock _ Sample.boot Ht).
Defined.

Lemma entry_summary_short_tagless_witness :
  let it := {| title := VStr "t"; link := VStr "a"; date := Some 0%Z;
               description := VStr "<p>Hello <b>world</b> a <> b</p>";
               authorName := VStr ""; imageUrl := VNull; video := None;
               enclosure := VNull; source := VStr "s" |} in
  ∃ e, render_item it = Ok e
       ∧ e_description e = VStr "Hello world a <> b"
       ∧ short_summary (e_description e).
Proof.
  eexists. split; [reflexivity|]. split; [reflexivity|].
  apply (entry_summary_short_tagless
           {| title := VStr "t"; link := VStr "a"; date := Some 0%Z;
              description := VStr "<p>Hello <b>world</b> a <> b</p>";
              authorName := VStr ""; imageUrl := VNull; video := None;
              enclosure := VNull; source := VStr "s" |}).
  reflexivity.
Defined.

Lemma entry_content_attributed_witness :
  ∃ e, render_item Sample.bare = Ok e
       ∧ (e_content e = attribution Sample.bare
          ∨ ∃ before, e_content e = before +:+ nl +:+ attribution Sample.bare).
Proof.
  eexists. split; [reflexivity|].
  apply (entry_content_attributed Sample.bare). reflexivity.
Defined.

Lemma failed_source_drops_out_witness :
  let SOURCES := [Sample.dead_source; Sample.json_source] in
  let stale := {| title := VStr "Old"; link := VStr "o"; date := Some 0%Z;
                  description := VStr ""; authorName := VStr ""; imageUrl := VNull;
                  video := None; enclosure := VNull;
                  source := VStr "https://gone.example/feed" |} in
  let CACHE := {| items := [stale]; lastBuild := 0 |} in
  let CACHE' := snd (refresh Sample.clock SOURCES CACHE) in
  let item := {| title := VStr "(untitled)"; link := VStr "b"; date := Some 1701388800000%Z;
                 description := VStr ""; authorName := VStr ""; imageUrl := VNull;
                 video := None; enclosure := VNull;
                 source := VStr "https://two.example/feed.json" |} in
  (refresh Sample.clock SOURCES CACHE = (Ok (), CACHE')
   ∧ (∀ s, s ∈ SOURCES → url s = "https://gone.example/feed"%string → fails Sample.clock s)
   ∧ item ∈ items CACHE')
  ∧ source item ≠ VStr "https://gone.example/feed".
Proof.
  cbv zeta.
  match goal with
  | |- (?R ∧ ?F ∧ ?I) ∧ _ =>
      assert (Hr : R) by (by vm_compute);
      assert (Hf : F);
      [|assert (Hi : I) by (vm_compute; apply list_elem_of_further, list_elem_of_here)]
  end.
  { intros s Hs Hu. apply elem_of_cons in Hs as [->|Hs]; [split; reflexivity|].
    apply elem_of_cons in Hs as [->|Hs]; [discriminate Hu|by apply elem_of_nil in Hs]. }
  split; [done|].
  exact (failed_source_drops_out _ _ _ _ _ _ Hr Hf Hi).
Defined.

Lemma adapter_shape_witness :
  ∃ jf, tryParseJSONFeed Sample.clock (url Sample.json_source) (json_fetch Sample.json_source)
        = Some jf
        ∧ length (jf_items jf) = 2%nat
        ∧ Forall (adapted (url Sample.json_source)) (jf_items jf).
Proof.
  destruct (tryParseJSONFeed Sample.clock (url Sample.json_source)
              (json_fetch Sample.json_source)) as [jf|] eqn:H; [|by vm_compute in H].
  exists jf. split; [done|]. split.
  - vm_compute in H. by injection H as <-.
  - exact (adapter_shape _ _ _ _ H).
Defined.

Lemma cache_entries_addressed_witness :
  let CACHE := snd (refresh Sample.clock [Sample.rss_source; Sample.json_source] Sample.boot) in
  ∃ f, (reachable CACHE ∧ buildFeeds Sample.strict_package CACHE = Ok f
        ∧ rss f ∈ [rss f; atom f; json f])
       ∧ (∃ e m, entries (rss f) !! 0%nat = Some e
                 ∧ e_enclosure e = Some m ∧ m_url m = VStr "http://i/x.png")
       ∧ Forall addressed (entries (rss f)).
Proof.
  cbv zeta.
  assert (Hr : reachable
                 (snd (refresh Sample.clock [Sample.rss_source; Sample.json_source] Sample.boot)))
    by apply reach_refresh, (reach_boot 0).
  destruct (buildFeeds Sample.strict_package
              (snd (refresh Sample.clock [Sample.rss_source; Sample.json_source]
                      Sample.boot))) as [f|e] eqn:Hf; [|by vm_compute in Hf].
  exists f.
  assert (Hd : rss f ∈ [rss f; atom f; json f]) by apply list_elem_of_here.
  split; [done|]. split.
  - vm_compute in Hf. injection Hf as <-. eexists _, _. repeat split; reflexivity.
  - exact (cache_entries_addressed _ _ _ _ Hr Hf Hd).
Defined.

Lemma entry_ids_unique_witness :
  let CACHE := snd (refresh Sample.clock [Sample.rss_source; Sample.json_source] Sample.boot) in
  ∃ f, (reachable CACHE ∧ buildFeeds Sample.strict_package CACHE = Ok f
        ∧ atom f ∈ [rss f; atom f; json f])
       ∧ e_id <$> entries (atom f) = [VStr "a"; VStr "b"]
       ∧ Forall identified (entries (atom f))
       ∧ NoDup (e_id <$> entries (atom f)).
Proof.
  cbv zeta.
  assert (Hr : reachable
                 (snd (refresh Sample.clock [Sample.rss_source; Sample.json_source] Sample.boot)))
    by apply reach_refresh, (reach_boot 0).
  destruct (buildFeeds Sample.strict_package
              (snd (refresh Sample.clock [Sample.rss_source; Sample.json_source]
                      Sample.boot))) as [f|e] eqn:Hf; [|by vm_compute in Hf].
  exists f.
  assert (Hd : atom f ∈ [rss f; atom f; json f])
    by apply list_elem_of_further, list_elem_of_here.
  split; [done|]. split.
  - vm_compute in Hf. by injection Hf as <-.
  - exact (entry_ids_unique _ _ _ _ Hr Hf Hd).
Defined.

Lemma nothing_keyed_is_lost_witness :
  let SOURCES := [Sample.rss_source; Sample.json_source] in
  let CACHE' := snd (refresh Sample.clock SOURCES Sample.boot) in
  let raw := tag (url Sample.rss_source) Sample.rss_item in
  (refresh Sample.clock SOURCES Sample.boot = (Ok (), CACHE')
   ∧ Sample.rss_source ∈ SOURCES
   ∧ raw ∈ collect_source Sample.clock Sample.rss_source)
  ∧ ∃ it, normalize Sample.clock raw = Ok it
          ∧ (link_key it = ""%string
             ∨ ∃ it', it' ∈ items CACHE' ∧ link_key it' = link_key it).
Proof.
  cbv zeta.
  match goal with
  | |- (?R ∧ ?S ∧ ?I) ∧ _ =>
      assert (Hr : R) by (by vm_compute);
      assert (Hs : S) by apply list_elem_of_here;
      assert (Hi : I) by (vm_compute; apply list_elem_of_here)
  end.
  split; [done|].
  exact (nothing_keyed_is_lost _ _ _ _ _ _ Hr Hs Hi).
Defined.
